(** * Synthetic time-series generators: a shallow embedding

    The development follows [src/utils/stochastic_processes.py] and
    [src/utils/data.py].

    Conventions of the embedding.

    - A Python [float] is modelled by a rational number ([Q]).  Every finite
      double is a rational and comparisons between doubles are exact, so
      guards such as [0 <= p <= 1] or [match n: case 2] are modelled
      exactly; arithmetic is the exact one (neither rounding nor overflow
      to [inf] is modelled).
    - A Python [int] is a [Z]; array lengths and positions are [nat].
    - An exception is a value of [exn]; code that may raise returns a
      [result].
    - NumPy's random generator, NumPy's [sqrt] and [cbrt], and SciPy's
      special functions are libraries the repository calls but does not
      contain.  They enter the embedding as the interfaces [Numpy],
      [NumpyMath] and [ScipySpecial] (operations with the few laws the
      proofs use), and every statement is proved for all implementations of
      the interfaces.  [Toy] holds one small executable implementation, used
      to run the definitions on concrete inputs. *)

From Stdlib Require Import String Ascii DecimalString DecimalZ DecimalPos.
From Stdlib Require Import ZArith QArith Qabs Qround List Bool Lia Lqa.
Import ListNotations.

Local Open Scope Z_scope.

(** ** Python runtime: exceptions, results, sequences *)

Inductive exn : Type :=
| AssertionError (msg : string)
| ValueError (msg : string)
| TypeError (msg : string)
| KeyError (key : string)
| IndexError
| ZeroDivisionError
| ExternalError (detail : string).

Inductive result (A : Type) : Type :=
| Ok (a : A)
| Raise (e : exn).

Arguments Ok {A} a.
Arguments Raise {A} e.

Definition bind {A B : Type} (r : result A) (k : A -> result B) : result B :=
  match r with
  | Ok a => k a
  | Raise e => Raise e
  end.

Notation "x <- r ;; k" := (bind r (fun x => k))
  (at level 61, r at next level, right associativity).
Notation "' pat <- r ;; k" := (bind r (fun x => match x with pat => k end))
  (at level 61, pat pattern, r at next level, right associativity).

(** [assert cond, msg] *)
Definition py_assert (cond : bool) (msg : string) : result unit :=
  if cond then Ok tt else Raise (AssertionError msg).

(** [for x in xs: s = body(x, s)], stopping at the first exception. *)
Fixpoint for_each {A S : Type} (xs : list A) (body : A -> S -> result S) (s : S)
  : result S :=
  match xs with
  | [] => Ok s
  | x :: xs' => s' <- body x s ;; for_each xs' body s'
  end.

(** [[f(x) for x in xs]], stopping at the first exception. *)
Fixpoint map_each {A B : Type} (f : A -> result B) (xs : list A) : result (list B) :=
  match xs with
  | [] => Ok []
  | x :: xs' => y <- f x ;; ys <- map_each f xs' ;; Ok (y :: ys)
  end.

(** [range(lo, hi)] *)
Definition range (lo hi : Z) : list Z :=
  map (fun k => lo + Z.of_nat k) (seq 0 (Z.to_nat (hi - lo))).

(** In-place replacement of the cell at position [i]. *)
Fixpoint update {A : Type} (i : nat) (x : A) (l : list A) : list A :=
  match l, i with
  | [], _ => []
  | _ :: t, O => x :: t
  | h :: t, S i' => h :: update i' x t
  end.

(** Python's index normalisation: [-len <= i < 0] counts from the end, and
    anything outside [-len, len) raises [IndexError]. *)
Definition py_index (len : nat) (i : Z) : result nat :=
  let n := Z.of_nat len in
  if (0 <=? i) && (i <? n) then Ok (Z.to_nat i)
  else if (- n <=? i) && (i <? 0) then Ok (Z.to_nat (i + n))
  else Raise IndexError.

(** [l[i]] *)
Definition getitem {A : Type} (l : list A) (i : Z) : result A :=
  k <- py_index (length l) i ;;
  match nth_error l k with
  | Some x => Ok x
  | None => Raise IndexError
  end.

(** [l[i] = x] *)
Definition setitem {A : Type} (l : list A) (i : Z) (x : A) : result (list A) :=
  k <- py_index (length l) i ;; Ok (update k x l).

(** [np.cumsum] *)
Fixpoint cumsum_from (acc : Z) (l : list Z) : list Z :=
  match l with
  | [] => []
  | x :: t => (acc + x) :: cumsum_from (acc + x) t
  end.

Definition cumsum (l : list Z) : list Z := cumsum_from 0 l.

(** Membership test behind [np.isin]. *)
Definition isin (x : Z) (l : list Z) : bool := existsb (Z.eqb x) l.

(** Comparisons of floats. *)
Definition Qleb (x y : Q) : bool := Qle_bool x y.
Definition Qltb (x y : Q) : bool := negb (Qle_bool y x).
Definition Qeqb (x y : Q) : bool := Qeq_bool x y.

Fixpoint Qsum (l : list Q) : Q :=
  match l with
  | [] => 0%Q
  | x :: t => (x + Qsum t)%Q
  end.

(** A size argument of NumPy: negative sizes are refused. *)
Definition np_size (n : Z) : result nat :=
  if n <? 0 then Raise (ValueError "negative dimensions are not allowed")
  else Ok (Z.to_nat n).

(** ** NumPy: the random generator and uninitialised arrays

    [np.random.default_rng(seed)] builds a fresh generator.  With an integer
    seed the generator is a function of the seed alone; with [None] NumPy
    pulls fresh entropy from the operating system.  The operating system's
    entropy and the content of freshly allocated memory are the state a call
    shares with the rest of the process ([world]).  NumPy accepts
    non-negative integer seeds, hence [option N]. *)

Class Numpy : Type := {
  bitgen : Type;
  world : Type;
  os_entropy : world -> N * world;
  seed_bitgen : N -> bitgen;
  (** what [np.empty(size, dtype=int)] finds in memory *)
  np_empty : world -> nat -> list Z;
  (** one draw of [binomial(n=1, p)] for a valid [p] *)
  next_binomial1 : Q -> bitgen -> Z * bitgen;
  (** one draw of [standard_normal()] *)
  next_standard_normal : bitgen -> Q * bitgen;
  (** one draw of [random()], a double in [0, 1) *)
  next_double : bitgen -> Q * bitgen;
  (** one draw of [normal(loc, scale)] *)
  next_normal : Q -> Q -> bitgen -> Q * bitgen;
  (** one draw of [choice(a, p=p)] for valid [a] and [p] *)
  next_choice : list Z -> list Q -> bitgen -> Z * bitgen;
  np_empty_length : forall w size, length (np_empty w size) = size;
  next_binomial1_range :
    forall p g, fst (next_binomial1 p g) = 0 \/ fst (next_binomial1 p g) = 1;
}.

(** The [seed: int | None] argument of every [generate]. *)
Definition py_seed : Type := option N.

Section Generator.

Context {NP : Numpy}.

Definition default_rng (seed : py_seed) (w : world) : bitgen * world :=
  match seed with
  | Some s => (seed_bitgen s, w)
  | None => let (e, w') := os_entropy w in (seed_bitgen e, w')
  end.

(** [size] successive draws of [step]. *)
Fixpoint draws {A : Type} (step : bitgen -> A * bitgen) (size : nat) (g : bitgen)
  : list A * bitgen :=
  match size with
  | O => ([], g)
  | S k => let (x, g') := step g in
           let (xs, g'') := draws step k g' in (x :: xs, g'')
  end.

(** One draw per element of [xs], the element being the draw's parameter. *)
Fixpoint draws_over {A B : Type} (step : A -> bitgen -> B * bitgen) (xs : list A)
  (g : bitgen) : list B * bitgen :=
  match xs with
  | [] => ([], g)
  | x :: t => let (y, g') := step x g in
              let (ys, g'') := draws_over step t g' in (y :: ys, g'')
  end.

(** [rng.binomial(n=1, p=p)] *)
Definition rng_binomial1 (p : Q) (g : bitgen) : result (Z * bitgen) :=
  if Qleb 0 p && Qleb p 1 then Ok (next_binomial1 p g)
  else Raise (ValueError "p < 0, p > 1 or p is NaN").

(** [rng.standard_normal(size=size)] *)
Definition rng_standard_normal (size : Z) (g : bitgen) : result (list Q * bitgen) :=
  n <- np_size size ;; Ok (draws next_standard_normal n g).

(** [rng.uniform(low=low, high=high, size=size)]: [low + (high - low) * random()]. *)
Definition next_uniform (low high : Q) (g : bitgen) : Q * bitgen :=
  let (u, g') := next_double g in ((low + (high - low) * u)%Q, g').

Definition rng_uniform (low high : Q) (size : Z) (g : bitgen)
  : result (list Q * bitgen) :=
  n <- np_size size ;; Ok (draws (next_uniform low high) n g).

(** [rng.normal(loc, scale=scale)] over an array of locations. *)
Definition rng_normal (loc : list Q) (scale : Q) (g : bitgen)
  : result (list Q * bitgen) :=
  if Qltb scale 0 then Raise (ValueError "scale < 0")
  else Ok (draws_over (fun m => next_normal m scale) loc g).

(** The checks [rng.choice] makes on [a] and [p]; the tolerance on the sum
    of [p] is the square root of the double precision epsilon, [2^-26]. *)
Definition choice_atol : Q := 1 # 67108864.

Definition choice_check (a : list Z) (p : list Q) : result unit :=
  match a with
  | [] => Raise (ValueError "a cannot be empty unless no samples are taken")
  | _ =>
    if negb (Nat.eqb (length a) (length p))
    then Raise (ValueError "a and p must have same size")
    else if negb (forallb (Qleb 0) p)
    then Raise (ValueError "probabilities are not non-negative")
    else if Qltb choice_atol (Qabs (Qsum p - 1))
    then Raise (ValueError "probabilities do not sum to 1")
    else Ok tt
  end.

(** [rng.choice(a, p=p)] *)
Definition rng_choice1 (a : list Z) (p : list Q) (g : bitgen) : result (Z * bitgen) :=
  _ <- choice_check a p ;; Ok (next_choice a p g).

(** [rng.choice(a, p=p, size=size)] *)
Definition rng_choice (a : list Z) (p : list Q) (size : Z) (g : bitgen)
  : result (list Z * bitgen) :=
  _ <- choice_check a p ;;
  n <- np_size size ;; Ok (draws (next_choice a p) n g).

End Generator.

(** [np.sqrt] and [np.cbrt], used by the closed-form renewal sampler. *)
Class NumpyMath : Type := {
  np_sqrt : Q -> Q;
  np_cbrt : Q -> Q;
}.

(** [scipy.special.factorial] and [scipy.special.poch] (the Pochhammer
    symbol [poch a n = a (a+1) ... (a+n-1)], through the gamma function for
    a real [n]).  The laws are the sign of the two functions and the growth
    of [poch a n] and of [poch a n / a] in [a], for a positive [a] and
    [n > 1].  They are the laws of the mathematical functions: SciPy
    computes in doubles and returns [inf] once a value leaves their range
    ([factorial n] from [n = 171] on), which has no counterpart here. *)
Class ScipySpecial : Type := {
  factorial : Q -> Q;
  poch : Q -> Q -> Q;
  factorial_nonneg : forall n, (1 < n -> 0 <= factorial n)%Q;
  poch_pos : forall a n, (0 < a -> 1 < n -> 0 < poch a n)%Q;
  poch_mono :
    forall a a' n, (0 < a -> a <= a' -> 1 < n -> poch a n <= poch a' n)%Q;
  poch_ratio_mono :
    forall a a' n, (0 < a -> a <= a' -> 1 < n -> a' * poch a n <= a * poch a' n)%Q;
}.

(** ** TwoStateMarkovChain *)

(** [x / y] on Python floats or ints. *)
Definition py_div (x y : Q) : result Q :=
  if Qeqb y 0 then Raise ZeroDivisionError else Ok (x / y)%Q.

(** [M[i, j]] *)
Definition getitem2 {A : Type} (M : list (list A)) (i j : Z) : result A :=
  row <- getitem M i ;; getitem row j.

(** [M[i, j] = x] *)
Definition setitem2 {A : Type} (M : list (list A)) (i j : Z) (x : A)
  : result (list (list A)) :=
  row <- getitem M i ;;
  row' <- setitem row j x ;;
  setitem M i row'.

Module TwoStateMarkovChain.

Record t : Type := { P : list (list Q); pi : list Q }.

Definition init (p q : Q) : result t :=
  _ <- py_assert (Qleb 0 p && Qleb p 1) "p must be between zero and one." ;;
  _ <- py_assert (Qleb 0 q && Qleb q 1) "q must be between zero and one." ;;
  let P := [[1 - p; p]; [q; 1 - q]]%Q in
  pi0 <- py_div q (p + q) ;;
  pi1 <- py_div p (p + q) ;;
  Ok {| P := P; pi := [pi0; pi1] |}.

Section Generate.

Context {NP : Numpy}.

(** [states[i] = rng.binomial(n=1, p=self.P[states[i-1], 1])] *)
Definition step (self : t) (i : Z) (st : list Z * bitgen) : result (list Z * bitgen) :=
  let (states, rng) := st in
  prev <- getitem states (i - 1) ;;
  p <- getitem2 (P self) prev 1 ;;
  ' (x, rng') <- rng_binomial1 p rng ;;
  states' <- setitem states i x ;;
  Ok (states', rng').

Definition generate (self : t) (N : Z) (seed : py_seed) (w : world)
  : result (list Z) * world :=
  let (rng, w') := default_rng seed w in
  (size <- np_size N ;;
   let states := np_empty w' size in
   p0 <- getitem (pi self) 1 ;;
   ' (x0, rng) <- rng_binomial1 p0 rng ;;
   states <- setitem states 0 x0 ;;
   ' (states, _) <- for_each (range 1 N) (step self) (states, rng) ;;
   _ <- py_assert (forallb (fun x => isin x [0; 1]) states) "" ;;
   Ok states,
   w').

End Generate.

End TwoStateMarkovChain.

(** ** AR1 *)

Module AR1.

Record t : Type := { phi : Q }.

Definition init (phi : Q) : result t := Ok {| phi := phi |}.

Section Generate.

Context {NP : Numpy}.

(** [states[i] = self.phi * states[i-1] + states[i]] *)
Definition step (self : t) (i : Z) (states : list Q) : result (list Q) :=
  prev <- getitem states (i - 1) ;;
  own <- getitem states i ;;
  setitem states i (phi self * prev + own)%Q.

Definition generate (self : t) (N : Z) (seed : py_seed) (w : world)
  : result (list Q) * world :=
  let (rng, w') := default_rng seed w in
  (' (states, _) <- rng_standard_normal N rng ;;
   for_each (range 1 N) (step self) states,
   w').

End Generate.

End AR1.

(** ** CycleRandomWalk *)

(** [np.eye(n, k=k)]: ones on the [k]-th diagonal, zeros elsewhere. *)
Definition eye_row (n : nat) (k : Z) (i : nat) : list Q :=
  map (fun j => if Z.of_nat j =? Z.of_nat i + k then 1%Q else 0%Q) (seq 0 n).

Definition eye (n : nat) (k : Z) : list (list Q) :=
  map (eye_row n k) (seq 0 n).

(** [M * c] and [A + B] on arrays of equal shape. *)
Definition mat_scale (M : list (list Q)) (c : Q) : list (list Q) :=
  map (map (fun x => (x * c)%Q)) M.

Definition row_add (r1 r2 : list Q) : list Q :=
  map (fun xy => (fst xy + snd xy)%Q) (combine r1 r2).

Definition mat_add (A B : list (list Q)) : list (list Q) :=
  map (fun rr => row_add (fst rr) (snd rr)) (combine A B).

(** [M.sum(axis=1)] *)
Definition row_sums (M : list (list Q)) : list Q := map Qsum M.

(** [np.allclose(xs, y)] with NumPy's default tolerances
    ([rtol = 1e-05], [atol = 1e-08]). *)
Definition allclose (xs : list Q) (y : Q) : bool :=
  forallb (fun x => Qleb (Qabs (x - y))
                         ((1 # 100000000) + (1 # 100000) * Qabs y)) xs.

(** [np.repeat(x, repeats=n)] *)
Definition np_repeat {A : Type} (x : A) (n : Z) : result (list A) :=
  if n <? 0 then Raise (ValueError "repeats may not contain negative values.")
  else Ok (repeat x (Z.to_nat n)).

Module CycleRandomWalk.

Record t : Type := {
  P : list (list Q);
  pi : list Q;
  b : Q;
  s : Q;
  f : Q;
  vertices : Z;
}.

(** The four assertions on the probabilities, which [__init__] makes
    before it looks at [vertices].  The sum [b + s + f] is the exact one:
    in doubles it carries a rounding error of at most [2^-51], so the
    assertion on the sum decides differently only for probabilities whose
    exact sum is within [5e-16] of the bound [1e-12]. *)
Definition check_probabilities (b s f : Q) : result unit :=
  _ <- py_assert (Qleb 0 b && Qleb b 1) "b must be between zero and one." ;;
  _ <- py_assert (Qleb 0 s && Qleb s 1) "s must be between zero and one." ;;
  _ <- py_assert (Qleb 0 f && Qleb f 1) "f must be between zero and one." ;;
  py_assert (Qltb (Qabs (b + s + f - 1)) (1 # 1000000000000))
    "probabilities must sum up to one.".

Definition init (b s f : Q) (vertices : Z) : result t :=
  _ <- check_probabilities b s f ;;
  n <- np_size vertices ;;
  let P0 := mat_add (mat_add (mat_scale (eye n (-1)) b) (mat_scale (eye n 0) s))
                    (mat_scale (eye n 1) f) in
  P1 <- setitem2 P0 0 (-1) b ;;
  P2 <- setitem2 P1 (-1) 0 f ;;
  _ <- py_assert (allclose (row_sums P2) 1) "transition matrix rows must sum up to one." ;;
  share <- py_div 1 (inject_Z vertices) ;;
  pi <- np_repeat share vertices ;;
  Ok {| P := P2; pi := pi; b := b; s := s; f := f; vertices := vertices |}.

Section Generate.

Context {NP : Numpy}.

Definition generate (self : t) (N : Z) (seed : py_seed) (w : world)
  : result (list Z) * world :=
  let (rng, w') := default_rng seed w in
  (' (initial_state, rng) <- rng_choice1 (range 0 (vertices self)) (pi self) rng ;;
   ' (moves, _) <- rng_choice [-1; 0; 1] [b self; s self; f self] (N - 1) rng ;;
   let states := map (fun x => x mod vertices self) (cumsum (initial_state :: moves)) in
   _ <- py_assert (forallb (fun x => isin x (range 0 (vertices self))) states) "" ;;
   Ok states,
   w').

End Generate.

End CycleRandomWalk.

(** ** Renewal *)

(** The monotonicity test of [np.digitize]. *)
Fixpoint nondecreasing (l : list Q) : bool :=
  match l with
  | x :: ((y :: _) as t) => Qleb x y && nondecreasing t
  | _ => true
  end.

Fixpoint nonincreasing (l : list Q) : bool :=
  match l with
  | x :: ((y :: _) as t) => Qleb y x && nonincreasing t
  | _ => true
  end.

Definition count {A : Type} (p : A -> bool) (l : list A) : nat :=
  length (filter p l).

(** [np.digitize(x, bins)] with [right=False]: for increasing [bins] the
    index [i] with [bins[i-1] <= x < bins[i]], that is the number of bins
    that are [<= x] ([searchsorted(bins, x, side='right')]); for decreasing
    [bins] the index [i] with [bins[i-1] > x >= bins[i]], that is
    [len(bins) - searchsorted(bins[::-1], x, side='right')]; [ValueError]
    when [bins] is not monotonic. *)
Definition digitize (x : Q) (bins : list Q) : result Z :=
  if nondecreasing bins
  then Ok (Z.of_nat (count (fun c => Qleb c x) bins))
  else if nonincreasing bins
  then Ok (Z.of_nat (length bins) - Z.of_nat (count (fun c => Qleb c x) (rev bins)))
  else Raise (ValueError "bins must be monotonically increasing or decreasing").

(** [np.digitize(xs, bins)] on an array [xs]. *)
Definition digitize_all (xs : list Q) (bins : list Q) : result (list Z) :=
  if nondecreasing bins || nonincreasing bins
  then map_each (fun x => digitize x bins) xs
  else Raise (ValueError "bins must be monotonically increasing or decreasing").

Module Renewal.

Record t : Type := { n : Q; lim_f : Z; lim_x_zero : Z }.

Definition init (n : Q) : result t :=
  _ <- py_assert (Qltb 1 n) "" ;;
  Ok (if Qeqb n 2 then {| n := n; lim_f := 1413; lim_x_zero := 999998 |}
      else if Qeqb n 3 then {| n := n; lim_f := 180; lim_x_zero := 1412 |}
      else if Qeqb n 4 then {| n := n; lim_f := 68; lim_x_zero := 179 |}
      else if Qeqb n 5 then {| n := n; lim_f := 39; lim_x_zero := 67 |}
      else {| n := n; lim_f := 27; lim_x_zero := 38 |}).

Section Generate.

Context {NP : Numpy} {SP : ScipySpecial}.

(** Distribution function of the first gap. *)
Definition cdf_x_zero (self : t) (i : Q) : Q :=
  (1 - factorial (n self) / poch (i + 1) (n self) * (i + 1) / n self)%Q.

(** Distribution function of the later gaps. *)
Definition cdf_f (self : t) (i : Q) : Q :=
  (1 - factorial (n self) / poch (i + 1) (n self))%Q.

(** [cdf(np.arange(lim))] *)
Definition table (cdf : Q -> Q) (lim : Z) : list Q :=
  map (fun i => cdf (inject_Z i)) (range 0 lim).

(** [int(np.isin(n, x_cumsum[:n]).item())] *)
Definition mark (x_cumsum : list Z) (k : Z) : Z :=
  if isin k (firstn (Z.to_nat k) x_cumsum) then 1 else 0.

(** The gaps: [x_zero] from the first sample, [x] from the others, and
    [np.append(x_zero, x)]. *)
Definition gaps (self : t) (uniform_sample : list Q) : result (list Z) :=
  u0 <- getitem uniform_sample 0 ;;
  x_zero <- digitize u0 (table (cdf_x_zero self) (lim_x_zero self)) ;;
  x <- digitize_all (skipn 1 uniform_sample) (table (cdf_f self) (lim_f self)) ;;
  Ok (x_zero :: x).

Definition generate (self : t) (N : Z) (seed : py_seed) (w : world)
  : result (list Z) * world :=
  let (rng, w') := default_rng seed w in
  (' (uniform_sample, _) <- rng_uniform 0 (999999 # 1000000) N rng ;;
   x <- gaps self uniform_sample ;;
   let x_cumsum := cumsum x in
   Ok (map (mark x_cumsum) (range 0 N)),
   w').

(** The arrival times [x_cumsum] that [generate] computes on its way. *)
Definition arrival_times (self : t) (N : Z) (seed : py_seed) (w : world)
  : result (list Z) :=
  ' (uniform_sample, _) <- rng_uniform 0 (999999 # 1000000) N (fst (default_rng seed w)) ;;
  x <- gaps self uniform_sample ;;
  Ok (cumsum x).

End Generate.

End Renewal.

(** The closed-form sampler for [n = 3] ([class _Renewal]). *)
Module _Renewal.

Section Generate.

Context {NP : Numpy} {NM : NumpyMath}.

(** Inverse distribution function of the first gap. *)
Definition _inverse_cdf_x_zero (j : Q) : Z :=
  Qceiling ((-5 * j - np_sqrt ((j - 9) * (j - 1)) + 5) / (2 * (j - 1)))%Q.

(** Inverse distribution function of the later gaps. *)
Definition _inverse_cdf_f (j : Q) : Z :=
  let t := np_sqrt (-3 + 729 / ((j - 1) * (j - 1)))%Q in
  Qceiling (-2
            - np_cbrt (t / 9 + 3 / (j - 1))
            - np_cbrt ((j - 1) / (3 * t * (j - 1) + 81)))%Q.

(** The gaps: [x_zero] and [np.append(x_zero, ...)]. *)
Definition gaps (uniform_sample : list Q) : result (list Z) :=
  u0 <- getitem uniform_sample 0 ;;
  let x_zero := _inverse_cdf_x_zero u0 in
  Ok (x_zero :: map _inverse_cdf_f (skipn 1 uniform_sample)).

Definition generate (N : Z) (seed : py_seed) (w : world) : result (list Z) * world :=
  let (rng, w') := default_rng seed w in
  (' (uniform_sample, _) <- rng_uniform 0 (999999 # 1000000) N rng ;;
   x <- gaps uniform_sample ;;
   let x_cumsum := cumsum x in
   Ok (map (fun k => if isin k x_cumsum then 1 else 0) (range 0 N)),
   w').

(** The arrival times [x_cumsum] that [generate] computes on its way. *)
Definition arrival_times (N : Z) (seed : py_seed) (w : world) : result (list Z) :=
  ' (uniform_sample, _) <- rng_uniform 0 (999999 # 1000000) N (fst (default_rng seed w)) ;;
  x <- gaps uniform_sample ;;
  Ok (cumsum x).

End Generate.

End _Renewal.

(** ** SequentialSplit *)

Fixpoint Zsum (l : list Z) : Z :=
  match l with
  | [] => 0
  | x :: t => x + Zsum t
  end.

(** [l[a:b]]: a negative bound counts from the end, and both bounds are
    clamped to [0, len(l)]. *)
Definition slice_bound (len : nat) (i : Z) : nat :=
  let n := Z.of_nat len in
  Z.to_nat (if i <? 0 then Z.max (i + n) 0 else Z.min i n).

Definition py_slice {A : Type} (l : list A) (a b : Z) : list A :=
  let lo := slice_bound (length l) a in
  let hi := slice_bound (length l) b in
  firstn (hi - lo) (skipn lo l).

Module SequentialSplit.

Record t : Type := { sizes : list Z; show_progress : bool }.

Definition init (sizes : list Z) (show_progress : bool) : t :=
  {| sizes := sizes; show_progress := show_progress |}.

(** The partitions [split(X)] yields, in the order it yields them.  The
    progress bar ([trange]) iterates over the same offsets as [range]. *)
Definition split {A : Type} (self : t) (X : list A) : list (list (list Z)) :=
  let indices := range 0 (Z.of_nat (length X)) in
  let n_splits := Z.of_nat (length indices) - Zsum (sizes self) + 1 in
  map (fun t =>
         map (fun j =>
                py_slice indices
                  (t + Zsum (py_slice (sizes self) 0 j))
                  (t + Zsum (py_slice (sizes self) 0 (j + 1))))
             (range 0 (Z.of_nat (length (sizes self)))))
      (if show_progress self then range 0 n_splits else range 0 n_splits).

End SequentialSplit.

(** ** Data frames *)

(** [str(z)] for an integer. *)
Definition str_of_int (z : Z) : string := NilZero.string_of_int (Z.to_int z).

Module DataFrame.

(** A cell holds a number or is undefined (NaN). *)
Definition cell : Type := option Q.

Record t : Type := { index : list Z; columns : list (string * list cell) }.

Definition nrows (df : t) : nat := length (index df).

(** [pd.DataFrame(values, columns=[name])] *)
Definition of_sequence (values : list Q) (name : string) : t :=
  {| index := range 0 (Z.of_nat (length values));
     columns := [(name, map Some values)] |}.

(** [df[name]] *)
Definition get_column (df : t) (name : string) : result (list cell) :=
  match find (fun c => String.eqb (fst c) name) (columns df) with
  | Some c => Ok (snd c)
  | None => Raise (KeyError name)
  end.

(** [df[name] = values]: an existing column is replaced in place, a new
    one is appended. *)
Fixpoint assign (cols : list (string * list cell)) (name : string) (values : list cell)
  : list (string * list cell) :=
  match cols with
  | [] => [(name, values)]
  | c :: cs => if String.eqb (fst c) name then (name, values) :: cs
               else c :: assign cs name values
  end.

Definition set_column (df : t) (name : string) (values : list cell) : t :=
  {| index := index df; columns := assign (columns df) name values |}.

(** [series.shift(periods)]: position [i] receives the value of position
    [i - periods], or NaN when there is none. *)
Definition shift (periods : Z) (col : list cell) : list cell :=
  map (fun i => let j := Z.of_nat i - periods in
                if j <? 0 then None
                else match nth_error col (Z.to_nat j) with
                     | Some c => c
                     | None => None
                     end)
      (seq 0 (length col)).

Definition defined (c : cell) : bool :=
  match c with Some _ => true | None => false end.

(** The rows [dropna] keeps: those with no undefined cell. *)
Definition complete_rows (df : t) : list bool :=
  map (fun i => forallb (fun c => defined (nth i (snd c) None)) (columns df))
      (seq 0 (nrows df)).

Fixpoint select {A : Type} (mask : list bool) (l : list A) : list A :=
  match mask, l with
  | m :: ms, x :: xs => if m then x :: select ms xs else select ms xs
  | _, _ => []
  end.

(** [df.dropna(axis=0)] *)
Definition dropna (df : t) : t :=
  let keep := complete_rows df in
  {| index := select keep (index df);
     columns := map (fun c => (fst c, select keep (snd c))) (columns df) |}.

(** [df.reset_index(drop=True)] *)
Definition reset_index (df : t) : t :=
  {| index := range 0 (Z.of_nat (nrows df)); columns := columns df |}.

End DataFrame.

(** ** get_data *)

Definition leakage_message : string :=
  "A gap less than 1 would constitute data leakage and is not allowed.".

Definition ignored_gap_message : string :=
  "Warning: No target variable was passed, but a gap was given. Gap will be ignored.".

(** Truth value of a string: non-empty. *)
Definition nonempty (s : string) : bool :=
  match s with EmptyString => false | _ => true end.

Section GetData.

(** [pd.read_csv(path, index_col="datetime", parse_dates=["datetime"])]:
    the file system's answer, a frame or the detail of the exception raised
    inside pandas. *)
Variable read_csv : string -> string + DataFrame.t.

(** The warnings emitted, then the outcome. *)
Definition get_data (target : string) (target_gap maxlags year : Z)
  : list string * result DataFrame.t :=
  if nonempty target && (target_gap <? 1)
  then ([], Raise (ValueError leakage_message))
  else
    (if negb (nonempty target) && negb (target_gap =? 0)
     then [ignored_gap_message] else [],
     df <- match read_csv ("data/processed/df-" ++ target ++ "-" ++ str_of_int year
                           ++ "-maxlags_" ++ str_of_int maxlags ++ ".csv") with
           | inl detail => Raise (ExternalError detail)
           | inr df => Ok df
           end ;;
     df <- (if nonempty target
            then col <- DataFrame.get_column df target ;;
                 Ok (DataFrame.set_column df "target" (DataFrame.shift (- target_gap) col))
            else Ok df) ;;
     Ok (DataFrame.dropna df)).

End GetData.

(** ** get_synthetic *)

(** A keyword argument's value ([int | float]). *)
Inductive pyval : Type :=
| PyInt (z : Z)
| PyFloat (q : Q).

Definition as_float (v : pyval) : Q :=
  match v with
  | PyInt z => inject_Z z
  | PyFloat q => q
  end.

(** An integer where NumPy needs one ([np.eye] refuses a float, with
    [TypeError]). *)
Definition as_index (v : pyval) : result Z :=
  match v with
  | PyInt z => Ok z
  | PyFloat _ => Raise (TypeError "'float' object cannot be interpreted as an integer")
  end.

Definition lookup_kw (kwargs : list (string * pyval)) (name : string) : option pyval :=
  option_map snd (find (fun kv => String.eqb (fst kv) name) kwargs).

(** Binding [**kwargs] to the parameters [names] of a constructor: every
    keyword must be a parameter and every parameter must be given. *)
Definition bind_kwargs (names : list string) (kwargs : list (string * pyval))
  : result (list pyval) :=
  if negb (forallb (fun kv => existsb (String.eqb (fst kv)) names) kwargs)
  then Raise (TypeError "got an unexpected keyword argument")
  else map_each (fun name => match lookup_kw kwargs name with
                             | Some v => Ok v
                             | None => Raise (TypeError "missing a required argument")
                             end) names.

(** [sp: AR1 | CycleRandomWalk | Renewal | TwoStateMarkovChain] *)
Inductive process : Type :=
| OfAR1 (sp : AR1.t)
| OfCycleRandomWalk (sp : CycleRandomWalk.t)
| OfRenewal (sp : Renewal.t)
| OfTwoStateMarkovChain (sp : TwoStateMarkovChain.t).

(** The [if / elif] chain that initialises the stochastic process class. *)
Definition make_process (stochastic_process : string) (kwargs : list (string * pyval))
  : result process :=
  if String.eqb stochastic_process "ar1" then
    args <- bind_kwargs ["phi"%string] kwargs ;;
    match args with
    | [phi] => sp <- AR1.init (as_float phi) ;; Ok (OfAR1 sp)
    | _ => Raise (TypeError "missing a required argument")
    end
  else if String.eqb stochastic_process "cycle_random_walk" then
    args <- bind_kwargs ["b"; "s"; "f"; "vertices"]%string kwargs ;;
    match args with
    | [b; s; f; vertices] =>
        (* the assertions on the probabilities come before [np.eye] is
           handed [vertices] *)
        _ <- CycleRandomWalk.check_probabilities (as_float b) (as_float s) (as_float f) ;;
        v <- as_index vertices ;;
        sp <- CycleRandomWalk.init (as_float b) (as_float s) (as_float f) v ;;
        Ok (OfCycleRandomWalk sp)
    | _ => Raise (TypeError "missing a required argument")
    end
  else if String.eqb stochastic_process "renewal" then
    args <- bind_kwargs ["n"%string] kwargs ;;
    match args with
    | [n] => sp <- Renewal.init (as_float n) ;; Ok (OfRenewal sp)
    | _ => Raise (TypeError "missing a required argument")
    end
  else if String.eqb stochastic_process "two_state_markov_chain" then
    args <- bind_kwargs ["p"; "q"]%string kwargs ;;
    match args with
    | [p; q] => sp <- TwoStateMarkovChain.init (as_float p) (as_float q) ;;
                Ok (OfTwoStateMarkovChain sp)
    | _ => Raise (TypeError "missing a required argument")
    end
  else Raise (ValueError ("Stochastic process " ++ stochastic_process ++ " is not available.")).

(** [match stochastic_process: case "cycle_random_walk" | "renewal" |
    "two_state_markov_chain"] *)
Definition is_discrete (stochastic_process : string) : bool :=
  String.eqb stochastic_process "cycle_random_walk"
  || String.eqb stochastic_process "renewal"
  || String.eqb stochastic_process "two_state_markov_chain".

Section GetSynthetic.

Context {NP : Numpy} {SP : ScipySpecial}.

Definition as_floats (r : result (list Z) * world) : result (list Q) * world :=
  (xs <- fst r ;; Ok (map inject_Z xs), snd r).

(** [sp.generate(N=N, seed=seed)] *)
Definition generate_process (sp : process) (N : Z) (seed : py_seed) (w : world)
  : result (list Q) * world :=
  match sp with
  | OfAR1 sp => AR1.generate sp N seed w
  | OfCycleRandomWalk sp => as_floats (CycleRandomWalk.generate sp N seed w)
  | OfRenewal sp => as_floats (Renewal.generate sp N seed w)
  | OfTwoStateMarkovChain sp => as_floats (TwoStateMarkovChain.generate sp N seed w)
  end.

(** The small gaussian noise added to discrete sequences. *)
Definition add_noise (stochastic_process : string) (sequence : list Q)
  (seed : py_seed) (w : world) : result (list Q) * world :=
  if is_discrete stochastic_process
  then let (rng, w') := default_rng seed w in
       (' (noisy, _) <- rng_normal sequence (1 # 1000000) rng ;; Ok noisy, w')
  else (Ok sequence, w).

(** [df[f"value_lag_{lag}"] = df["value"].shift(lag)] *)
Definition add_lag (lag : Z) (df : DataFrame.t) : result DataFrame.t :=
  value <- DataFrame.get_column df "value" ;;
  Ok (DataFrame.set_column df ("value_lag_" ++ str_of_int lag)
        (DataFrame.shift lag value)).

(** The frame built from the (noisy) sequence. *)
Definition assemble (sequence : list Q) (N lags : Z) : result DataFrame.t :=
  let df := DataFrame.of_sequence sequence "value" in
  df <- for_each (range 1 (lags + 1)) add_lag df ;;
  value <- DataFrame.get_column df "value" ;;
  let df := DataFrame.set_column df "target" (DataFrame.shift (-1) value) in
  let df := DataFrame.reset_index (DataFrame.dropna df) in
  _ <- py_assert (Z.of_nat (DataFrame.nrows df) =? N) "" ;;
  Ok df.

Definition get_synthetic (stochastic_process : string) (N lags : Z) (seed : py_seed)
  (kwargs : list (string * pyval)) (w : world) : result DataFrame.t * world :=
  match make_process stochastic_process kwargs with
  | Raise e => (Raise e, w)
  | Ok sp =>
    let (generated, w1) := generate_process sp (N + lags + 1) seed w in
    match generated with
    | Raise e => (Raise e, w1)
    | Ok sequence =>
      let (noisy, w2) := add_noise stochastic_process sequence seed w1 in
      (sequence <- noisy ;; assemble sequence N lags, w2)
    end
  end.

End GetSynthetic.

(** ** Definitions used to state the properties *)

(** *** AR1 *)

(** The autoregressive recursion on a list of innovations, written as a
    function: each value is [phi] times the previous value plus its own
    innovation. *)
Fixpoint ar1_from (phi prev : Q) (es : list Q) : list Q :=
  match es with
  | [] => []
  | e :: t => let x := (phi * prev + e)%Q in x :: ar1_from phi x t
  end.

Definition ar1_path (phi : Q) (es : list Q) : list Q :=
  match es with
  | [] => []
  | e0 :: t => e0 :: ar1_from phi e0 t
  end.

(** *** TwoStateMarkovChain *)

(** A state of the chain. *)
Definition bit (x : Z) : Prop := x = 0 \/ x = 1.

Section Chain.

Context {NP : Numpy}.

(** The chain as a function of the previous state: [k] further states,
    each drawn with the success probability [P[prev, 1]]. *)
Fixpoint chain (self : TwoStateMarkovChain.t) (prev : Z) (k : nat) (g : bitgen)
  : result (list Z * bitgen) :=
  match k with
  | O => Ok ([], g)
  | S k' =>
    p <- getitem2 (TwoStateMarkovChain.P self) prev 1 ;;
    ' (x, g') <- rng_binomial1 p g ;;
    ' (rest, g'') <- chain self x k' g' ;;
    Ok (x :: rest, g'')
  end.

(** What [generate] returns, with no reference to the memory [np.empty]
    hands out: the outcome is a function of the instance, [N] and the
    generator alone. *)
Definition TwoState_outcome (self : TwoStateMarkovChain.t) (N : Z) (g : bitgen)
  : result (list Z) :=
  size <- np_size N ;;
  p0 <- getitem (TwoStateMarkovChain.pi self) 1 ;;
  ' (x0, g1) <- rng_binomial1 p0 g ;;
  match size with
  | O => Raise IndexError
  | S k =>
    ' (rest, _) <- chain self x0 k g1 ;;
    _ <- py_assert (forallb (fun x => isin x [0; 1]) (x0 :: rest)) "" ;;
    Ok (x0 :: rest)
  end.

End Chain.

(** *** CycleRandomWalk *)

(** The cell of a matrix, 0 outside of it. *)
Definition entry (M : list (list Q)) (i j : nat) : Q := nth j (nth i M []) 0%Q.

(** The indicator of [j = a]. *)
Definition ind (j a : nat) : Q := if Nat.eqb j a then 1%Q else 0%Q.

(** In a cycle of [n] vertices, the vertex before and the vertex after [i]. *)
Definition before (n i : nat) : nat := match i with O => (n - 1)%nat | S k => k end.
Definition after (n i : nat) : nat := if Nat.eqb (S i) n then 0%nat else S i.

(** The sum of the three scaled diagonals, cell by cell. *)
Definition band (b s f : Q) (i j : nat) : Q :=
  ((if Z.of_nat j =? Z.of_nat i + -1 then 1 else 0) * b
   + (if Z.of_nat j =? Z.of_nat i + 0 then 1 else 0) * s
   + (if Z.of_nat j =? Z.of_nat i + 1 then 1 else 0) * f)%Q.

(** The matrix after the two wrap-around assignments. *)
Definition wrapped (n : nat) (b s f : Q) : list (list Q) :=
  let P0 := map (fun i => map (band b s f i) (seq 0 n)) (seq 0 n) in
  let P1 := update 0 (update (n - 1) b (nth 0 P0 [])) P0 in
  update (n - 1) (update 0 f (nth (n - 1) P1 [])) P1.

(** *** get_data *)

(** A file system with one file, used to run [get_data]. *)
Definition one_file (path : string) : string + DataFrame.t :=
  if String.eqb path "data/processed/df--2020-maxlags_3.csv"
  then inr {| DataFrame.index := [10; 20; 30];
              DataFrame.columns := [("x"%string, [Some 1%Q; None; Some 3%Q])] |}
  else inl "No such file or directory"%string.

(** *** get_synthetic *)






(** *** Distributions *)

(** A probability. *)
Definition probability (x : Q) : Prop := (0 <= x <= 1)%Q.

(** Entry [j] of the row vector [v M]. *)
Definition vec_mat (v : list Q) (M : list (list Q)) (j : nat) : Q :=
  Qsum (map (fun i => nth i v 0 * entry M i j)%Q (seq 0 (length v))).

(** The sum of column [j] of a matrix. *)
Definition col_sum (M : list (list Q)) (j : nat) : Q :=
  Qsum (map (fun i => entry M i j) (seq 0 (length M))).

(** *** get_data *)

(** A file system in which every path holds the same table. *)
Definition sample_file (path : string) : string + DataFrame.t :=
  inr {| DataFrame.index := [10; 20; 30; 40];
         DataFrame.columns :=
           [("x"%string, [Some 1%Q; Some 2%Q; None; Some 4%Q]);
            ("y"%string, [Some 5%Q; Some 6%Q; Some 7%Q; Some 8%Q])] |}.

(** *** The two-state chain, by its transition probabilities *)

Section Markov.

Context {NP : Numpy}.

(** [k] further states after [prev]: from state 0 the next state is 1 with
    probability [p], from state 1 it is 1 with probability [1 - q]. *)
Fixpoint markov_path (p q : Q) (prev : Z) (k : nat) (g : bitgen) : list Z :=
  match k with
  | O => []
  | S k' =>
    let (x, g') := next_binomial1 (if prev =? 0 then p else 1 - q)%Q g in
    x :: markov_path p q x k' g'
  end.

End Markov.

(** ** A small executable implementation of the library interfaces *)

Module Toy.

(** A linear congruential generator on 31 bits. *)
Definition lcg (g : Z) : Z := (g * 1103515245 + 12345) mod 2147483648.

(** The double a state yields: its three low decimal digits over 1000. *)
Definition unit_double (g : Z) : Q := (g mod 1000) # 1000.

Definition toy_binomial1 (p : Q) (g : Z) : Z * Z :=
  (if Qltb (unit_double g) p then 1 else 0, lcg g).

Definition toy_standard_normal (g : Z) : Q * Z :=
  ((g mod 2001 - 1000) # 500, lcg g).

Definition toy_double (g : Z) : Q * Z := (unit_double g, lcg g).

Definition toy_normal (loc scale : Q) (g : Z) : Q * Z :=
  ((loc + scale * fst (toy_standard_normal g))%Q, lcg g).

Definition toy_choice (a : list Z) (p : list Q) (g : Z) : Z * Z :=
  (nth (Z.to_nat (g mod Z.of_nat (length a))) a 0, lcg g).

(** The entropy pool is a counter; fresh memory holds the counter's value. *)
Definition toy_entropy (w : Z) : N * Z := (Z.to_N w, w + 1).

Definition toy_empty (w : Z) (size : nat) : list Z := repeat w size.

#[export] Instance numpy : Numpy.
Proof.
  refine {| bitgen := Z;
            world := Z;
            os_entropy := toy_entropy;
            seed_bitgen := Z.of_N;
            np_empty := toy_empty;
            next_binomial1 := toy_binomial1;
            next_standard_normal := toy_standard_normal;
            next_double := toy_double;
            next_normal := toy_normal;
            next_choice := toy_choice |}.
  - intros w size. apply repeat_length.
  - intros p g. unfold toy_binomial1. cbn [fst].
    destruct (Qltb (unit_double g) p); [right | left]; reflexivity.
Defined.

(** Square and cube roots to nine decimal places, exact on squares and
    cubes of rationals with small denominators. *)
Definition scale : Z := 1000000000.

Definition toy_sqrt (q : Q) : Q :=
  let q := Qred q in
  let a := Qnum q in
  let b := Zpos (Qden q) in
  Qred (Qmake (Z.sqrt (a * b * scale * scale)) (Z.to_pos (b * scale))).

(** Integer cube root of a non-negative integer by Newton's iteration,
    started above the root. *)
Fixpoint cbrt_newton (fuel : nat) (x n : Z) : Z :=
  match fuel with
  | O => x
  | S k =>
    let y := (2 * x + n / (x * x)) / 3 in
    if y <? x then cbrt_newton k y n else x
  end.

Definition Zcbrt (x : Z) : Z :=
  let n := Z.abs x in
  let r := if n =? 0 then 0 else cbrt_newton 200 (2 ^ (Z.log2 n / 3 + 1)) n in
  if x <? 0 then - r else r.

Definition toy_cbrt (q : Q) : Q :=
  let q := Qred q in
  let a := Qnum q in
  let b := Zpos (Qden q) in
  Qred (Qmake (Zcbrt (a * b * b * scale * scale * scale)) (Z.to_pos (b * scale))).

#[export] Instance numpy_math : NumpyMath :=
  {| np_sqrt := toy_sqrt; np_cbrt := toy_cbrt |}.

(** The rising product [a (a+1) ... (a+m-1)]; the symbol and the factorial
    are exact for a natural [n] (the integer part of [n] is used otherwise). *)
Fixpoint rising (a : Q) (m : nat) : Q :=
  match m with
  | O => 1%Q
  | S k => (a * rising (a + 1) k)%Q
  end.

Definition toy_poch (a n : Q) : Q := rising a (Z.to_nat (Qfloor n)).

Definition toy_factorial (n : Q) : Q := rising 1 (Z.to_nat (Qfloor n)).

Lemma rising_pos (m : nat) : forall a : Q, (0 < a -> 0 < rising a m)%Q.
Proof.
  induction m as [|m IH]; intros a Ha; cbn [rising].
  - reflexivity.
  - assert (0 < rising (a + 1) m)%Q by (apply IH; lra). nra.
Qed.

Lemma rising_mono (m : nat) :
  forall a a' : Q, (0 < a -> a <= a' -> rising a m <= rising a' m)%Q.
Proof.
  induction m as [|m IH]; intros a a' Ha Hle; cbn [rising].
  - apply Qle_refl.
  - assert (0 < rising (a + 1) m)%Q by (apply rising_pos; lra).
    assert (rising (a + 1) m <= rising (a' + 1) m)%Q by (apply IH; lra).
    nra.
Qed.

Lemma floor_of_decay (n : Q) : (1 < n)%Q -> exists m, Z.to_nat (Qfloor n) = S m.
Proof.
  intros Hn.
  assert (1 <= Qfloor n)%Z.
  { change 1%Z with (Qfloor 1). apply Qfloor_resp_le. lra. }
  exists (Z.to_nat (Qfloor n) - 1)%nat. lia.
Qed.

#[export] Instance scipy_special : ScipySpecial.
Proof.
  refine {| factorial := toy_factorial; poch := toy_poch |}.
  - intros n _. apply Qlt_le_weak, rising_pos. reflexivity.
  - intros a n Ha _. apply rising_pos, Ha.
  - intros a a' n Ha Hle _. now apply rising_mono.
  - intros a a' n Ha Hle Hn. unfold toy_poch.
    destruct (floor_of_decay n Hn) as [m ->]. cbn [rising].
    assert (0 < rising (a + 1) m)%Q by (apply rising_pos; lra).
    assert (Hle' : (rising (a + 1) m <= rising (a' + 1) m)%Q)
      by (apply rising_mono; lra).
    assert (Hprod : (0 <= a * a')%Q) by nra.
    setoid_replace (a' * (a * rising (a + 1) m))%Q
      with (rising (a + 1) m * (a * a'))%Q by ring.
    setoid_replace (a * (a' * rising (a' + 1) m))%Q
      with (rising (a' + 1) m * (a * a'))%Q by ring.
    apply Qmult_le_compat_r; assumption.
Defined.

End Toy.

(** * Properties *)

(** ** Renewal construction *)

(** C10.  Construction succeeds for every decay coefficient [n > 1],
    integer or not, and keeps [n]; whenever [n] is none of 2, 3, 4, 5 the
    truncation bounds are the fallback pair [lim_f = 27],
    [lim_x_zero = 38]. *)
Theorem Renewal_init_fallback_bounds (n : Q) :
  (1 < n)%Q ->
  exists self,
    Renewal.init n = Ok self /\
    Renewal.n self = n /\
    (~ (n == 2)%Q -> ~ (n == 3)%Q -> ~ (n == 4)%Q -> ~ (n == 5)%Q ->
     Renewal.lim_f self = 27 /\ Renewal.lim_x_zero self = 38).
Proof.
  intros Hn. unfold Renewal.init, py_assert, Qltb.
  destruct (Qle_bool n 1) eqn:Hle.
  - apply Qle_bool_iff in Hle. lra.
  - cbn [negb bind]. eexists. split; [reflexivity|]. split.
    + unfold Qeqb. repeat destruct (Qeq_bool n _); reflexivity.
    + intros H2 H3 H4 H5. unfold Qeqb.
      destruct (Qeq_bool n 2) eqn:E2; [apply Qeq_bool_iff in E2; contradiction|].
      destruct (Qeq_bool n 3) eqn:E3; [apply Qeq_bool_iff in E3; contradiction|].
      destruct (Qeq_bool n 4) eqn:E4; [apply Qeq_bool_iff in E4; contradiction|].
      destruct (Qeq_bool n 5) eqn:E5; [apply Qeq_bool_iff in E5; contradiction|].
      split; reflexivity.
Qed.

(** The fallback at the non-integer coefficient [n = 1.5]. *)
Lemma Renewal_init_fallback_bounds_at_three_halves :
  (1 < 3 # 2)%Q /\
  exists self,
    Renewal.init (3 # 2) = Ok self /\
    Renewal.n self = (3 # 2)%Q /\
    (~ (3 # 2 == 2)%Q -> ~ (3 # 2 == 3)%Q -> ~ (3 # 2 == 4)%Q -> ~ (3 # 2 == 5)%Q ->
     Renewal.lim_f self = 27 /\ Renewal.lim_x_zero self = 38).
Proof.
  split; [reflexivity|].
  apply (Renewal_init_fallback_bounds (3 # 2)). reflexivity.
Defined.

(** The table of exact keys: [2.0] selects the same bounds as [2]. *)
Example Renewal_init_exact_keys :
  Renewal.init 2 = Ok {| Renewal.n := 2; Renewal.lim_f := 1413; Renewal.lim_x_zero := 999998 |} /\
  Renewal.init (4 # 2) = Ok {| Renewal.n := 4 # 2; Renewal.lim_f := 1413; Renewal.lim_x_zero := 999998 |} /\
  Renewal.init 5 = Ok {| Renewal.n := 5; Renewal.lim_f := 39; Renewal.lim_x_zero := 67 |} /\
  Renewal.init (5 # 2) = Ok {| Renewal.n := 5 # 2; Renewal.lim_f := 27; Renewal.lim_x_zero := 38 |} /\
  Renewal.init 1 = Raise (AssertionError "").
Proof. repeat split; reflexivity. Qed.

(** ** get_data: the leakage guard and the ignored gap *)

Lemma nonempty_true_iff (s : string) : nonempty s = true <-> s <> EmptyString.
Proof.
  destruct s; cbn; split; intros H; congruence.
Qed.

(** C9.  [get_data] raises the data-leakage error exactly when the target
    name is non-empty and the gap is below 1.  With an empty target name and
    a non-zero gap it emits the one warning, and goes on to load and trim
    the file exactly as it does for gap 0: the gap is ignored. *)
Theorem get_data_leakage_guard
  (read_csv : string -> string + DataFrame.t) (target : string)
  (target_gap maxlags year : Z) :
  (snd (get_data read_csv target target_gap maxlags year)
     = Raise (ValueError leakage_message)
   <-> target <> EmptyString /\ target_gap < 1)
  /\
  (target = EmptyString -> target_gap <> 0 ->
   fst (get_data read_csv target target_gap maxlags year) = [ignored_gap_message] /\
   fst (get_data read_csv target 0 maxlags year) = [] /\
   snd (get_data read_csv target target_gap maxlags year)
     = snd (get_data read_csv target 0 maxlags year) /\
   snd (get_data read_csv target target_gap maxlags year)
     = match read_csv ("data/processed/df--" ++ str_of_int year
                       ++ "-maxlags_" ++ str_of_int maxlags ++ ".csv")%string with
       | inl detail => Raise (ExternalError detail)
       | inr df => Ok (DataFrame.dropna df)
       end).
Proof.
  split.
  - unfold get_data.
    destruct (nonempty target) eqn:Ht; destruct (target_gap <? 1) eqn:Hg; cbn [andb fst snd].
    + split; [intros _|reflexivity].
      split; [apply nonempty_true_iff, Ht | apply Z.ltb_lt, Hg].
    + split; [|intros [_ H]; apply Z.ltb_ge in Hg; lia].
      destruct (read_csv _) as [detail|df]; cbn [bind]; [intros H; discriminate H|].
      unfold DataFrame.get_column.
      destruct (find _ (DataFrame.columns df)); cbn [bind]; intros H; discriminate H.
    + split; [|intros [H _]; apply nonempty_true_iff in H; congruence].
      destruct (read_csv _) as [detail|df]; cbn [bind]; intros H; discriminate H.
    + split; [|intros [H _]; apply nonempty_true_iff in H; congruence].
      destruct (read_csv _) as [detail|df]; cbn [bind]; intros H; discriminate H.
  - intros -> Hgap. unfold get_data. cbn [nonempty andb negb fst snd].
    destruct (target_gap =? 0) eqn:Hz; [apply Z.eqb_eq in Hz; contradiction|].
    cbn [negb Z.eqb fst snd]. repeat split.
    destruct (read_csv _) as [detail|df]; reflexivity.
Qed.

(** [get_data("", 5, 3, 2020)]: one warning, then the trimmed frame. *)
Lemma get_data_leakage_guard_on_one_file :
  get_data one_file "" 5 3 2020
  = ([ignored_gap_message],
     Ok {| DataFrame.index := [10; 30];
           DataFrame.columns := [("x"%string, [Some 1%Q; Some 3%Q])] |})
  /\ snd (get_data one_file "" 5 3 2020) = snd (get_data one_file "" 0 3 2020).
Proof.
  split; [reflexivity|].
  apply (get_data_leakage_guard one_file "" 5 3 2020); [reflexivity | discriminate].
Defined.

(** [get_data("x", 0, ...)] fails with the data-leakage error, and a gap of
    1 passes the guard. *)
Example get_data_gap_examples :
  get_data one_file "x" 0 3 2020 = ([], Raise (ValueError leakage_message)) /\
  get_data one_file "x" 1 3 2020 = ([], Raise (ExternalError "No such file or directory")).
Proof. split; reflexivity. Qed.

(** ** Ranges and slices *)

Lemma range_length (lo hi : Z) : length (range lo hi) = Z.to_nat (hi - lo).
Proof. unfold range. now rewrite length_map, length_seq. Qed.

Lemma range_nth_error (lo hi : Z) (k : nat) :
  (k < Z.to_nat (hi - lo))%nat -> nth_error (range lo hi) k = Some (lo + Z.of_nat k).
Proof.
  intros Hk. unfold range.
  rewrite nth_error_map, nth_error_seq.
  destruct (Nat.ltb_spec k (Z.to_nat (hi - lo))); [reflexivity | lia].
Qed.

Lemma seq_offset (a len : nat) : seq a len = map (fun k => (a + k)%nat) (seq 0 len).
Proof.
  revert a. induction len as [|len IH]; intros a; cbn [seq map].
  - reflexivity.
  - rewrite Nat.add_0_r. f_equal.
    rewrite (IH (S a)), (IH 1%nat), map_map.
    apply map_ext. intros k. lia.
Qed.

Lemma firstn_seq_min (k a len : nat) : firstn k (seq a len) = seq a (Nat.min k len).
Proof.
  revert a len. induction k as [|k IH]; intros a [|len]; cbn [firstn seq Nat.min];
    try reflexivity.
  now rewrite IH.
Qed.

Lemma range_app (a b c : Z) : a <= b <= c -> range a b ++ range b c = range a c.
Proof.
  intros H. unfold range.
  replace (Z.to_nat (c - a)) with (Z.to_nat (b - a) + Z.to_nat (c - b))%nat by lia.
  rewrite seq_app, map_app. f_equal. cbn [Nat.add].
  rewrite (seq_offset (Z.to_nat (b - a))), map_map.
  apply map_ext. intros k. lia.
Qed.

Lemma slice_of_range (n a b : Z) :
  0 <= a <= b -> b <= n -> py_slice (range 0 n) a b = range a b.
Proof.
  intros Hab Hbn. unfold py_slice, slice_bound. rewrite range_length.
  destruct (Z.ltb_spec a 0); [lia|]. destruct (Z.ltb_spec b 0); [lia|].
  replace (Z.of_nat (Z.to_nat (n - 0))) with n by lia.
  rewrite (Z.min_l a n), (Z.min_l b n) by lia.
  unfold range. rewrite skipn_map, firstn_map, skipn_seq, firstn_seq_min.
  replace (Nat.min (Z.to_nat b - Z.to_nat a) (Z.to_nat (n - 0) - Z.to_nat a))
    with (Z.to_nat (b - a)) by lia.
  cbn [Nat.add]. rewrite (seq_offset (Z.to_nat a)), map_map.
  apply map_ext. intros k. lia.
Qed.

Lemma slice_prefix {A : Type} (l : list A) (j : nat) :
  py_slice l 0 (Z.of_nat j) = firstn j l.
Proof.
  unfold py_slice, slice_bound. cbn [Z.ltb Z.compare].
  destruct (Z.ltb_spec (Z.of_nat j) 0); [lia|].
  replace (Z.to_nat (Z.min 0 (Z.of_nat (length l)))) with 0%nat by lia.
  cbn [skipn]. rewrite Nat.sub_0_r.
  destruct (Nat.le_ge_cases j (length l)).
  - f_equal. lia.
  - rewrite !firstn_all2 by lia. reflexivity.
Qed.

Lemma Zsum_nonneg (l : list Z) : Forall (fun s => 0 <= s) l -> 0 <= Zsum l.
Proof. induction 1; cbn [Zsum]; lia. Qed.

Lemma Zsum_firstn_bounds (l : list Z) (j : nat) :
  Forall (fun s => 0 <= s) l ->
  0 <= Zsum (firstn j l) /\ Zsum (firstn j l) <= Zsum (firstn (S j) l)
  /\ Zsum (firstn (S j) l) <= Zsum l.
Proof.
  intros Hl. revert j. induction Hl as [|x l Hx Hl IH]; intros j.
  - rewrite !firstn_nil. cbn. lia.
  - destruct j as [|j].
    + cbn [firstn Zsum]. destruct l; cbn [firstn Zsum].
      * lia.
      * pose proof (Zsum_nonneg _ Hl) as H. cbn [Zsum] in H. lia.
    + specialize (IH j). rewrite !firstn_cons. cbn [Zsum]. lia.
Qed.

(** Consecutive ranges laid end to end. *)
Lemma concat_consecutive_ranges (t : Z) (sizes : list Z) (n : nat) :
  Forall (fun s => 0 <= s) sizes ->
  concat (map (fun j => range (t + Zsum (firstn j sizes)) (t + Zsum (firstn (S j) sizes)))
              (seq 0 n))
  = range t (t + Zsum (firstn n sizes)).
Proof.
  intros Hs. induction n as [|n IH].
  - cbn. unfold range. replace (t + 0 - t) with 0 by lia. reflexivity.
  - rewrite seq_S, map_app, concat_app, IH. cbn [map concat Nat.add].
    rewrite app_nil_r. apply range_app.
    pose proof (Zsum_firstn_bounds sizes n Hs). lia.
Qed.

(** ** SequentialSplit *)

(** C8.  For segment sizes (non-negative integers) that fit into [X],
    [split] yields [len(X) - sum(sizes) + 1] partitions, one per offset [t]
    from 0 to [len(X) - sum(sizes)].  Segment [j] of partition [t] is the
    run of indices from [t + sum(sizes[:j])] up to
    [t + sum(sizes[:j+1]) - 1]; laid end to end the segments are the run
    from [t] to [t + sum(sizes) - 1], so they are consecutive and do not
    overlap. *)
Theorem SequentialSplit_split_partitions {A : Type}
  (sizes : list Z) (show_progress : bool) (X : list A) :
  Forall (fun s => 0 <= s) sizes ->
  Zsum sizes <= Z.of_nat (length X) ->
  let parts := SequentialSplit.split (SequentialSplit.init sizes show_progress) X in
  Z.of_nat (length parts) = Z.of_nat (length X) - Zsum sizes + 1 /\
  forall t : nat,
    Z.of_nat t <= Z.of_nat (length X) - Zsum sizes ->
    exists part,
      nth_error parts t = Some part /\
      length part = length sizes /\
      (forall j, (j < length sizes)%nat ->
         nth_error part j
         = Some (range (Z.of_nat t + Zsum (firstn j sizes))
                       (Z.of_nat t + Zsum (firstn (S j) sizes)))) /\
      concat part = range (Z.of_nat t) (Z.of_nat t + Zsum sizes).
Proof.
  intros Hs Hfit parts. subst parts.
  unfold SequentialSplit.split, SequentialSplit.init.
  cbn [SequentialSplit.sizes SequentialSplit.show_progress].
  rewrite range_length.
  replace (if show_progress then _ else _)
    with (range 0 (Z.of_nat (Z.to_nat (Z.of_nat (length X) - 0)) - Zsum sizes + 1))
    by (destruct show_progress; reflexivity).
  replace (Z.of_nat (Z.to_nat (Z.of_nat (length X) - 0))) with (Z.of_nat (length X)) by lia.
  split.
  - rewrite length_map, range_length. lia.
  - intros t Ht.
    assert (Hseg : map (fun j =>
                py_slice (range 0 (Z.of_nat (length X)))
                  (Z.of_nat t + Zsum (py_slice sizes 0 j))
                  (Z.of_nat t + Zsum (py_slice sizes 0 (j + 1))))
              (range 0 (Z.of_nat (length sizes)))
            = map (fun j => range (Z.of_nat t + Zsum (firstn j sizes))
                                  (Z.of_nat t + Zsum (firstn (S j) sizes)))
                  (seq 0 (length sizes))).
    { unfold range at 2. rewrite map_map.
      replace (Z.to_nat (Z.of_nat (length sizes) - 0)) with (length sizes) by lia.
      apply map_ext. intros j. cbn [Z.add].
      replace (Z.of_nat j + 1) with (Z.of_nat (S j)) by lia.
      rewrite !slice_prefix.
      pose proof (Zsum_firstn_bounds sizes j Hs).
      apply slice_of_range; lia. }
    eexists. split; [|split; [|split]].
    + rewrite nth_error_map, range_nth_error by lia. cbn [option_map Z.add].
      rewrite Hseg. reflexivity.
    + now rewrite length_map, length_seq.
    + intros j Hj. rewrite nth_error_map, nth_error_seq.
      destruct (Nat.ltb_spec j (length sizes)); [reflexivity | lia].
    + rewrite concat_consecutive_ranges by assumption.
      rewrite firstn_all. reflexivity.
Qed.

(** The splitter on [sizes = (2, 1)] and five elements. *)
Lemma SequentialSplit_split_two_one :
  SequentialSplit.split (SequentialSplit.init [2; 1] true) [10; 20; 30; 40; 50]
  = [[[0; 1]; [2]]; [[1; 2]; [3]]; [[2; 3]; [4]]]
  /\ Z.of_nat (length (SequentialSplit.split (SequentialSplit.init [2; 1] true)
                         [10; 20; 30; 40; 50])) = 5 - 3 + 1.
Proof.
  split; [reflexivity|].
  apply (SequentialSplit_split_partitions [2; 1] true [10; 20; 30; 40; 50]).
  - repeat constructor; discriminate.
  - cbn. discriminate.
Defined.

(** ** Arrays: reading and writing in range *)

Lemma update_length {A : Type} (i : nat) (x : A) (l : list A) :
  length (update i x l) = length l.
Proof.
  revert i. induction l as [|h t IH]; intros [|i]; cbn [update length]; auto.
Qed.

Lemma update_app_at {A : Type} (pre : list A) (y x : A) (post : list A) :
  update (length pre) x (pre ++ y :: post) = pre ++ x :: post.
Proof.
  induction pre as [|h t IH]; cbn [update length app]; [reflexivity | now rewrite IH].
Qed.

Lemma py_index_in_range (len : nat) (i : Z) :
  0 <= i < Z.of_nat len -> py_index len i = Ok (Z.to_nat i).
Proof.
  intros H. unfold py_index.
  destruct (Z.leb_spec 0 i); [|lia]. destruct (Z.ltb_spec i (Z.of_nat len)); [|lia].
  reflexivity.
Qed.

Lemma getitem_in_range {A : Type} (l : list A) (i : Z) (x : A) :
  0 <= i -> nth_error l (Z.to_nat i) = Some x -> getitem l i = Ok x.
Proof.
  intros Hi Hx. unfold getitem.
  assert (Z.to_nat i < length l)%nat by (apply nth_error_Some; congruence).
  rewrite py_index_in_range by lia. cbn [bind]. now rewrite Hx.
Qed.

Lemma setitem_in_range {A : Type} (l : list A) (i : Z) (x : A) :
  0 <= i < Z.of_nat (length l) -> setitem l i x = Ok (update (Z.to_nat i) x l).
Proof.
  intros H. unfold setitem. now rewrite py_index_in_range.
Qed.


Section DrawLengths.

Context {NP : Numpy}.

Lemma draws_length {A : Type} (step : bitgen -> A * bitgen) (size : nat) (g : bitgen) :
  length (fst (draws step size g)) = size.
Proof.
  revert g. induction size as [|k IH]; intros g; cbn [draws].
  - reflexivity.
  - destruct (step g) as [x g']. specialize (IH g').
    destruct (draws step k g') as [xs g'']. cbn [fst length] in *. now rewrite IH.
Qed.


End DrawLengths.

(** ** AR1 *)

Lemma ar1_from_length (phi prev : Q) (es : list Q) :
  length (ar1_from phi prev es) = length es.
Proof.
  revert prev. induction es as [|e t IH]; intros prev; cbn [ar1_from length]; auto.
Qed.

Lemma ar1_from_recursion (phi : Q) (es : list Q) :
  forall (prev : Q) (i : nat),
    (i < length es)%nat ->
    exists x own,
      nth_error (prev :: ar1_from phi prev es) i = Some x /\
      nth_error es i = Some own /\
      nth_error (prev :: ar1_from phi prev es) (S i) = Some (phi * x + own)%Q.
Proof.
  induction es as [|e t IH]; intros prev i Hi; cbn [length] in Hi; [lia|].
  destruct i as [|i].
  - exists prev, e. cbn. repeat split.
  - destruct (IH (phi * prev + e)%Q i ltac:(lia)) as (x & own & Hx & Hown & Hnext).
    exists x, own. cbn [ar1_from nth_error] in *. auto.
Qed.

Section AR1_loop.

Context {NP : Numpy}.

(** The loop over the positions after [pre ++ [prev]] rewrites the tail by
    the recursion and leaves the head alone. *)
Lemma AR1_loop_from (self : AR1.t) (es : list Q) :
  forall (pre : list Q) (prev : Q),
    for_each (map (fun k => Z.of_nat (length pre) + 1 + Z.of_nat k) (seq 0 (length es)))
             (AR1.step self) (pre ++ prev :: es)
    = Ok (pre ++ prev :: ar1_from (AR1.phi self) prev es).
Proof.
  induction es as [|e t IH]; intros pre prev.
  - reflexivity.
  - cbn [length seq map for_each]. unfold AR1.step at 1.
    rewrite (getitem_in_range _ _ prev);
      [| lia | replace (Z.to_nat _) with (length pre) by lia;
               now rewrite nth_error_app2, Nat.sub_diag by lia].
    cbn [bind].
    rewrite (getitem_in_range _ _ e);
      [| lia | replace (Z.to_nat _) with (S (length pre)) by lia;
               rewrite nth_error_app2 by lia;
               replace (S (length pre) - length pre)%nat with 1%nat by lia;
               reflexivity].
    cbn [bind].
    rewrite setitem_in_range by (rewrite length_app; cbn [length]; lia).
    cbn [bind].
    replace (Z.to_nat (Z.of_nat (length pre) + 1 + Z.of_nat 0))
      with (length (pre ++ [prev])) by (rewrite length_app; cbn [length]; lia).
    replace (pre ++ prev :: e :: t) with ((pre ++ [prev]) ++ e :: t)
      by (now rewrite <- app_assoc).
    rewrite update_app_at.
    rewrite <- seq_shift, map_map.
    cbn [ar1_from].
    replace (pre ++ prev :: (AR1.phi self * prev + e)%Q
                 :: ar1_from (AR1.phi self) (AR1.phi self * prev + e) t)
      with ((pre ++ [prev]) ++ (AR1.phi self * prev + e)%Q
                 :: ar1_from (AR1.phi self) (AR1.phi self * prev + e) t)
      by (now rewrite <- app_assoc).
    rewrite <- IH. f_equal. apply map_ext. intros k.
    rewrite length_app. cbn [length]. lia.
Qed.

Lemma AR1_generate_path (self : AR1.t) (N : Z) (seed : py_seed) (w : world) :
  0 <= N ->
  fst (AR1.generate self N seed w)
  = Ok (ar1_path (AR1.phi self)
          (fst (draws next_standard_normal (Z.to_nat N) (fst (default_rng seed w))))).
Proof.
  intros HN. unfold AR1.generate, rng_standard_normal, np_size.
  destruct (default_rng seed w) as [rng w']. cbn [fst].
  destruct (Z.ltb_spec N 0); [lia|]. cbn [bind].
  pose proof (draws_length next_standard_normal (Z.to_nat N) rng) as Hlen.
  destruct (draws next_standard_normal (Z.to_nat N) rng) as [es g]. cbn [fst] in *.
  destruct es as [|e0 t].
  - cbn [length] in Hlen. unfold range.
    replace (Z.to_nat (N - 1)) with 0%nat by lia. reflexivity.
  - cbn [length] in Hlen. unfold range, ar1_path.
    replace (Z.to_nat (N - 1)) with (length t) by lia.
    apply (AR1_loop_from self t [] e0).
Qed.

End AR1_loop.

(** C6.  [AR1(phi).generate(N, seed)] returns [N] values: the first is the
    first standard-normal draw [e_0] of the seeded generator, and each later
    value is [phi] times the value before it plus its own draw [e_i]. *)
Theorem AR1_generate_recursion {NP : Numpy}
  (phi : Q) (self : AR1.t) (N : Z) (seed : py_seed) (w : world) :
  AR1.init phi = Ok self ->
  1 <= N ->
  let e := fst (draws next_standard_normal (Z.to_nat N) (fst (default_rng seed w))) in
  exists out,
    fst (AR1.generate self N seed w) = Ok out /\
    Z.of_nat (length out) = N /\
    Z.of_nat (length e) = N /\
    nth_error out 0 = nth_error e 0 /\
    forall i, (1 <= i)%nat -> Z.of_nat i < N ->
      exists prev own,
        nth_error out (i - 1) = Some prev /\
        nth_error e i = Some own /\
        nth_error out i = Some (phi * prev + own)%Q.
Proof.
  intros Hinit HN e. injection Hinit as <-. cbn [AR1.phi].
  pose proof (draws_length next_standard_normal (Z.to_nat N) (fst (default_rng seed w)))
    as Hlen.
  fold e in Hlen.
  exists (ar1_path phi e). split.
  - rewrite AR1_generate_path by lia. reflexivity.
  - destruct e as [|e0 t]; cbn [length] in Hlen; [lia|].
    cbn [ar1_path length]. rewrite ar1_from_length.
    repeat split; try lia.
    intros i Hi HiN. destruct i as [|i]; [lia|].
    cbn [Nat.sub]. rewrite Nat.sub_0_r.
    destruct (ar1_from_recursion phi t e0 i ltac:(lia)) as (x & own & Hx & Hown & Hnext).
    exists x, own. cbn [nth_error] in *. auto.
Qed.

(** [AR1(0.5).generate(4, seed=5)] on the small generator. *)
Lemma AR1_generate_recursion_four :
  (AR1.init (1 # 2) = Ok {| AR1.phi := 1 # 2 |} /\ 1 <= 4) /\
  exists out,
    fst (@AR1.generate Toy.numpy {| AR1.phi := 1 # 2 |} 4 (Some 5%N) 7) = Ok out /\
    Z.of_nat (length out) = 4 /\
    nth_error out 0 = Some (-995 # 500)%Q.
Proof.
  split; [split; [reflexivity | lia]|].
  destruct (@AR1_generate_recursion Toy.numpy (1 # 2) {| AR1.phi := 1 # 2 |}
              4 (Some 5%N) 7 eq_refl ltac:(lia))
    as (out & Hgen & Hlen & _ & Hhead & _).
  exists out. exact (conj Hgen (conj Hlen Hhead)).
Defined.

(** ** TwoStateMarkovChain *)

Section TwoState_loop.

Context {NP : Numpy}.

(** The loop fills the cells after [pre ++ [prev]] with the chain, whatever
    they held before. *)
Lemma TwoState_loop_from (self : TwoStateMarkovChain.t) (old : list Z) :
  forall (pre : list Z) (prev : Z) (g : bitgen),
    for_each (map (fun k => Z.of_nat (length pre) + 1 + Z.of_nat k) (seq 0 (length old)))
             (TwoStateMarkovChain.step self) (pre ++ prev :: old, g)
    = (' (rest, g') <- chain self prev (length old) g ;; Ok (pre ++ prev :: rest, g')).
Proof.
  induction old as [|o t IH]; intros pre prev g.
  - reflexivity.
  - cbn [length seq map for_each chain]. unfold TwoStateMarkovChain.step at 1.
    rewrite (getitem_in_range _ _ prev);
      [| lia | replace (Z.to_nat _) with (length pre) by lia;
               now rewrite nth_error_app2, Nat.sub_diag by lia].
    cbn [bind].
    destruct (getitem2 (TwoStateMarkovChain.P self) prev 1) as [p|err]; cbn [bind];
      [|reflexivity].
    destruct (rng_binomial1 p g) as [[x g']|err]; cbn [bind]; [|reflexivity].
    rewrite setitem_in_range by (rewrite length_app; cbn [length]; lia).
    cbn [bind].
    replace (Z.to_nat (Z.of_nat (length pre) + 1 + Z.of_nat 0))
      with (length (pre ++ [prev])) by (rewrite length_app; cbn [length]; lia).
    replace (pre ++ prev :: o :: t) with ((pre ++ [prev]) ++ o :: t)
      by (now rewrite <- app_assoc).
    rewrite update_app_at.
    rewrite <- seq_shift, map_map.
    specialize (IH (pre ++ [prev]) x g').
    replace (map (fun k => Z.of_nat (length pre) + 1 + Z.of_nat (S k)) (seq 0 (length t)))
      with (map (fun k => Z.of_nat (length (pre ++ [prev])) + 1 + Z.of_nat k)
                (seq 0 (length t)))
      by (apply map_ext; intros k; rewrite length_app; cbn [length]; lia).
    rewrite IH.
    destruct (chain self x (length t) g') as [[rest g'']|err]; cbn [bind];
      [|reflexivity].
    now rewrite <- app_assoc.
Qed.

Lemma TwoState_generate_outcome (self : TwoStateMarkovChain.t) (N : Z)
  (seed : py_seed) (w : world) :
  TwoStateMarkovChain.generate self N seed w
  = (TwoState_outcome self N (fst (default_rng seed w)), snd (default_rng seed w)).
Proof.
  unfold TwoStateMarkovChain.generate, TwoState_outcome.
  destruct (default_rng seed w) as [rng w']. cbn [fst snd]. f_equal.
  unfold np_size. destruct (Z.ltb_spec N 0) as [Hneg|Hpos]; [reflexivity|].
  cbn [bind].
  destruct (getitem (TwoStateMarkovChain.pi self) 1) as [p0|err]; cbn [bind];
    [|reflexivity].
  destruct (rng_binomial1 p0 rng) as [[x0 g1]|err]; cbn [bind]; [|reflexivity].
  pose proof (np_empty_length w' (Z.to_nat N)) as Hlen.
  destruct (np_empty w' (Z.to_nat N)) as [|o old]; cbn [length] in Hlen.
  - rewrite <- Hlen. reflexivity.
  - rewrite <- Hlen. unfold setitem, py_index. cbn [length].
    destruct (Z.ltb_spec 0 (Z.of_nat (S (length old)))); [|lia].
    cbn [Z.leb Z.compare andb bind Z.to_nat update].
    unfold range. replace (Z.to_nat (N - 1)) with (length old) by lia.
    pose proof (TwoState_loop_from self old [] x0 g1) as Hloop.
    change (for_each (map (fun k => 1 + Z.of_nat k) (seq 0 (length old)))
                     (TwoStateMarkovChain.step self) (x0 :: old, g1)
            = (' (rest, g') <- chain self x0 (length old) g1 ;; Ok (x0 :: rest, g')))
      in Hloop.
    rewrite Hloop.
    destruct (chain self x0 (length old) g1) as [[rest g']|err]; reflexivity.
Qed.

End TwoState_loop.

Lemma Qleb_true (x y : Q) : Qleb x y = true <-> (x <= y)%Q.
Proof. apply Qle_bool_iff. Qed.

Lemma Qltb_true (x y : Q) : Qltb x y = true <-> (x < y)%Q.
Proof.
  unfold Qltb. rewrite negb_true_iff. split; intros H.
  - apply Qnot_le_lt. intros Hle. apply Qle_bool_iff in Hle. congruence.
  - destruct (Qle_bool y x) eqn:E; [|reflexivity].
    apply Qle_bool_iff in E. lra.
Qed.

Lemma Qeqb_true (x y : Q) : Qeqb x y = true <-> (x == y)%Q.
Proof. apply Qeq_bool_iff. Qed.

(** What a successful construction establishes. *)
Lemma TwoState_init_inv (p q : Q) (self : TwoStateMarkovChain.t) :
  TwoStateMarkovChain.init p q = Ok self ->
  (0 <= p <= 1)%Q /\ (0 <= q <= 1)%Q /\ ~ (p + q == 0)%Q /\
  TwoStateMarkovChain.P self = [[1 - p; p]; [q; 1 - q]]%Q /\
  TwoStateMarkovChain.pi self = [q / (p + q); p / (p + q)]%Q.
Proof.
  unfold TwoStateMarkovChain.init, py_assert, py_div.
  destruct (Qleb 0 p && Qleb p 1) eqn:Hp; [|discriminate].
  destruct (Qleb 0 q && Qleb q 1) eqn:Hq; [|discriminate].
  cbn [bind].
  destruct (Qeqb (p + q) 0) eqn:Hz; [discriminate|]. cbn [bind].
  intros [= <-]. cbn.
  apply andb_true_iff in Hp as [Hp0 Hp1]. apply andb_true_iff in Hq as [Hq0 Hq1].
  apply Qleb_true in Hp0, Hp1, Hq0, Hq1.
  repeat split; try assumption.
  intros H. apply Qeqb_true in H. congruence.
Qed.

Lemma TwoState_init_ok (p q : Q) :
  (0 <= p <= 1)%Q -> (0 <= q <= 1)%Q -> ~ (p + q == 0)%Q ->
  TwoStateMarkovChain.init p q
  = Ok {| TwoStateMarkovChain.P := [[1 - p; p]; [q; 1 - q]]%Q;
          TwoStateMarkovChain.pi := [q / (p + q); p / (p + q)]%Q |}.
Proof.
  intros [Hp0 Hp1] [Hq0 Hq1] Hz.
  unfold TwoStateMarkovChain.init, py_assert, py_div.
  apply Qleb_true in Hp0, Hp1, Hq0, Hq1. rewrite Hp0, Hp1, Hq0, Hq1.
  cbn [andb bind].
  destruct (Qeqb (p + q) 0) eqn:E; [apply Qeqb_true in E; contradiction|].
  reflexivity.
Qed.

Lemma share_in_unit_interval (x y : Q) :
  (0 <= x)%Q -> (0 <= y)%Q -> ~ (x + y == 0)%Q -> (0 <= x / (x + y) <= 1)%Q.
Proof.
  intros Hx Hy Hz. assert (0 < x + y)%Q by lra. split.
  - apply Qle_shift_div_l; [assumption | lra].
  - apply Qle_shift_div_r; [assumption | lra].
Qed.

Section TwoState_valid.

Context {NP : Numpy}.

Lemma rng_binomial1_ok (p : Q) (g : bitgen) :
  (0 <= p <= 1)%Q ->
  exists x g', rng_binomial1 p g = Ok (x, g') /\ bit x.
Proof.
  intros [H0 H1]. unfold rng_binomial1.
  apply Qleb_true in H0, H1. rewrite H0, H1. cbn [andb].
  pose proof (next_binomial1_range p g) as Hr.
  destruct (next_binomial1 p g) as [x g']. exists x, g'. split; [reflexivity | exact Hr].
Qed.

Lemma chain_valid (p q : Q) (self : TwoStateMarkovChain.t) (k : nat) :
  TwoStateMarkovChain.init p q = Ok self ->
  forall (prev : Z) (g : bitgen),
    bit prev ->
    exists rest g', chain self prev k g = Ok (rest, g') /\
                    length rest = k /\ Forall bit rest.
Proof.
  intros Hinit. apply TwoState_init_inv in Hinit as (Hp & Hq & _ & HP & _).
  induction k as [|k IH]; intros prev g Hprev.
  - exists [], g. repeat split. constructor.
  - cbn [chain]. rewrite HP.
    assert (Hrow : exists r, getitem2 [[1 - p; p]; [q; 1 - q]]%Q prev 1 = Ok r
                             /\ (0 <= r <= 1)%Q).
    { destruct Hprev as [-> | ->]; [exists p | exists (1 - q)%Q];
        (split; [reflexivity | lra]). }
    destruct Hrow as (r & -> & Hr). cbn [bind].
    destruct (rng_binomial1_ok r g Hr) as (x & g' & -> & Hx). cbn [bind].
    destruct (IH x g' Hx) as (rest & g'' & -> & Hlen & Hall). cbn [bind].
    exists (x :: rest), g''. repeat split; [cbn; lia | now constructor].
Qed.

Lemma bits_pass_check (l : list Z) :
  Forall bit l -> forallb (fun x => isin x [0; 1]) l = true.
Proof.
  induction 1 as [|x l Hx _ IH]; [reflexivity|].
  cbn [forallb]. rewrite IH, andb_true_r.
  destruct Hx as [-> | ->]; reflexivity.
Qed.

(** Whenever construction succeeds, every [generate] with [N >= 1]
    returns [N] states, each 0 or 1. *)
Lemma TwoState_generate_valid (p q : Q) (self : TwoStateMarkovChain.t)
  (N : Z) (seed : py_seed) (w : world) :
  TwoStateMarkovChain.init p q = Ok self ->
  1 <= N ->
  exists states,
    TwoStateMarkovChain.generate self N seed w = (Ok states, snd (default_rng seed w)) /\
    Z.of_nat (length states) = N /\
    Forall bit states.
Proof.
  intros Hinit HN. rewrite TwoState_generate_outcome. unfold TwoState_outcome, np_size.
  destruct (Z.ltb_spec N 0); [lia|]. cbn [bind].
  pose proof (TwoState_init_inv _ _ _ Hinit) as (Hp & Hq & Hz & _ & Hpi).
  rewrite Hpi.
  change (getitem [(q / (p + q))%Q; (p / (p + q))%Q] 1) with (Ok (p / (p + q))%Q).
  cbn [bind].
  assert (Hshare : (0 <= p / (p + q) <= 1)%Q)
    by (apply share_in_unit_interval; tauto).
  destruct (rng_binomial1_ok (p / (p + q)) (fst (default_rng seed w)) Hshare)
    as (x0 & g1 & -> & Hx0).
  cbn [bind].
  destruct (Z.to_nat N) as [|k] eqn:Hk; [lia|].
  destruct (chain_valid p q self k Hinit x0 g1 Hx0) as (rest & g' & -> & Hlen & Hall).
  cbn [bind]. rewrite bits_pass_check by now constructor.
  cbn [py_assert bind].
  exists (x0 :: rest). repeat split; [cbn [length]; lia | now constructor].
Qed.

End TwoState_valid.

(** C3.  The constructor accepts [p = 0], [q = 0] as probabilities and then
    divides by [p + q]: construction raises [ZeroDivisionError], so no
    sequence is generated for this pair of valid probabilities. *)
Theorem TwoStateMarkovChain_init_zero_zero :
  ((0 <= 0 <= 1)%Q /\ (0 <= 0 <= 1)%Q) /\
  TwoStateMarkovChain.init 0 0 = Raise ZeroDivisionError.
Proof.
  split; [|reflexivity]. repeat split; discriminate.
Qed.

(** ** CycleRandomWalk: the transition matrix *)

Lemma nth_update {A : Type} (i j : nat) (x d : A) (l : list A) :
  nth j (update i x l) d
  = if Nat.eqb i j && Nat.ltb i (length l) then x else nth j l d.
Proof.
  revert i j. induction l as [|h t IH]; intros [|i] [|j]; cbn [update nth length];
    try reflexivity.
  - destruct (Nat.eqb _ _); reflexivity.
  - rewrite IH. reflexivity.
Qed.

Lemma nth_map_seq {A : Type} (g : nat -> A) (n j : nat) (d : A) :
  (j < n)%nat -> nth j (map g (seq 0 n)) d = g j.
Proof.
  intros Hj. rewrite (nth_indep _ d (g 0%nat)) by (now rewrite length_map, length_seq).
  rewrite (map_nth g (seq 0 n) 0%nat j), seq_nth by assumption. reflexivity.
Qed.

Lemma combine_map_same {A B C : Type} (g : A -> B) (h : A -> C) (l : list A) :
  combine (map g l) (map h l) = map (fun x => (g x, h x)) l.
Proof. induction l as [|x l IH]; cbn [map combine]; [reflexivity | now rewrite IH]. Qed.

Lemma row_add_map {A : Type} (g h : A -> Q) (l : list A) :
  row_add (map g l) (map h l) = map (fun x => (g x + h x)%Q) l.
Proof. unfold row_add. now rewrite combine_map_same, map_map. Qed.

Lemma mat_add_map {A : Type} (G H : A -> list Q) (l : list A) :
  mat_add (map G l) (map H l) = map (fun x => row_add (G x) (H x)) l.
Proof. unfold mat_add. now rewrite combine_map_same, map_map. Qed.

Lemma band_matrix (n : nat) (b s f : Q) :
  mat_add (mat_add (mat_scale (eye n (-1)) b) (mat_scale (eye n 0) s))
          (mat_scale (eye n 1) f)
  = map (fun i => map (band b s f i) (seq 0 n)) (seq 0 n).
Proof.
  unfold mat_scale, eye, eye_row. rewrite !map_map, !mat_add_map.
  apply map_ext. intros i. rewrite !map_map, !row_add_map. reflexivity.
Qed.

Lemma getitem_nth {A : Type} (l : list A) (k : nat) (d : A) :
  (k < length l)%nat -> getitem l (Z.of_nat k) = Ok (nth k l d).
Proof.
  intros Hk. apply getitem_in_range; [lia|].
  rewrite Nat2Z.id. now apply nth_error_nth'.
Qed.

Lemma getitem_last {A : Type} (l : list A) (d : A) :
  (1 <= length l)%nat -> getitem l (-1) = Ok (nth (length l - 1) l d).
Proof.
  intros Hl. unfold getitem, py_index.
  cbn [Z.leb Z.compare andb].
  destruct (Z.leb_spec (- Z.of_nat (length l)) (-1)); [|lia].
  cbn [Z.ltb Z.compare andb bind].
  replace (Z.to_nat (-1 + Z.of_nat (length l))) with (length l - 1)%nat by lia.
  rewrite (nth_error_nth' l d) by lia. reflexivity.
Qed.

Lemma setitem_last {A : Type} (l : list A) (x : A) :
  (1 <= length l)%nat -> setitem l (-1) x = Ok (update (length l - 1) x l).
Proof.
  intros Hl. unfold setitem, py_index.
  cbn [Z.leb Z.compare andb].
  destruct (Z.leb_spec (- Z.of_nat (length l)) (-1)); [|lia].
  cbn [Z.ltb Z.compare andb bind].
  replace (Z.to_nat (-1 + Z.of_nat (length l))) with (length l - 1)%nat by lia.
  reflexivity.
Qed.

Lemma wrap_assignments (n : nat) (b s f : Q) :
  (1 <= n)%nat ->
  (P1 <- setitem2 (map (fun i => map (band b s f i) (seq 0 n)) (seq 0 n)) 0 (-1) b ;;
   setitem2 P1 (-1) 0 f)
  = Ok (wrapped n b s f).
Proof.
  intros Hn. unfold wrapped.
  set (P0 := map (fun i => map (band b s f i) (seq 0 n)) (seq 0 n)).
  assert (HP0 : length P0 = n) by (unfold P0; now rewrite length_map, length_seq).
  assert (Hrow0 : length (nth 0 P0 []) = n).
  { unfold P0. rewrite nth_map_seq by lia. now rewrite length_map, length_seq. }
  unfold setitem2 at 1.
  replace (getitem P0 0) with (Ok (nth 0 P0 []))
    by (symmetry; apply (getitem_nth P0 0 []); lia).
  cbn [bind].
  rewrite setitem_last by lia. cbn [bind]. rewrite Hrow0.
  rewrite (setitem_in_range P0 0) by lia. cbn [bind Z.to_nat].
  set (P1 := update 0 (update (n - 1) b (nth 0 P0 [])) P0).
  assert (HP1 : length P1 = n) by (unfold P1; now rewrite update_length).
  assert (HrowL : (1 <= length (nth (n - 1) P1 []))%nat).
  { unfold P1. rewrite nth_update.
    destruct (Nat.eqb 0 (n - 1) && Nat.ltb 0 (length P0)).
    - rewrite update_length. lia.
    - unfold P0. rewrite nth_map_seq by lia. rewrite length_map, length_seq. lia. }
  unfold setitem2.
  rewrite (getitem_last P1 []) by lia. cbn [bind]. rewrite HP1.
  rewrite (setitem_in_range _ 0) by lia. cbn [bind Z.to_nat].
  rewrite setitem_last by lia. rewrite HP1. reflexivity.
Qed.

Ltac split_tests :=
  repeat match goal with
         | |- context [Nat.eqb ?a ?b] => destruct (Nat.eqb_spec a b)
         | |- context [Nat.ltb ?a ?b] => destruct (Nat.ltb_spec a b)
         | |- context [Z.eqb ?a ?b] => destruct (Z.eqb_spec a b)
         end.

Lemma wrapped_length (n : nat) (b s f : Q) : length (wrapped n b s f) = n.
Proof. unfold wrapped. now rewrite !update_length, length_map, length_seq. Qed.

Lemma wrapped_row_length (n : nat) (b s f : Q) (i : nat) :
  (i < n)%nat -> length (nth i (wrapped n b s f) []) = n.
Proof.
  intros Hi. unfold wrapped. rewrite !nth_update, !update_length, length_map, length_seq.
  split_tests; cbn [andb]; rewrite ?update_length, ?nth_update, ?update_length,
    ?length_map, ?length_seq; split_tests; cbn [andb];
    rewrite ?update_length, ?nth_map_seq, ?length_map, ?length_seq by lia;
    reflexivity || lia.
Qed.

(** Every cell of the wrapped matrix, for three vertices or more: [b] in the
    column of the vertex before, [s] on the diagonal, [f] in the column of
    the vertex after, 0 elsewhere. *)
Lemma wrapped_entry (n : nat) (b s f : Q) (i j : nat) :
  (3 <= n)%nat -> (i < n)%nat -> (j < n)%nat ->
  (entry (wrapped n b s f) i j
   == ind j (before n i) * b + ind j i * s + ind j (after n i) * f)%Q.
Proof.
  intros Hn Hi Hj. unfold entry, wrapped.
  rewrite !nth_update, !update_length, length_map, length_seq.
  destruct (Nat.eqb_spec (n - 1) i) as [Hlast|Hlast].
  - (* the last row *)
    destruct (Nat.ltb_spec (n - 1) n); [|lia]. cbn [andb].
    destruct (Nat.eqb_spec 0 (n - 1)); [lia|]. cbn [andb].
    rewrite nth_update, nth_map_seq by lia. rewrite length_map, length_seq.
    subst i. unfold ind, after, before, band.
    destruct n as [|[|[|n]]]; try lia. cbn [Nat.sub]. rewrite Nat.eqb_refl.
    destruct (Nat.eqb_spec 0 j) as [Hj0|Hj0]; cbn [andb Nat.ltb Nat.leb].
    + subst j. cbn [Nat.eqb]. lra.
    + rewrite nth_map_seq by lia.
      split_tests; try lia; lra.
  - cbn [andb].
    destruct (Nat.eqb_spec 0 i) as [Hfirst|Hfirst].
    + (* the first row *)
      destruct (Nat.ltb_spec 0 n); [|lia]. cbn [andb].
      rewrite nth_update, nth_map_seq by lia. rewrite length_map, length_seq.
      subst i. unfold ind, after, before.
      destruct (Nat.eqb_spec 1 n); [lia|].
      destruct (Nat.eqb_spec (n - 1) j) as [Hjl|Hjl];
        destruct (Nat.ltb_spec (n - 1) n); try lia; cbn [andb].
      * split_tests; try lia; lra.
      * rewrite nth_map_seq by lia. unfold band. split_tests; try lia; lra.
    + (* a row in between *)
      cbn [andb]. rewrite !nth_map_seq by lia.
      unfold band, ind, after, before. destruct i as [|i]; [lia|].
      destruct (Nat.eqb_spec (S (S i)) n); [lia|].
      split_tests; try lia; lra.
Qed.

(** Sums of rows. *)

Lemma Qsum_app (l1 l2 : list Q) : (Qsum (l1 ++ l2) == Qsum l1 + Qsum l2)%Q.
Proof.
  induction l1 as [|x l1 IH]; cbn [Qsum app]; [lra | rewrite IH; lra].
Qed.

Lemma Qsum_pointwise (l : list Q) :
  forall (n : nat) (g : nat -> Q),
    length l = n ->
    (forall j, (j < n)%nat -> (nth j l 0 == g j)%Q) ->
    (Qsum l == Qsum (map g (seq 0 n)))%Q.
Proof.
  induction l as [|x t IH]; intros n g Hlen Hg; cbn [length] in Hlen; subst n.
  - reflexivity.
  - cbn [seq map Qsum]. rewrite <- seq_shift, map_map.
    rewrite (IH (length t) (fun j => g (S j)) eq_refl).
    + pose proof (Hg 0%nat ltac:(lia)) as H0. cbn [nth] in H0. lra.
    + intros j Hj. apply (Hg (S j)). lia.
Qed.

Lemma Qsum_three_terms (g1 g2 g3 : nat -> Q) (b s f : Q) (l : list nat) :
  (Qsum (map (fun j => g1 j * b + g2 j * s + g3 j * f) l)
   == Qsum (map g1 l) * b + Qsum (map g2 l) * s + Qsum (map g3 l) * f)%Q.
Proof.
  induction l as [|x l IH]; cbn [map Qsum]; [lra | rewrite IH; lra].
Qed.

Lemma Qsum_ind (a n : nat) :
  (Qsum (map (fun j => ind j a) (seq 0 n)) == if Nat.ltb a n then 1 else 0)%Q.
Proof.
  induction n as [|n IH].
  - reflexivity.
  - rewrite seq_S, map_app, Qsum_app, IH. cbn [map Qsum Nat.add]. unfold ind.
    destruct (Nat.ltb_spec a n); destruct (Nat.ltb_spec a (S n));
      destruct (Nat.eqb_spec n a); try lia; lra.
Qed.

Lemma before_lt (n i : nat) : (1 <= n)%nat -> (i < n)%nat -> (before n i < n)%nat.
Proof. unfold before. destruct i; lia. Qed.

Lemma after_lt (n i : nat) : (1 <= n)%nat -> (i < n)%nat -> (after n i < n)%nat.
Proof. unfold after. destruct (Nat.eqb_spec (S i) n); lia. Qed.

(** Every row of the wrapped matrix sums to [b + s + f]. *)
Lemma wrapped_row_sum (n : nat) (b s f : Q) (i : nat) :
  (3 <= n)%nat -> (i < n)%nat ->
  (Qsum (nth i (wrapped n b s f) []) == b + s + f)%Q.
Proof.
  intros Hn Hi.
  rewrite (Qsum_pointwise _ n
             (fun j => ind j (before n i) * b + ind j i * s + ind j (after n i) * f)%Q).
  - rewrite Qsum_three_terms, !Qsum_ind.
    pose proof (before_lt n i ltac:(lia) Hi). pose proof (after_lt n i ltac:(lia) Hi).
    destruct (Nat.ltb_spec (before n i) n); [|lia].
    destruct (Nat.ltb_spec i n); [|lia].
    destruct (Nat.ltb_spec (after n i) n); [|lia]. lra.
  - now apply wrapped_row_length.
  - intros j Hj. now apply wrapped_entry.
Qed.

Lemma allclose_one (xs : list Q) :
  (forall x, In x xs -> Qabs (x - 1) < 1 # 1000000000000)%Q ->
  allclose xs 1 = true.
Proof.
  intros H. unfold allclose. apply forallb_forall. intros x Hx.
  apply Qleb_true. specialize (H x Hx).
  change (Qabs 1) with 1%Q.
  apply Qlt_le_weak. eapply Qlt_le_trans; [exact H|]. discriminate.
Qed.

Lemma wrapped_allclose (n : nat) (b s f : Q) :
  (3 <= n)%nat ->
  (Qabs (b + s + f - 1) < 1 # 1000000000000)%Q ->
  allclose (row_sums (wrapped n b s f)) 1 = true.
Proof.
  intros Hn Hsum. apply allclose_one. intros x Hx.
  unfold row_sums in Hx. apply in_map_iff in Hx as (row & <- & Hrow).
  apply (In_nth _ _ []) in Hrow as (i & Hi & <-).
  rewrite wrapped_length in Hi.
  assert (Heq : (Qsum (nth i (wrapped n b s f) []) - 1 == b + s + f - 1)%Q)
    by (rewrite wrapped_row_sum by assumption; reflexivity).
  rewrite Heq. exact Hsum.
Qed.

(** Construction for three vertices or more. *)
Lemma CycleRandomWalk_init_ok (b s f : Q) (vertices : Z) :
  (0 <= b <= 1)%Q -> (0 <= s <= 1)%Q -> (0 <= f <= 1)%Q ->
  (Qabs (b + s + f - 1) < 1 # 1000000000000)%Q ->
  3 <= vertices ->
  CycleRandomWalk.init b s f vertices
  = Ok {| CycleRandomWalk.P := wrapped (Z.to_nat vertices) b s f;
          CycleRandomWalk.pi := repeat (1 / inject_Z vertices)%Q (Z.to_nat vertices);
          CycleRandomWalk.b := b;
          CycleRandomWalk.s := s;
          CycleRandomWalk.f := f;
          CycleRandomWalk.vertices := vertices |}.
Proof.
  intros [Hb0 Hb1] [Hs0 Hs1] [Hf0 Hf1] Hsum Hv.
  unfold CycleRandomWalk.init, CycleRandomWalk.check_probabilities, py_assert.
  apply Qleb_true in Hb0, Hb1, Hs0, Hs1, Hf0, Hf1.
  rewrite Hb0, Hb1, Hs0, Hs1, Hf0, Hf1. cbn [andb bind].
  pose proof Hsum as Hsumb. apply Qltb_true in Hsumb. rewrite Hsumb. cbn [bind].
  unfold np_size. destruct (Z.ltb_spec vertices 0); [lia|]. cbn [bind].
  rewrite band_matrix.
  pose proof (wrap_assignments (Z.to_nat vertices) b s f ltac:(lia)) as Hwrap.
  destruct (setitem2 _ 0 (-1) b) as [P1|err]; cbn [bind] in Hwrap |- *;
    [|discriminate].
  rewrite Hwrap. cbn [bind].
  rewrite wrapped_allclose by (assumption || lia). cbn [bind].
  unfold py_div.
  destruct (Qeqb (inject_Z vertices) 0) eqn:Hz.
  - apply Qeqb_true in Hz. unfold Qeq, inject_Z in Hz. cbn in Hz. lia.
  - cbn [bind]. unfold np_repeat. destruct (Z.ltb_spec vertices 0); [lia|].
    reflexivity.
Qed.

(** C2.  On a cycle of two vertices the constructor refuses valid
    probabilities: [CycleRandomWalk(0.25, 0.5, 0.25, 2)] passes the four
    assertions on the probabilities and stops at the constructor's own
    row-sum assertion, because the two wrap-around assignments overwrite
    the sub- and super-diagonal cells and leave the rows [[s, b]] and
    [[f, s]].  Construction fails as well for one vertex (same assertion)
    and for none ([IndexError]).  All the numbers involved are doubles and
    every sum is exact in doubles. *)
Theorem CycleRandomWalk_init_two_vertices :
  ((0 <= 1 # 4 <= 1)%Q /\ (0 <= 1 # 2 <= 1)%Q /\
   (Qabs ((1 # 4) + (1 # 2) + (1 # 4) - 1) < 1 # 1000000000000)%Q) /\
  CycleRandomWalk.init (1 # 4) (1 # 2) (1 # 4) 2
  = Raise (AssertionError "transition matrix rows must sum up to one.") /\
  CycleRandomWalk.init (1 # 4) (1 # 2) (1 # 4) 1
  = Raise (AssertionError "transition matrix rows must sum up to one.") /\
  CycleRandomWalk.init (1 # 4) (1 # 2) (1 # 4) 0 = Raise IndexError.
Proof.
  split; [|repeat split; reflexivity].
  repeat split; try discriminate; reflexivity.
Qed.

(** ** Renewal: the tables and the table lookup *)

Lemma nondecreasing_map_seq (g : nat -> Q) (len : nat) :
  (forall k, g k <= g (S k))%Q ->
  forall start, nondecreasing (map g (seq start len)) = true.
Proof.
  intros Hg. induction len as [|len IH]; intros start; [reflexivity|].
  destruct len as [|len]; [reflexivity|].
  specialize (IH (S start)). cbn [seq map nondecreasing] in *.
  rewrite IH, andb_true_r. apply Qleb_true, Hg.
Qed.

Lemma Qdiv_antitone (F p p' : Q) :
  (0 <= F -> 0 < p -> p <= p' -> F / p' <= F / p)%Q.
Proof.
  intros HF Hp Hpp. apply Qle_shift_div_l; [assumption|].
  unfold Qdiv. setoid_replace (F * / p' * p)%Q with (F * p / p')%Q by (field; lra).
  apply Qle_shift_div_r; [lra | nra].
Qed.

Lemma size_biased_antitone (F p p' a a' n : Q) :
  (0 <= F -> 0 < p -> 0 < p' -> 0 < n -> a' * p <= a * p' ->
   F / p' * a' / n <= F / p * a / n)%Q.
Proof.
  intros HF Hp Hp' Hn Hratio.
  apply Qle_shift_div_r; [assumption|].
  setoid_replace (F / p * a / n * n)%Q with (F * a / p)%Q by (field; split; lra).
  apply Qle_shift_div_l; [assumption|].
  setoid_replace (F / p' * a' * p)%Q with (F * (a' * p) / p')%Q by (field; lra).
  apply Qle_shift_div_r; [assumption|].
  setoid_replace (F * a * p')%Q with (F * (a * p'))%Q by ring.
  nra.
Qed.

Lemma map_each_total {A B : Type} (g : A -> B) (h : A -> result B) (xs : list A) :
  (forall x, h x = Ok (g x)) -> map_each h xs = Ok (map g xs).
Proof.
  intros Hh. induction xs as [|x xs IH]; cbn [map_each map]; [reflexivity|].
  rewrite Hh, IH. reflexivity.
Qed.

Section Renewal_tables.

Context {NP : Numpy} {SP : ScipySpecial}.

Lemma grid_point (k : nat) :
  (0 < inject_Z (0 + Z.of_nat k) + 1)%Q /\
  (inject_Z (0 + Z.of_nat k) + 1 <= inject_Z (0 + Z.of_nat (S k)) + 1)%Q.
Proof.
  assert (H0 : (inject_Z 0 <= inject_Z (0 + Z.of_nat k))%Q)
    by (rewrite <- Zle_Qle; lia).
  assert (H1 : (inject_Z (0 + Z.of_nat k) <= inject_Z (0 + Z.of_nat (S k)))%Q)
    by (rewrite <- Zle_Qle; lia).
  change (inject_Z 0) with 0%Q in H0. split; lra.
Qed.

Lemma cdf_f_table_nondecreasing (self : Renewal.t) (lim : Z) :
  (1 < Renewal.n self)%Q ->
  nondecreasing (Renewal.table (Renewal.cdf_f self) lim) = true.
Proof.
  intros Hn. unfold Renewal.table, range. rewrite map_map.
  apply nondecreasing_map_seq. intros k. unfold Renewal.cdf_f.
  destruct (grid_point k) as [Hpos Hle].
  pose proof (factorial_nonneg _ Hn). pose proof (poch_pos _ _ Hpos Hn).
  pose proof (poch_mono _ _ _ Hpos Hle Hn).
  pose proof (Qdiv_antitone (factorial (Renewal.n self)) _ _ H H0 H1). lra.
Qed.

Lemma cdf_x_zero_table_nondecreasing (self : Renewal.t) (lim : Z) :
  (1 < Renewal.n self)%Q ->
  nondecreasing (Renewal.table (Renewal.cdf_x_zero self) lim) = true.
Proof.
  intros Hn. unfold Renewal.table, range. rewrite map_map.
  apply nondecreasing_map_seq. intros k. unfold Renewal.cdf_x_zero.
  destruct (grid_point k) as [Hpos Hle].
  pose proof (factorial_nonneg _ Hn) as HF.
  pose proof (poch_pos _ _ Hpos Hn) as Hp.
  assert (Hpos' : (0 < inject_Z (0 + Z.of_nat (S k)) + 1)%Q) by lra.
  pose proof (poch_pos _ _ Hpos' Hn) as Hp'.
  pose proof (poch_ratio_mono _ _ _ Hpos Hle Hn) as Hratio.
  pose proof (size_biased_antitone (factorial (Renewal.n self)) _ _ _ _
                (Renewal.n self) HF Hp Hp' ltac:(lra) Hratio).
  lra.
Qed.

Lemma digitize_nondecreasing (x : Q) (bins : list Q) :
  nondecreasing bins = true ->
  digitize x bins = Ok (Z.of_nat (count (fun c => Qleb c x) bins)).
Proof. intros H. unfold digitize. now rewrite H. Qed.

Lemma Renewal_init_inv (n : Q) (self : Renewal.t) :
  Renewal.init n = Ok self -> (1 < n)%Q /\ Renewal.n self = n.
Proof.
  unfold Renewal.init, py_assert. destruct (Qltb 1 n) eqn:Hn; [|discriminate].
  cbn [bind]. apply Qltb_true in Hn. intros [= <-]. split; [assumption|].
  repeat destruct (Qeqb n _); reflexivity.
Qed.

(** The gaps of a valid instance on a non-empty sample: one gap per
    sample, each the number of table entries not above the sample. *)
Lemma Renewal_gaps_total (self : Renewal.t) (u0 : Q) (us : list Q) :
  (1 < Renewal.n self)%Q ->
  Renewal.gaps self (u0 :: us)
  = Ok (Z.of_nat (count (fun c => Qleb c u0)
                    (Renewal.table (Renewal.cdf_x_zero self) (Renewal.lim_x_zero self)))
        :: map (fun u => Z.of_nat (count (fun c => Qleb c u)
                    (Renewal.table (Renewal.cdf_f self) (Renewal.lim_f self)))) us).
Proof.
  intros Hn. unfold Renewal.gaps.
  change (getitem (u0 :: us) 0) with (Ok u0). cbn [bind].
  rewrite digitize_nondecreasing by now apply cdf_x_zero_table_nondecreasing.
  cbn [bind skipn]. unfold digitize_all.
  rewrite cdf_f_table_nondecreasing by assumption. cbn [orb].
  rewrite (map_each_total
             (fun u => Z.of_nat (count (fun c => Qleb c u)
                (Renewal.table (Renewal.cdf_f self) (Renewal.lim_f self))))).
  - reflexivity.
  - intros u. apply digitize_nondecreasing. now apply cdf_f_table_nondecreasing.
Qed.

Lemma Renewal_generate_arrivals (self : Renewal.t) (N : Z) (seed : py_seed) (w : world) :
  fst (Renewal.generate self N seed w)
  = (x_cumsum <- Renewal.arrival_times self N seed w ;;
     Ok (map (Renewal.mark x_cumsum) (range 0 N))).
Proof.
  unfold Renewal.generate, Renewal.arrival_times.
  destruct (default_rng seed w) as [rng w']. cbn [fst].
  destruct (rng_uniform 0 (999999 # 1000000) N rng) as [[us g]|err]; cbn [bind];
    [|reflexivity].
  destruct (Renewal.gaps self us); reflexivity.
Qed.

(** A valid instance generates for every [N >= 1]: the arrival times are
    the cumulative sum of [N] gaps, and the output has [N] entries, of which
    the first is 0. *)
Lemma Renewal_generate_total (n : Q) (self : Renewal.t) (N : Z)
  (seed : py_seed) (w : world) :
  Renewal.init n = Ok self ->
  1 <= N ->
  exists x_cumsum out,
    Renewal.arrival_times self N seed w = Ok x_cumsum /\
    Z.of_nat (length x_cumsum) = N /\
    Renewal.generate self N seed w = (Ok out, snd (default_rng seed w)) /\
    out = map (Renewal.mark x_cumsum) (range 0 N) /\
    Z.of_nat (length out) = N /\
    nth_error out 0 = Some 0.
Proof.
  intros Hinit HN. apply Renewal_init_inv in Hinit as [Hn Heq].
  assert (Hn' : (1 < Renewal.n self)%Q) by (rewrite Heq; exact Hn).
  assert (Harr : exists x, Renewal.arrival_times self N seed w = Ok (cumsum x)
                           /\ Z.of_nat (length x) = N).
  { unfold Renewal.arrival_times, rng_uniform, np_size.
    destruct (Z.ltb_spec N 0); [lia|]. cbn [bind].
    pose proof (draws_length (next_uniform 0 (999999 # 1000000)) (Z.to_nat N)
                  (fst (default_rng seed w))) as Hlen.
    destruct (draws _ (Z.to_nat N) (fst (default_rng seed w))) as [us g].
    cbn [fst] in Hlen. destruct us as [|u0 us]; cbn [length] in Hlen; [lia|].
    rewrite Renewal_gaps_total by assumption. cbn [bind].
    eexists. split; [reflexivity|]. cbn [length]. rewrite length_map. lia. }
  destruct Harr as (x & Harr & Hlen).
  assert (Hcum : forall acc l, length (cumsum_from acc l) = length l)
    by (intros acc l; revert acc; induction l; intros; cbn; auto).
  exists (cumsum x), (map (Renewal.mark (cumsum x)) (range 0 N)).
  split; [exact Harr|]. split; [unfold cumsum; rewrite Hcum; exact Hlen|].
  split; [|split; [reflexivity|split]].
  - pose proof (Renewal_generate_arrivals self N seed w) as Hgen.
    rewrite Harr in Hgen. cbn [bind] in Hgen.
    unfold Renewal.generate in *. destruct (default_rng seed w) as [rng w'].
    cbn [fst snd] in *. now rewrite Hgen.
  - rewrite length_map, range_length. lia.
  - rewrite nth_error_map, range_nth_error by lia. reflexivity.
Qed.

End Renewal_tables.

Lemma isin_In (x : Z) (l : list Z) : isin x l = true <-> In x l.
Proof.
  unfold isin. rewrite existsb_exists. split.
  - intros (y & Hy & Heq). apply Z.eqb_eq in Heq. now subst.
  - intros H. exists x. split; [assumption | apply Z.eqb_refl].
Qed.

(** C1.  What [Renewal.generate] returns for a valid instance and
    [N >= 1]: [N] entries, of which entry [k] is 1 exactly when [k] is one
    of the first [k] arrival times ([x_cumsum[:k]]).  An arrival at time
    [k] that is the [k]-th entry of [x_cumsum] itself is therefore not
    marked: when the first gap is 0, time 0 is an arrival time and the
    output at index 0 is 0. *)
Theorem Renewal_generate_marks_earlier_arrivals
  {NP : Numpy} {SP : ScipySpecial}
  (n : Q) (self : Renewal.t) (N : Z) (seed : py_seed) (w : world) :
  Renewal.init n = Ok self ->
  1 <= N ->
  exists x_cumsum out,
    Renewal.arrival_times self N seed w = Ok x_cumsum /\
    fst (Renewal.generate self N seed w) = Ok out /\
    Z.of_nat (length out) = N /\
    (forall k : nat, Z.of_nat k < N ->
       exists v, nth_error out k = Some v /\
                 (v = 1 <-> In (Z.of_nat k) (firstn k x_cumsum)) /\
                 (v = 0 <-> ~ In (Z.of_nat k) (firstn k x_cumsum))) /\
    (nth_error x_cumsum 0 = Some 0 -> In 0 x_cumsum /\ nth_error out 0 = Some 0).
Proof.
  intros Hinit HN.
  destruct (Renewal_generate_total n self N seed w Hinit HN)
    as (xc & out & Harr & Hlen & Hgen & Hout & Hlen' & Hhead).
  exists xc, out. split; [exact Harr|]. split; [now rewrite Hgen|].
  split; [exact Hlen'|]. split.
  - intros k Hk. subst out.
    rewrite nth_error_map, range_nth_error by lia. cbn [option_map Z.add].
    eexists. split; [reflexivity|]. unfold Renewal.mark. rewrite Nat2Z.id.
    destruct (isin (Z.of_nat k) (firstn k xc)) eqn:E.
    + apply isin_In in E. split; split; intros; try reflexivity; try assumption;
        try discriminate; contradiction.
    + assert (~ In (Z.of_nat k) (firstn k xc))
        by (intros Hin; apply isin_In in Hin; congruence).
      split; split; intros; try reflexivity; try assumption; try discriminate;
        contradiction.
  - intros H0. split; [|exact Hhead]. eapply nth_error_In, H0.
Qed.

(** [Renewal(3).generate(1, seed)] for a seed whose first uniform draw is
    0.25 (below [cdf_x_zero(0) = 2/3]): the first gap is 0, the only arrival
    time is 0, and the output is [[0]]. *)
Lemma Renewal_generate_first_gap_zero :
  (Renewal.init 3
   = Ok {| Renewal.n := 3; Renewal.lim_f := 180; Renewal.lim_x_zero := 1412 |}
   /\ 1 <= 1) /\
  fst (@Renewal.generate Toy.numpy Toy.scipy_special
         {| Renewal.n := 3; Renewal.lim_f := 180; Renewal.lim_x_zero := 1412 |}
         1 (Some 250%N) 7) = Ok [0] /\
  exists x_cumsum out,
    @Renewal.arrival_times Toy.numpy Toy.scipy_special
       {| Renewal.n := 3; Renewal.lim_f := 180; Renewal.lim_x_zero := 1412 |}
       1 (Some 250%N) 7 = Ok x_cumsum /\
    fst (@Renewal.generate Toy.numpy Toy.scipy_special
           {| Renewal.n := 3; Renewal.lim_f := 180; Renewal.lim_x_zero := 1412 |}
           1 (Some 250%N) 7) = Ok out /\
    x_cumsum = [0] /\
    (nth_error x_cumsum 0 = Some 0 -> In 0 x_cumsum /\ nth_error out 0 = Some 0).
Proof.
  split; [split; [reflexivity | lia]|].
  split; [vm_compute; reflexivity|].
  destruct (@Renewal_generate_marks_earlier_arrivals Toy.numpy Toy.scipy_special
              3 {| Renewal.n := 3; Renewal.lim_f := 180; Renewal.lim_x_zero := 1412 |}
              1 (Some 250%N) 7 eq_refl ltac:(lia))
    as (xc & out & Harr & Hgen & _ & _ & Hzero).
  exists xc, out.
  refine (conj Harr (conj Hgen (conj _ Hzero))).
  assert (Hval : @Renewal.arrival_times Toy.numpy Toy.scipy_special
                   {| Renewal.n := 3; Renewal.lim_f := 180; Renewal.lim_x_zero := 1412 |}
                   1 (Some 250%N) 7 = Ok [0]) by (vm_compute; reflexivity).
  rewrite Hval in Harr. now injection Harr.
Defined.

(** ** The two renewal samplers, side by side *)

Section Closed_form.

Context {NP : Numpy} {NM : NumpyMath}.

Lemma _Renewal_generate_arrivals (N : Z) (seed : py_seed) (w : world) :
  fst (_Renewal.generate N seed w)
  = (x_cumsum <- _Renewal.arrival_times N seed w ;;
     Ok (map (fun k => if isin k x_cumsum then 1 else 0) (range 0 N))).
Proof.
  unfold _Renewal.generate, _Renewal.arrival_times.
  destruct (default_rng seed w) as [rng w']. cbn [fst].
  destruct (rng_uniform 0 (999999 # 1000000) N rng) as [[us g]|err]; cbn [bind];
    [|reflexivity].
  destruct (_Renewal.gaps us); reflexivity.
Qed.

End Closed_form.

(** C5.  For [n = 3] and every seed, the table-based sampler returns 0 at
    index 0, whereas the closed-form sampler returns 1 at index 0 whenever
    its first arrival time is 0 (a first gap of 0).  The two output
    distributions over seeds therefore differ in their first coordinate as
    soon as a first gap of 0 has positive probability. *)
Theorem Renewal_variants_differ_at_index_zero
  {NP : Numpy} {SP : ScipySpecial} {NM : NumpyMath}
  (self : Renewal.t) (N : Z) (seed : py_seed) (w : world) :
  Renewal.init 3 = Ok self ->
  1 <= N ->
  (exists out,
     fst (Renewal.generate self N seed w) = Ok out /\ nth_error out 0 = Some 0) /\
  (forall x_cumsum,
     _Renewal.arrival_times N seed w = Ok x_cumsum ->
     nth_error x_cumsum 0 = Some 0 ->
     exists out',
       fst (_Renewal.generate N seed w) = Ok out' /\ nth_error out' 0 = Some 1).
Proof.
  intros Hinit HN. split.
  - destruct (Renewal_generate_total 3 self N seed w Hinit HN)
      as (xc & out & _ & _ & Hgen & _ & _ & Hhead).
    exists out. now rewrite Hgen.
  - intros xc Harr H0. rewrite _Renewal_generate_arrivals, Harr. cbn [bind].
    eexists. split; [reflexivity|].
    rewrite nth_error_map, range_nth_error by lia. cbn [option_map Z.add Z.of_nat].
    assert (Hin : isin 0 xc = true) by (apply isin_In; eapply nth_error_In, H0).
    now rewrite Hin.
Qed.

(** Both samplers on the same seed (first uniform draw 0.25, first gap 0):
    the outputs differ on the first four indices and agree afterwards. *)
Lemma Renewal_variants_on_one_seed :
  (Renewal.init 3
   = Ok {| Renewal.n := 3; Renewal.lim_f := 180; Renewal.lim_x_zero := 1412 |}
   /\ 1 <= 8) /\
  @_Renewal.arrival_times Toy.numpy Toy.numpy_math 8 (Some 250%N) 7
    = Ok [0; 1; 2; 3; 5; 6; 7; 8] /\
  fst (@_Renewal.generate Toy.numpy Toy.numpy_math 8 (Some 250%N) 7)
    = Ok [1; 1; 1; 1; 0; 1; 1; 1] /\
  fst (@Renewal.generate Toy.numpy Toy.scipy_special
      {| Renewal.n := 3; Renewal.lim_f := 180; Renewal.lim_x_zero := 1412 |}
      8 (Some 250%N) 7)
    = Ok [0; 0; 0; 0; 0; 1; 1; 1] /\
  (exists out,
     fst (@Renewal.generate Toy.numpy Toy.scipy_special
        {| Renewal.n := 3; Renewal.lim_f := 180; Renewal.lim_x_zero := 1412 |}
        8 (Some 250%N) 7) = Ok out /\ nth_error out 0 = Some 0) /\
  (exists out',
     fst (@_Renewal.generate Toy.numpy Toy.numpy_math 8 (Some 250%N) 7) = Ok out' /\
     nth_error out' 0 = Some 1).
Proof.
  assert (Harr : @_Renewal.arrival_times Toy.numpy Toy.numpy_math 8 (Some 250%N) 7
                 = Ok [0; 1; 2; 3; 5; 6; 7; 8]) by (vm_compute; reflexivity).
  split; [split; [reflexivity | lia]|].
  split; [exact Harr|].
  split; [vm_compute; reflexivity|].
  split; [vm_compute; reflexivity|].
  destruct (@Renewal_variants_differ_at_index_zero
              Toy.numpy Toy.scipy_special Toy.numpy_math
              {| Renewal.n := 3; Renewal.lim_f := 180; Renewal.lim_x_zero := 1412 |}
              8 (Some 250%N) 7 eq_refl ltac:(lia)) as [Htable Hclosed].
  exact (conj Htable (Hclosed _ Harr eq_refl)).
Defined.

(** ** Data frames: shifting, trimming *)







Lemma shift_length (periods : Z) (col : list DataFrame.cell) :
  length (DataFrame.shift periods col) = length col.
Proof. unfold DataFrame.shift. now rewrite length_map, length_seq. Qed.



Lemma in_range (x lo hi : Z) : In x (range lo hi) <-> lo <= x < hi.
Proof.
  unfold range. rewrite in_map_iff. split.
  - intros (k & <- & Hk). apply in_seq in Hk. lia.
  - intros H. exists (Z.to_nat (x - lo)). split; [lia|]. apply in_seq. lia.
Qed.














(** ** Every constructed simulator generates *)

Lemma cumsum_from_length (acc : Z) (l : list Z) : length (cumsum_from acc l) = length l.
Proof. revert acc. induction l as [|x t IH]; intros acc; cbn; auto. Qed.

Lemma isin_range (x v : Z) : 0 <= x < v -> isin x (range 0 v) = true.
Proof. intros H. apply isin_In, in_range. exact H. Qed.

Lemma Qsum_repeat (x : Q) (n : nat) :
  (Qsum (repeat x n) == inject_Z (Z.of_nat n) * x)%Q.
Proof.
  induction n as [|n IH]; cbn [repeat Qsum].
  - ring.
  - rewrite IH, Nat2Z.inj_succ. unfold Z.succ. rewrite inject_Z_plus. ring.
Qed.

Section Choice.

Context {NP : Numpy}.

Lemma choice_check_ok (a : list Z) (p : list Q) :
  a <> [] -> length a = length p ->
  (forall x, In x p -> (0 <= x)%Q) ->
  (Qabs (Qsum p - 1) <= choice_atol)%Q ->
  choice_check a p = Ok tt.
Proof.
  intros Ha Hlen Hpos Hsum. unfold choice_check.
  destruct a as [|a0 a']; [contradiction|].
  rewrite Hlen, Nat.eqb_refl. cbn [negb].
  replace (forallb (Qleb 0) p) with true
    by (symmetry; apply forallb_forall; intros x Hx; apply Qleb_true; auto).
  cbn [negb].
  destruct (Qltb choice_atol (Qabs (Qsum p - 1))) eqn:E; [|reflexivity].
  apply Qltb_true in E. lra.
Qed.

End Choice.

(** What a successful construction of the cycle walk establishes. *)
Lemma CycleRandomWalk_init_inv (b s f : Q) (vertices : Z) (self : CycleRandomWalk.t) :
  CycleRandomWalk.init b s f vertices = Ok self ->
  (0 <= b)%Q /\ (0 <= s)%Q /\ (0 <= f)%Q /\
  (Qabs (b + s + f - 1) < 1 # 1000000000000)%Q /\
  1 <= vertices /\
  CycleRandomWalk.b self = b /\ CycleRandomWalk.s self = s /\
  CycleRandomWalk.f self = f /\ CycleRandomWalk.vertices self = vertices /\
  CycleRandomWalk.pi self = repeat (1 / inject_Z vertices)%Q (Z.to_nat vertices).
Proof.
  unfold CycleRandomWalk.init, CycleRandomWalk.check_probabilities, py_assert.
  destruct (Qleb 0 b && Qleb b 1) eqn:Hb; [|discriminate].
  destruct (Qleb 0 s && Qleb s 1) eqn:Hs; [|discriminate].
  destruct (Qleb 0 f && Qleb f 1) eqn:Hf; [|discriminate].
  destruct (Qltb _ _) eqn:Hsum; [|discriminate]. cbn [bind].
  unfold np_size. destruct (Z.ltb_spec vertices 0) as [Hneg|Hpos]; [discriminate|].
  cbn [bind].
  destruct (setitem2 _ 0 (-1) b) as [P1|err] eqn:E1; [|discriminate]. cbn [bind].
  destruct (setitem2 P1 (-1) 0 f) as [P2|err] eqn:E2; [|discriminate]. cbn [bind].
  destruct (allclose (row_sums P2) 1); [|discriminate]. cbn [bind].
  unfold py_div. destruct (Qeqb (inject_Z vertices) 0); [discriminate|]. cbn [bind].
  unfold np_repeat. destruct (Z.ltb_spec vertices 0); [lia|]. cbn [bind].
  intros [= <-]. cbn.
  apply andb_true_iff in Hb as [Hb _]. apply andb_true_iff in Hs as [Hs _].
  apply andb_true_iff in Hf as [Hf _]. apply Qleb_true in Hb, Hs, Hf.
  apply Qltb_true in Hsum.
  repeat split; try assumption.
  destruct (Z.eq_dec vertices 0) as [->|]; [|lia].
  cbn in E1. discriminate.
Qed.

Section Simulators_total.

Context {NP : Numpy} {SP : ScipySpecial}.

Lemma CycleRandomWalk_generate_total (b s f : Q) (vertices : Z)
  (self : CycleRandomWalk.t) (N : Z) (seed : py_seed) (w : world) :
  CycleRandomWalk.init b s f vertices = Ok self ->
  1 <= N ->
  exists states,
    CycleRandomWalk.generate self N seed w = (Ok states, snd (default_rng seed w)) /\
    Z.of_nat (length states) = N /\
    Forall (fun x => 0 <= x < vertices) states.
Proof.
  intros Hinit HN.
  apply CycleRandomWalk_init_inv in Hinit
    as (Hb & Hs & Hf & Hsum & Hv & Eb & Es & Ef & Hvert & Hpi).
  unfold CycleRandomWalk.generate. rewrite Hvert, Hpi, Eb, Es, Ef.
  destruct (default_rng seed w) as [rng w']. cbn [snd].
  unfold rng_choice1, rng_choice.
  rewrite choice_check_ok.
  - cbn [bind]. destruct (next_choice _ _ rng) as [x0 g1].
    rewrite choice_check_ok.
    + cbn [bind]. unfold np_size. destruct (Z.ltb_spec (N - 1) 0); [lia|]. cbn [bind].
      pose proof (draws_length (next_choice [-1; 0; 1] [b; s; f])
                    (Z.to_nat (N - 1)) g1) as Hlen.
      destruct (draws _ (Z.to_nat (N - 1)) g1) as [moves g2]. cbn [fst] in Hlen.
      assert (Hall : Forall (fun x => 0 <= x < vertices)
                       (map (fun x => x mod vertices) (cumsum (x0 :: moves)))).
      { apply Forall_forall. intros y Hy. apply in_map_iff in Hy as (z & <- & _).
        apply Z.mod_pos_bound. lia. }
      replace (forallb _ _) with true.
      * cbn [py_assert bind]. eexists. split; [reflexivity|]. split; [|exact Hall].
        rewrite length_map. unfold cumsum. rewrite cumsum_from_length. cbn [length]. lia.
      * symmetry. apply forallb_forall. intros y Hy.
        rewrite Forall_forall in Hall. apply isin_range. auto.
    + discriminate.
    + reflexivity.
    + intros x [<- | [<- | [<- | []]]]; assumption.
    + cbn [Qsum].
      assert (Heq : (b + (s + (f + 0)) - 1 == b + s + f - 1)%Q) by ring.
      rewrite Heq. apply Qlt_le_weak. eapply Qlt_le_trans; [exact Hsum|].
      unfold choice_atol. discriminate.
  - intros E. apply (f_equal (@length Z)) in E. rewrite range_length in E.
    cbn [length] in E. lia.
  - rewrite range_length, repeat_length. f_equal. lia.
  - intros x Hx. apply repeat_spec in Hx. subst x.
    apply Qle_shift_div_l.
    + change 0%Q with (inject_Z 0). rewrite <- Zlt_Qlt. lia.
    + rewrite Qmult_0_l. discriminate.
  - rewrite Qsum_repeat.
    assert (Hone : (inject_Z (Z.of_nat (Z.to_nat vertices)) * (1 / inject_Z vertices) - 1
                    == 0)%Q).
    { rewrite Z2Nat.id by lia. field.
      intros E. unfold Qeq, inject_Z in E. cbn in E. lia. }
    rewrite Hone. discriminate.
Qed.

Lemma AR1_generate_total (self : AR1.t) (N : Z) (seed : py_seed) (w : world) :
  0 <= N ->
  exists out,
    AR1.generate self N seed w = (Ok out, snd (default_rng seed w)) /\
    Z.of_nat (length out) = N.
Proof.
  intros HN. pose proof (AR1_generate_path self N seed w HN) as Hpath.
  pose proof (draws_length next_standard_normal (Z.to_nat N) (fst (default_rng seed w)))
    as Hlen.
  destruct (fst (draws next_standard_normal (Z.to_nat N) (fst (default_rng seed w))))
    as [|e0 t] eqn:E; cbn [length] in Hlen.
  - exists []. split; [|cbn [length]; lia].
    unfold AR1.generate in *. destruct (default_rng seed w). cbn [fst snd] in *.
    now rewrite Hpath.
  - exists (ar1_path (AR1.phi self) (e0 :: t)). split.
    + unfold AR1.generate in *. destruct (default_rng seed w). cbn [fst snd] in *.
      now rewrite Hpath.
    + cbn [ar1_path length]. rewrite ar1_from_length. lia.
Qed.

End Simulators_total.

(** ** get_synthetic *)

Section Assembler.

Context {NP : Numpy} {SP : ScipySpecial}.



End Assembler.



(** C4.  [get_synthetic] raises on parameters that are valid for their
    process: with [p = 0] and [q = 0] the two-state chain divides by
    [p + q] in its constructor, and with two vertices the cycle walk stops
    at its row-sum assertion.  No table is returned, whatever [N], [lags]
    and the seed. *)
Theorem get_synthetic_valid_parameters_refused {NP : Numpy} {SP : ScipySpecial}
  (N lags : Z) (seed : py_seed) (w : world) :
  get_synthetic "two_state_markov_chain" N lags seed
    [("p"%string, PyFloat 0); ("q"%string, PyFloat 0)] w
  = (Raise ZeroDivisionError, w)
  /\ get_synthetic "cycle_random_walk" N lags seed
       [("b"%string, PyFloat (1 # 4)); ("s"%string, PyFloat (1 # 2));
        ("f"%string, PyFloat (1 # 4)); ("vertices"%string, PyInt 2)] w
     = (Raise (AssertionError "transition matrix rows must sum up to one."), w).
Proof. split; reflexivity. Qed.



(** The assembler on a short sequence, cell by cell. *)
Example get_synthetic_small :
  fst (@get_synthetic Toy.numpy Toy.scipy_special
         "ar1" 2 1 (Some 1%N) [("phi"%string, PyInt 0)] 7)
  = Ok {| DataFrame.index := [0; 1];
          DataFrame.columns :=
            [("value"%string, [Some (-449000 # 250000); Some (-7750000 # 125000000)]);
             ("value_lag_1"%string, [Some (-999 # 500); Some (-449000 # 250000)]);
             ("target"%string,
              [Some (-7750000 # 125000000); Some (-20250000000 # 62500000000)])] |}.
Proof. vm_compute. reflexivity. Qed.

(** ** Further properties of the simulators and of the dispatch *)

(** For probabilities [p], [q] in [0, 1] that are not both 0, construction
    succeeds and [generate(N, seed)] returns [N] states, each 0 or 1, for
    every [N >= 1] and every seed. *)
Theorem TwoStateMarkovChain_generate_bits {NP : Numpy}
  (p q : Q) (N : Z) (seed : py_seed) (w : world) :
  (0 <= p <= 1)%Q -> (0 <= q <= 1)%Q -> ~ (p + q == 0)%Q ->
  1 <= N ->
  exists self states,
    TwoStateMarkovChain.init p q = Ok self /\
    fst (TwoStateMarkovChain.generate self N seed w) = Ok states /\
    Z.of_nat (length states) = N /\
    Forall bit states.
Proof.
  intros Hp Hq Hz HN.
  pose proof (TwoState_init_ok p q Hp Hq Hz) as Hinit.
  destruct (TwoState_generate_valid p q _ N seed w Hinit HN) as (states & Hgen & Hlen & Hall).
  eexists. exists states. split; [exact Hinit|]. rewrite Hgen. auto.
Qed.

(** [TwoStateMarkovChain(0.3, 0.4).generate(6, seed=5)] on the small
    generator. *)
Lemma TwoStateMarkovChain_generate_bits_six :
  ((0 <= 3 # 10 <= 1)%Q /\ (0 <= 4 # 10 <= 1)%Q /\ ~ ((3 # 10) + (4 # 10) == 0)%Q /\ 1 <= 6)
  /\ exists self states,
       TwoStateMarkovChain.init (3 # 10) (4 # 10) = Ok self /\
       fst (@TwoStateMarkovChain.generate Toy.numpy self 6 (Some 5%N) 7) = Ok states /\
       Z.of_nat (length states) = 6 /\
       Forall bit states.
Proof.
  assert (Hp : (0 <= 3 # 10 <= 1)%Q) by (split; discriminate).
  assert (Hq : (0 <= 4 # 10 <= 1)%Q) by (split; discriminate).
  assert (Hz : ~ ((3 # 10) + (4 # 10) == 0)%Q) by discriminate.
  split; [repeat split; try apply Hp; try apply Hq; try exact Hz; lia|].
  exact (@TwoStateMarkovChain_generate_bits Toy.numpy (3 # 10) (4 # 10) 6 (Some 5%N) 7
           Hp Hq Hz ltac:(lia)).
Defined.

(** On a constructed walk, [generate(N, seed)] returns [N] vertices, each
    in [0, vertices), for every [N >= 1] and every seed. *)
Theorem CycleRandomWalk_generate_vertices {NP : Numpy}
  (b s f : Q) (vertices : Z) (self : CycleRandomWalk.t)
  (N : Z) (seed : py_seed) (w : world) :
  CycleRandomWalk.init b s f vertices = Ok self ->
  1 <= N ->
  exists states,
    fst (CycleRandomWalk.generate self N seed w) = Ok states /\
    Z.of_nat (length states) = N /\
    Forall (fun x => 0 <= x < vertices) states.
Proof.
  intros Hinit HN.
  destruct (CycleRandomWalk_generate_total b s f vertices self N seed w Hinit HN)
    as (states & Hgen & Hlen & Hall).
  exists states. rewrite Hgen. auto.
Qed.

(** [CycleRandomWalk(0.25, 0.5, 0.25, 4).generate(8, seed=5)] on the small
    generator. *)
Lemma CycleRandomWalk_generate_vertices_eight :
  (CycleRandomWalk.init (1 # 4) (1 # 2) (1 # 4) 4
   = Ok {| CycleRandomWalk.P :=
             [[16 # 32; 8 # 32; 0 # 32; 1 # 4];
              [8 # 32; 16 # 32; 8 # 32; 0 # 32];
              [0 # 32; 8 # 32; 16 # 32; 8 # 32];
              [1 # 4; 0 # 32; 8 # 32; 16 # 32]];
           CycleRandomWalk.pi := [1 # 4; 1 # 4; 1 # 4; 1 # 4];
           CycleRandomWalk.b := 1 # 4;
           CycleRandomWalk.s := 1 # 2;
           CycleRandomWalk.f := 1 # 4;
           CycleRandomWalk.vertices := 4 |}
   /\ 1 <= 8) /\
  fst (@CycleRandomWalk.generate Toy.numpy
         {| CycleRandomWalk.P :=
              [[16 # 32; 8 # 32; 0 # 32; 1 # 4];
               [8 # 32; 16 # 32; 8 # 32; 0 # 32];
               [0 # 32; 8 # 32; 16 # 32; 8 # 32];
               [1 # 4; 0 # 32; 8 # 32; 16 # 32]];
            CycleRandomWalk.pi := [1 # 4; 1 # 4; 1 # 4; 1 # 4];
            CycleRandomWalk.b := 1 # 4;
            CycleRandomWalk.s := 1 # 2;
            CycleRandomWalk.f := 1 # 4;
            CycleRandomWalk.vertices := 4 |} 8 (Some 5%N) 7)
  = Ok [1; 2; 1; 0; 3; 3; 0; 3]
  /\ exists states,
       fst (@CycleRandomWalk.generate Toy.numpy
              {| CycleRandomWalk.P :=
                   [[16 # 32; 8 # 32; 0 # 32; 1 # 4];
                    [8 # 32; 16 # 32; 8 # 32; 0 # 32];
                    [0 # 32; 8 # 32; 16 # 32; 8 # 32];
                    [1 # 4; 0 # 32; 8 # 32; 16 # 32]];
                 CycleRandomWalk.pi := [1 # 4; 1 # 4; 1 # 4; 1 # 4];
                 CycleRandomWalk.b := 1 # 4;
                 CycleRandomWalk.s := 1 # 2;
                 CycleRandomWalk.f := 1 # 4;
                 CycleRandomWalk.vertices := 4 |} 8 (Some 5%N) 7) = Ok states /\
       Z.of_nat (length states) = 8 /\
       Forall (fun x => 0 <= x < 4) states.
Proof.
  split; [split; [reflexivity | lia]|].
  split; [vm_compute; reflexivity|].
  exact (@CycleRandomWalk_generate_vertices Toy.numpy (1 # 4) (1 # 2) (1 # 4) 4 _
           8 (Some 5%N) 7 eq_refl ltac:(lia)).
Defined.

(** A process name other than the four recognised ones is refused with a
    [ValueError], before anything is generated and whatever the keyword
    arguments. *)
Theorem get_synthetic_unknown_process {NP : Numpy} {SP : ScipySpecial}
  (stochastic_process : string) (N lags : Z) (seed : py_seed)
  (kwargs : list (string * pyval)) (w : world) :
  stochastic_process <> "ar1"%string ->
  stochastic_process <> "cycle_random_walk"%string ->
  stochastic_process <> "renewal"%string ->
  stochastic_process <> "two_state_markov_chain"%string ->
  get_synthetic stochastic_process N lags seed kwargs w
  = (Raise (ValueError ("Stochastic process " ++ stochastic_process
                        ++ " is not available.")%string), w).
Proof.
  intros H1 H2 H3 H4. unfold get_synthetic, make_process.
  apply String.eqb_neq in H1, H2, H3, H4. rewrite H1, H2, H3, H4. reflexivity.
Qed.

(** [get_synthetic("nope", 3, 2, seed=1)] is refused. *)
Lemma get_synthetic_unknown_process_nope :
  @get_synthetic Toy.numpy Toy.scipy_special "nope" 3 2 (Some 1%N) [] 7
  = (Raise (ValueError "Stochastic process nope is not available."), 7).
Proof.
  apply (@get_synthetic_unknown_process Toy.numpy Toy.scipy_special
           "nope" 3 2 (Some 1%N) [] 7); discriminate.
Defined.

(** When every arrival time exceeds its position in [x_cumsum], the slice
    [x_cumsum[:k]] holds every arrival time that can equal [k]. *)
Lemma earlier_arrivals_suffice (x_cumsum : list Z) (k : nat) :
  (forall j x, nth_error x_cumsum j = Some x -> Z.of_nat j < x) ->
  In (Z.of_nat k) (firstn k x_cumsum) <-> In (Z.of_nat k) x_cumsum.
Proof.
  intros Hpos. split.
  - intros Hin. rewrite <- (firstn_skipn k x_cumsum). apply in_or_app. now left.
  - intros Hin. apply In_nth_error in Hin as (j & Hj).
    pose proof (Hpos j _ Hj) as Hlt.
    apply (nth_error_In _ j). rewrite nth_error_firstn.
    destruct (Nat.ltb_spec j k); [exact Hj | lia].
Qed.

(** When every arrival time exceeds its position in [x_cumsum] (a first
    gap of at least 1 followed by gaps of at least 1), the output of
    [Renewal.generate] has length [N] and is 1 exactly at the arrival
    times, 0 elsewhere. *)
Theorem Renewal_generate_marks_all_arrivals {NP : Numpy} {SP : ScipySpecial}
  (n : Q) (self : Renewal.t) (N : Z) (seed : py_seed) (w : world) (x_cumsum : list Z) :
  Renewal.init n = Ok self ->
  1 <= N ->
  Renewal.arrival_times self N seed w = Ok x_cumsum ->
  (forall j x, nth_error x_cumsum j = Some x -> Z.of_nat j < x) ->
  exists out,
    fst (Renewal.generate self N seed w) = Ok out /\
    Z.of_nat (length out) = N /\
    forall k : nat, Z.of_nat k < N ->
      exists v, nth_error out k = Some v /\
                (v = 1 <-> In (Z.of_nat k) x_cumsum) /\
                (v = 0 <-> ~ In (Z.of_nat k) x_cumsum).
Proof.
  intros Hinit HN Harr Hpos.
  rewrite Renewal_generate_arrivals, Harr. cbn [bind].
  eexists. split; [reflexivity|]. split; [rewrite length_map, range_length; lia|].
  intros k Hk. rewrite nth_error_map, range_nth_error by lia. cbn [option_map Z.add].
  eexists. split; [reflexivity|]. unfold Renewal.mark. rewrite Nat2Z.id.
  rewrite <- (earlier_arrivals_suffice x_cumsum k Hpos).
  destruct (isin (Z.of_nat k) (firstn k x_cumsum)) eqn:E.
  - apply isin_In in E. split; split; intros; try reflexivity; try assumption;
      try discriminate; contradiction.
  - assert (~ In (Z.of_nat k) (firstn k x_cumsum))
      by (intros Hin; apply isin_In in Hin; congruence).
    split; split; intros; try reflexivity; try assumption; try discriminate;
      contradiction.
Qed.

(** [Renewal(5).generate(6, seed)] for a seed whose first uniform draw is
    0.9 (above [cdf_x_zero(0) = 0.8]): the first gap is 1 and the output
    marks every arrival time. *)
Lemma Renewal_generate_marks_all_arrivals_six :
  @Renewal.arrival_times Toy.numpy Toy.scipy_special
     {| Renewal.n := 5; Renewal.lim_f := 39; Renewal.lim_x_zero := 67 |}
     6 (Some 900%N) 7 = Ok [1; 2; 7; 9; 11; 12]
  /\ fst (@Renewal.generate Toy.numpy Toy.scipy_special
            {| Renewal.n := 5; Renewal.lim_f := 39; Renewal.lim_x_zero := 67 |}
            6 (Some 900%N) 7) = Ok [0; 1; 1; 0; 0; 0]
  /\ exists out,
       fst (@Renewal.generate Toy.numpy Toy.scipy_special
              {| Renewal.n := 5; Renewal.lim_f := 39; Renewal.lim_x_zero := 67 |}
              6 (Some 900%N) 7) = Ok out /\
       Z.of_nat (length out) = 6.
Proof.
  assert (Harr : @Renewal.arrival_times Toy.numpy Toy.scipy_special
                   {| Renewal.n := 5; Renewal.lim_f := 39; Renewal.lim_x_zero := 67 |}
                   6 (Some 900%N) 7 = Ok [1; 2; 7; 9; 11; 12]) by (vm_compute; reflexivity).
  split; [exact Harr|]. split; [vm_compute; reflexivity|].
  destruct (@Renewal_generate_marks_all_arrivals Toy.numpy Toy.scipy_special
              5 {| Renewal.n := 5; Renewal.lim_f := 39; Renewal.lim_x_zero := 67 |}
              6 (Some 900%N) 7 [1; 2; 7; 9; 11; 12] eq_refl ltac:(lia) Harr)
    as (out & Hgen & Hlen & _).
  - intros j x Hj.
    do 6 (destruct j as [|j]; [injection Hj as <-; lia|]).
    destruct j; discriminate.
  - exists out. exact (conj Hgen Hlen).
Defined.

(** ** TwoStateMarkovChain: the distributions the constructor stores *)

(** Whenever construction succeeds, each row of [P] and the vector [pi]
    are probability vectors, and [pi] is stationary for [P]: [pi P = pi]
    (floats read as exact rationals). *)
Theorem TwoStateMarkovChain_init_stationary (p q : Q) (self : TwoStateMarkovChain.t) :
  TwoStateMarkovChain.init p q = Ok self ->
  let P := TwoStateMarkovChain.P self in
  let pi := TwoStateMarkovChain.pi self in
  length P = 2%nat /\
  (forall i, (i < 2)%nat ->
     length (nth i P []) = 2%nat /\
     Forall probability (nth i P []) /\ (Qsum (nth i P []) == 1)%Q) /\
  length pi = 2%nat /\
  Forall probability pi /\
  (Qsum pi == 1)%Q /\
  (forall j, (j < 2)%nat -> (vec_mat pi P j == nth j pi 0)%Q).
Proof.
  intros Hinit.
  apply TwoState_init_inv in Hinit as (Hp & Hq & Hz & -> & ->).
  assert (Hpos : (0 < p + q)%Q) by lra.
  assert (Hq' : probability (q / (p + q))).
  { split; [apply Qle_shift_div_l | apply Qle_shift_div_r]; lra. }
  assert (Hp' : probability (p / (p + q))) by (apply share_in_unit_interval; lra).
  cbv zeta. split; [reflexivity|]. split.
  - intros i Hi. destruct i as [|[|i]]; [| |lia]; cbn [nth Qsum length].
    + split; [reflexivity|]. split; [|ring].
      repeat (apply Forall_cons; [unfold probability; lra|]). apply Forall_nil.
    + split; [reflexivity|]. split; [|ring].
      repeat (apply Forall_cons; [unfold probability; lra|]). apply Forall_nil.
  - split; [reflexivity|]. split; [repeat (apply Forall_cons; [assumption|]); apply Forall_nil|]. split.
    + cbn [Qsum]. field. exact Hz.
    + intros j Hj. unfold vec_mat, entry.
      destruct j as [|[|j]]; [| |lia]; cbn [length seq map nth Qsum]; field; exact Hz.
Qed.

(** [TwoStateMarkovChain(0.3, 0.4)]: [pi = [4/7, 3/7]]. *)
Lemma TwoStateMarkovChain_init_stationary_three_four :
  TwoStateMarkovChain.init (3 # 10) (4 # 10)
  = Ok {| TwoStateMarkovChain.P := [[1 - (3 # 10); 3 # 10]; [4 # 10; 1 - (4 # 10)]]%Q;
          TwoStateMarkovChain.pi := [(4 # 10) / ((3 # 10) + (4 # 10));
                                     (3 # 10) / ((3 # 10) + (4 # 10))]%Q |}
  /\ (Qsum [(4 # 10) / ((3 # 10) + (4 # 10)); (3 # 10) / ((3 # 10) + (4 # 10))] == 1)%Q.
Proof.
  split; [reflexivity|].
  exact (proj1 (proj2 (proj2 (proj2 (proj2
           (TwoStateMarkovChain_init_stationary (3 # 10) (4 # 10) _ eq_refl)))))).
Defined.

(** Construction succeeds exactly for probabilities [p], [q] in [0, 1]
    that are not both 0; otherwise it raises, in this order, the assertion
    on [p], the assertion on [q], or [ZeroDivisionError]. *)
Theorem TwoStateMarkovChain_init_validation (p q : Q) :
  ((exists self, TwoStateMarkovChain.init p q = Ok self)
   <-> probability p /\ probability q /\ ~ (p + q == 0)%Q) /\
  (~ probability p ->
   TwoStateMarkovChain.init p q
   = Raise (AssertionError "p must be between zero and one.")) /\
  (probability p -> ~ probability q ->
   TwoStateMarkovChain.init p q
   = Raise (AssertionError "q must be between zero and one.")) /\
  (probability p -> probability q -> (p + q == 0)%Q ->
   TwoStateMarkovChain.init p q = Raise ZeroDivisionError).
Proof.
  assert (Hrange : forall x, Qleb 0 x && Qleb x 1 = true <-> probability x).
  { intros x. unfold probability. rewrite andb_true_iff, !Qleb_true. tauto. }
  split; [|split; [|split]].
  - split.
    + intros [self Hinit]. apply TwoState_init_inv in Hinit. unfold probability. tauto.
    + intros (Hp & Hq & Hz). eexists. apply TwoState_init_ok; assumption.
  - intros Hp. unfold TwoStateMarkovChain.init, py_assert.
    destruct (Qleb 0 p && Qleb p 1) eqn:E; [|reflexivity].
    apply Hrange in E. contradiction.
  - intros Hp Hq. unfold TwoStateMarkovChain.init, py_assert.
    apply Hrange in Hp. rewrite Hp. cbn [bind].
    destruct (Qleb 0 q && Qleb q 1) eqn:E; [|reflexivity].
    apply Hrange in E. contradiction.
  - intros Hp Hq Hz. unfold TwoStateMarkovChain.init, py_assert, py_div.
    apply Hrange in Hp, Hq. rewrite Hp, Hq. cbn [bind].
    apply Qeqb_true in Hz. rewrite Hz. reflexivity.
Qed.

(** [TwoStateMarkovChain(0.3, 1.5)] is refused for [q]; [TwoStateMarkovChain(-1, 1.5)]
    for [p]. *)
Lemma TwoStateMarkovChain_init_validation_out_of_range :
  TwoStateMarkovChain.init (3 # 10) (3 # 2)
  = Raise (AssertionError "q must be between zero and one.")
  /\ TwoStateMarkovChain.init (-1) (3 # 2)
     = Raise (AssertionError "p must be between zero and one.").
Proof.
  split.
  - apply (proj1 (proj2 (proj2 (TwoStateMarkovChain_init_validation (3 # 10) (3 # 2))))).
    + split; discriminate.
    + intros [_ H]. apply H. reflexivity.
  - apply (proj1 (proj2 (TwoStateMarkovChain_init_validation (-1) (3 # 2)))).
    intros [H _]. apply H. reflexivity.
Defined.

(** ** The simulators on an empty or negative length *)

(** [TwoStateMarkovChain.generate(0)] allocates an empty array and fails
    on writing the initial state; a negative [N] is refused by [np.empty]. *)
Theorem TwoStateMarkovChain_generate_no_length {NP : Numpy}
  (p q : Q) (self : TwoStateMarkovChain.t) (N : Z) (seed : py_seed) (w : world) :
  TwoStateMarkovChain.init p q = Ok self ->
  (N = 0 -> fst (TwoStateMarkovChain.generate self N seed w) = Raise IndexError) /\
  (N < 0 -> exists msg,
     fst (TwoStateMarkovChain.generate self N seed w) = Raise (ValueError msg)).
Proof.
  intros Hinit. rewrite TwoState_generate_outcome. cbn [fst].
  unfold TwoState_outcome, np_size. split.
  - intros ->. cbn [Z.ltb Z.compare bind Z.to_nat].
    pose proof (TwoState_init_inv _ _ _ Hinit) as (Hp & Hq & Hz & _ & Hpi).
    rewrite Hpi.
    change (getitem [(q / (p + q))%Q; (p / (p + q))%Q] 1) with (Ok (p / (p + q))%Q).
    cbn [bind].
    assert (Hshare : (0 <= p / (p + q) <= 1)%Q)
      by (apply share_in_unit_interval; tauto).
    destruct (rng_binomial1_ok (p / (p + q)) (fst (default_rng seed w)) Hshare)
      as (x0 & g1 & -> & _).
    reflexivity.
  - intros HN. destruct (Z.ltb_spec N 0); [|lia]. eexists. reflexivity.
Qed.

(** [TwoStateMarkovChain(0.3, 0.4).generate(0, seed=5)] on the small generator. *)
Lemma TwoStateMarkovChain_generate_no_length_zero :
  fst (@TwoStateMarkovChain.generate Toy.numpy
         {| TwoStateMarkovChain.P := [[1 - (3 # 10); 3 # 10]; [4 # 10; 1 - (4 # 10)]]%Q;
            TwoStateMarkovChain.pi := [(4 # 10) / ((3 # 10) + (4 # 10));
                                       (3 # 10) / ((3 # 10) + (4 # 10))]%Q |}
         0 (Some 5%N) 7) = Raise IndexError.
Proof.
  exact (proj1 (@TwoStateMarkovChain_generate_no_length Toy.numpy
                  (3 # 10) (4 # 10) _ 0 (Some 5%N) 7 eq_refl) eq_refl).
Defined.

(** [AR1.generate(N)] returns [N] values for every [N >= 0], the empty
    sequence for [N = 0], and raises [ValueError] for a negative [N]. *)
Theorem AR1_generate_lengths {NP : Numpy}
  (self : AR1.t) (N : Z) (seed : py_seed) (w : world) :
  (0 <= N -> exists out,
     fst (AR1.generate self N seed w) = Ok out /\ Z.of_nat (length out) = N) /\
  (N = 0 -> fst (AR1.generate self N seed w) = Ok []) /\
  (N < 0 -> exists msg, fst (AR1.generate self N seed w) = Raise (ValueError msg)).
Proof.
  split; [|split].
  - intros HN. destruct (AR1_generate_total self N seed w HN) as (out & Hgen & Hlen).
    exists out. rewrite Hgen. auto.
  - intros ->. rewrite AR1_generate_path by lia. reflexivity.
  - intros HN. unfold AR1.generate, rng_standard_normal, np_size.
    destruct (default_rng seed w) as [rng w']. cbn [fst].
    destruct (Z.ltb_spec N 0); [|lia]. eexists. reflexivity.
Qed.

(** [AR1(0.5).generate(0)] and [AR1(0.5).generate(-1)] on the small generator. *)
Lemma AR1_generate_lengths_zero_and_negative :
  fst (@AR1.generate Toy.numpy {| AR1.phi := 1 # 2 |} 0 (Some 5%N) 7) = Ok []
  /\ exists msg,
       fst (@AR1.generate Toy.numpy {| AR1.phi := 1 # 2 |} (-1) (Some 5%N) 7)
       = Raise (ValueError msg).
Proof.
  split.
  - exact (proj1 (proj2 (@AR1_generate_lengths Toy.numpy
                           {| AR1.phi := 1 # 2 |} 0 (Some 5%N) 7)) eq_refl).
  - exact (proj2 (proj2 (@AR1_generate_lengths Toy.numpy
                           {| AR1.phi := 1 # 2 |} (-1) (Some 5%N) 7)) eq_refl).
Defined.

(** ** TwoStateMarkovChain: the transitions *)

Section Transitions.

Context {NP : Numpy}.

Lemma chain_markov_path (p q : Q) (self : TwoStateMarkovChain.t) (k : nat) :
  TwoStateMarkovChain.init p q = Ok self ->
  forall (prev : Z) (g : bitgen),
    bit prev ->
    exists g', chain self prev k g = Ok (markov_path p q prev k g, g').
Proof.
  intros Hinit. apply TwoState_init_inv in Hinit as (Hp & Hq & _ & HP & _).
  induction k as [|k IH]; intros prev g Hprev.
  - exists g. reflexivity.
  - cbn [chain markov_path]. rewrite HP.
    assert (Hrow : getitem2 [[1 - p; p]; [q; 1 - q]]%Q prev 1
                   = Ok (if prev =? 0 then p else 1 - q)%Q
                   /\ (0 <= (if prev =? 0 then p else 1 - q) <= 1)%Q).
    { destruct Hprev as [-> | ->]; (split; [reflexivity | cbn; lra]). }
    destruct Hrow as (-> & Hr). cbn [bind].
    unfold rng_binomial1. destruct Hr as [Hr0 Hr1].
    apply Qleb_true in Hr0, Hr1. rewrite Hr0, Hr1. cbn [andb bind].
    pose proof (next_binomial1_range (if prev =? 0 then p else (1 - q)%Q) g) as Hx.
    destruct (next_binomial1 _ g) as [x g1]. cbn [fst] in Hx.
    destruct (IH x g1 Hx) as (g' & ->). cbn [bind]. exists g'. reflexivity.
Qed.

Lemma markov_path_bits (p q : Q) (k : nat) :
  forall (prev : Z) (g : bitgen), Forall bit (markov_path p q prev k g).
Proof.
  induction k as [|k IH]; intros prev g; cbn [markov_path]; [constructor|].
  pose proof (next_binomial1_range (if prev =? 0 then p else (1 - q)%Q) g) as Hx.
  destruct (next_binomial1 _ g) as [x g1]. cbn [fst] in Hx.
  constructor; [exact Hx | apply IH].
Qed.

End Transitions.

(** On a constructed chain and for [N >= 1], the sequence starts with a
    draw of [binomial(1, p / (p + q))] and continues, draw by draw from the
    same generator, with [binomial(1, p)] after a 0 and
    [binomial(1, 1 - q)] after a 1.  The memory [np.empty] hands out never
    shows in the result. *)
Theorem TwoStateMarkovChain_generate_transitions {NP : Numpy}
  (p q : Q) (self : TwoStateMarkovChain.t) (N : Z) (seed : py_seed) (w : world) :
  TwoStateMarkovChain.init p q = Ok self ->
  1 <= N ->
  let start := next_binomial1 (p / (p + q))%Q (fst (default_rng seed w)) in
  fst (TwoStateMarkovChain.generate self N seed w)
  = Ok (fst start :: markov_path p q (fst start) (Z.to_nat (N - 1)) (snd start)).
Proof.
  intros Hinit HN. cbv zeta.
  rewrite TwoState_generate_outcome. cbn [fst]. unfold TwoState_outcome, np_size.
  destruct (Z.ltb_spec N 0); [lia|]. cbn [bind].
  pose proof (TwoState_init_inv _ _ _ Hinit) as (Hp & Hq & Hz & _ & Hpi).
  rewrite Hpi.
  change (getitem [(q / (p + q))%Q; (p / (p + q))%Q] 1) with (Ok (p / (p + q))%Q).
  cbn [bind].
  assert (Hshare : (0 <= p / (p + q) <= 1)%Q)
    by (apply share_in_unit_interval; tauto).
  unfold rng_binomial1. destruct Hshare as [H0 H1].
  apply Qleb_true in H0, H1. rewrite H0, H1. cbn [andb bind].
  pose proof (next_binomial1_range (p / (p + q))%Q (fst (default_rng seed w))) as Hx0.
  destruct (next_binomial1 (p / (p + q))%Q (fst (default_rng seed w))) as [x0 g1].
  cbn [fst snd] in *.
  replace (Z.to_nat N) with (S (Z.to_nat (N - 1))) by lia.
  destruct (chain_markov_path p q self (Z.to_nat (N - 1)) Hinit x0 g1 Hx0) as (g' & ->).
  cbn [bind].
  rewrite bits_pass_check by (constructor; [exact Hx0 | apply markov_path_bits]).
  reflexivity.
Qed.

(** [TwoStateMarkovChain(0.3, 0.4).generate(6, seed=5)] on the small
    generator. *)
Lemma TwoStateMarkovChain_generate_transitions_six :
  (TwoStateMarkovChain.init (3 # 10) (4 # 10)
   = Ok {| TwoStateMarkovChain.P := [[1 - (3 # 10); 3 # 10]; [4 # 10; 1 - (4 # 10)]]%Q;
           TwoStateMarkovChain.pi := [(4 # 10) / ((3 # 10) + (4 # 10));
                                      (3 # 10) / ((3 # 10) + (4 # 10))]%Q |}
   /\ 1 <= 6) /\
  fst (@TwoStateMarkovChain.generate Toy.numpy
         {| TwoStateMarkovChain.P := [[1 - (3 # 10); 3 # 10]; [4 # 10; 1 - (4 # 10)]]%Q;
            TwoStateMarkovChain.pi := [(4 # 10) / ((3 # 10) + (4 # 10));
                                       (3 # 10) / ((3 # 10) + (4 # 10))]%Q |}
         6 (Some 5%N) 7)
  = Ok (fst (@next_binomial1 Toy.numpy ((3 # 10) / ((3 # 10) + (4 # 10)))%Q 5)
        :: @markov_path Toy.numpy (3 # 10) (4 # 10)
             (fst (@next_binomial1 Toy.numpy ((3 # 10) / ((3 # 10) + (4 # 10)))%Q 5))
             5
             (snd (@next_binomial1 Toy.numpy ((3 # 10) / ((3 # 10) + (4 # 10)))%Q 5))).
Proof.
  split; [split; [reflexivity | lia]|].
  exact (@TwoStateMarkovChain_generate_transitions Toy.numpy (3 # 10) (4 # 10) _
           6 (Some 5%N) 7 eq_refl ltac:(lia)).
Defined.

(** ** Renewal: the truncation bounds, key by key *)

(** The constructor refuses a decay coefficient that is not above 1, and
    selects for [n] equal to 2, 3, 4 or 5 (as numbers: [2.0] is 2) the
    bounds listed in its [match]. *)
Theorem Renewal_init_table (n : Q) :
  (~ (1 < n)%Q -> Renewal.init n = Raise (AssertionError "")) /\
  ((n == 2)%Q ->
   Renewal.init n = Ok {| Renewal.n := n; Renewal.lim_f := 1413;
                          Renewal.lim_x_zero := 999998 |}) /\
  ((n == 3)%Q ->
   Renewal.init n = Ok {| Renewal.n := n; Renewal.lim_f := 180;
                          Renewal.lim_x_zero := 1412 |}) /\
  ((n == 4)%Q ->
   Renewal.init n = Ok {| Renewal.n := n; Renewal.lim_f := 68;
                          Renewal.lim_x_zero := 179 |}) /\
  ((n == 5)%Q ->
   Renewal.init n = Ok {| Renewal.n := n; Renewal.lim_f := 39;
                          Renewal.lim_x_zero := 67 |}).
Proof.
  assert (Hne : forall k : Q, ~ (n == k)%Q -> Qeqb n k = false).
  { intros k Hk. destruct (Qeqb n k) eqn:E; [|reflexivity].
    apply Qeqb_true in E. contradiction. }
  assert (Hlt : (1 < n)%Q -> Qltb 1 n = true) by apply Qltb_true.
  unfold Renewal.init, py_assert. split; [|split; [|split; [|split]]].
  - intros Hn. destruct (Qltb 1 n) eqn:E; [|reflexivity].
    apply Qltb_true in E. contradiction.
  - intros H. rewrite Hlt by lra. cbn [bind].
    apply Qeqb_true in H. now rewrite H.
  - intros H. rewrite Hlt by lra. cbn [bind].
    rewrite (Hne 2%Q) by lra. apply Qeqb_true in H. now rewrite H.
  - intros H. rewrite Hlt by lra. cbn [bind].
    rewrite (Hne 2%Q), (Hne 3%Q) by lra. apply Qeqb_true in H. now rewrite H.
  - intros H. rewrite Hlt by lra. cbn [bind].
    rewrite (Hne 2%Q), (Hne 3%Q), (Hne 4%Q) by lra. apply Qeqb_true in H. now rewrite H.
Qed.

(** [Renewal(4.0)], [Renewal(1)] and [Renewal(0.5)]. *)
Lemma Renewal_init_table_examples :
  Renewal.init (8 # 2)
  = Ok {| Renewal.n := 8 # 2; Renewal.lim_f := 68; Renewal.lim_x_zero := 179 |}
  /\ Renewal.init 1 = Raise (AssertionError "")
  /\ Renewal.init (1 # 2) = Raise (AssertionError "").
Proof.
  split; [|split].
  - exact (proj1 (proj2 (proj2 (proj2 (Renewal_init_table (8 # 2))))) ltac:(reflexivity)).
  - exact (proj1 (Renewal_init_table 1) ltac:(discriminate)).
  - exact (proj1 (Renewal_init_table (1 # 2)) ltac:(discriminate)).
Defined.

(** ** Longer runs extend shorter ones *)

Section Prefixes.

Context {NP : Numpy}.

Lemma draws_prefix {A : Type} (step : bitgen -> A * bitgen) (k : nat) :
  forall (n : nat) (g : bitgen),
    (k <= n)%nat -> fst (draws step k g) = firstn k (fst (draws step n g)).
Proof.
  induction k as [|k IH]; intros n g Hle; [reflexivity|].
  destruct n as [|n]; [lia|]. cbn [draws].
  destruct (step g) as [x g'].
  specialize (IH n g' ltac:(lia)).
  destruct (draws step k g') as [xs g1]. destruct (draws step n g') as [ys g2].
  cbn [fst firstn] in *. now rewrite IH.
Qed.

Lemma ar1_from_firstn (phi : Q) (k : nat) :
  forall (prev : Q) (es : list Q),
    firstn k (ar1_from phi prev es) = ar1_from phi prev (firstn k es).
Proof.
  induction k as [|k IH]; intros prev es; [reflexivity|].
  destruct es as [|e t]; [reflexivity|]. cbn [ar1_from firstn]. now rewrite IH.
Qed.

Lemma ar1_path_firstn (phi : Q) (k : nat) (es : list Q) :
  firstn k (ar1_path phi es) = ar1_path phi (firstn k es).
Proof.
  destruct k as [|k]; [reflexivity|]. destruct es as [|e t]; [reflexivity|].
  cbn [ar1_path firstn]. now rewrite ar1_from_firstn.
Qed.

Lemma chain_prefix (self : TwoStateMarkovChain.t) (k : nat) :
  forall (n : nat) (prev : Z) (g : bitgen) (rest : list Z) (g' : bitgen),
    (k <= n)%nat ->
    chain self prev n g = Ok (rest, g') ->
    exists g'', chain self prev k g = Ok (firstn k rest, g'').
Proof.
  induction k as [|k IH]; intros n prev g rest g' Hle Hn.
  - exists g. reflexivity.
  - destruct n as [|n]; [lia|]. cbn [chain] in *.
    destruct (getitem2 (TwoStateMarkovChain.P self) prev 1) as [p|e]; [|discriminate].
    cbn [bind] in *.
    destruct (rng_binomial1 p g) as [[x g1]|e]; [|discriminate]. cbn [bind] in *.
    destruct (chain self x n g1) as [[rest' g2]|e] eqn:Hrest; [|discriminate].
    cbn [bind] in Hn. injection Hn as <- <-.
    destruct (IH n x g1 rest' g2 ltac:(lia) Hrest) as (g'' & ->). cbn [bind].
    exists g''. reflexivity.
Qed.

End Prefixes.

(** With an explicit seed, a shorter run of the chain is the beginning of
    a longer one: [generate(M, seed) = generate(N, seed)[:M]] for
    [1 <= M <= N]. *)
Theorem TwoStateMarkovChain_generate_prefix {NP : Numpy}
  (p q : Q) (self : TwoStateMarkovChain.t) (M N : Z) (seed : BinNums.N) (w w' : world) :
  TwoStateMarkovChain.init p q = Ok self ->
  1 <= M <= N ->
  exists long,
    fst (TwoStateMarkovChain.generate self N (Some seed) w) = Ok long /\
    fst (TwoStateMarkovChain.generate self M (Some seed) w')
    = Ok (firstn (Z.to_nat M) long).
Proof.
  intros Hinit HMN.
  destruct (TwoState_generate_valid p q self N (Some seed) w Hinit ltac:(lia))
    as (long & Hlong & HlenN & Hbits).
  exists long. rewrite Hlong. split; [reflexivity|].
  apply (f_equal fst) in Hlong. cbn [fst] in Hlong.
  rewrite TwoState_generate_outcome in Hlong |- *. cbn [fst default_rng] in *.
  unfold TwoState_outcome, np_size in *.
  destruct (Z.ltb_spec N 0); [lia|]. destruct (Z.ltb_spec M 0); [lia|].
  cbn [bind] in *.
  destruct (getitem (TwoStateMarkovChain.pi self) 1) as [p0|e]; [|discriminate].
  cbn [bind] in *.
  destruct (rng_binomial1 p0 (seed_bitgen seed)) as [[x0 g1]|e]; [|discriminate].
  cbn [bind] in *.
  destruct (Z.to_nat N) as [|n] eqn:HN; [discriminate|].
  destruct (Z.to_nat M) as [|m] eqn:HM; [lia|].
  destruct (chain self x0 n g1) as [[rest g2]|e] eqn:Hrest; [|discriminate].
  cbn [bind] in Hlong.
  destruct (forallb (fun x => isin x [0; 1]) (x0 :: rest)); [|discriminate].
  cbn [py_assert bind] in Hlong. injection Hlong as <-.
  destruct (chain_prefix self m n x0 g1 rest g2 ltac:(lia) Hrest) as (g'' & ->).
  cbn [bind].
  assert (Hpre : Forall bit (x0 :: firstn m rest)).
  { change (x0 :: firstn m rest) with (firstn (S m) (x0 :: rest)).
    apply Forall_forall. intros x Hx. apply (proj1 (Forall_forall _ _) Hbits).
    rewrite <- (firstn_skipn (S m) (x0 :: rest)). apply in_or_app. now left. }
  rewrite (bits_pass_check _ Hpre). reflexivity.
Qed.

(** [generate(3, seed=5)] against [generate(6, seed=5)] on the small
    generator. *)
Lemma TwoStateMarkovChain_generate_prefix_three_of_six :
  (TwoStateMarkovChain.init (3 # 10) (4 # 10)
   = Ok {| TwoStateMarkovChain.P := [[1 - (3 # 10); 3 # 10]; [4 # 10; 1 - (4 # 10)]]%Q;
           TwoStateMarkovChain.pi := [(4 # 10) / ((3 # 10) + (4 # 10));
                                      (3 # 10) / ((3 # 10) + (4 # 10))]%Q |}
   /\ 1 <= 3 <= 6) /\
  exists long,
    fst (@TwoStateMarkovChain.generate Toy.numpy
           {| TwoStateMarkovChain.P := [[1 - (3 # 10); 3 # 10]; [4 # 10; 1 - (4 # 10)]]%Q;
              TwoStateMarkovChain.pi := [(4 # 10) / ((3 # 10) + (4 # 10));
                                         (3 # 10) / ((3 # 10) + (4 # 10))]%Q |}
           6 (Some 5%N) 7) = Ok long /\
    fst (@TwoStateMarkovChain.generate Toy.numpy
           {| TwoStateMarkovChain.P := [[1 - (3 # 10); 3 # 10]; [4 # 10; 1 - (4 # 10)]]%Q;
              TwoStateMarkovChain.pi := [(4 # 10) / ((3 # 10) + (4 # 10));
                                         (3 # 10) / ((3 # 10) + (4 # 10))]%Q |}
           3 (Some 5%N) 8) = Ok (firstn (Z.to_nat 3) long).
Proof.
  split; [split; [reflexivity | lia]|].
  exact (@TwoStateMarkovChain_generate_prefix Toy.numpy (3 # 10) (4 # 10) _ 3 6 5%N 7 8
           eq_refl ltac:(lia)).
Defined.

(** With an explicit seed, a shorter AR(1) run is the beginning of a
    longer one: [generate(M, seed) = generate(N, seed)[:M]] for
    [0 <= M <= N]. *)
Theorem AR1_generate_prefix {NP : Numpy}
  (self : AR1.t) (M N : Z) (seed : BinNums.N) (w w' : world) :
  0 <= M <= N ->
  exists long,
    fst (AR1.generate self N (Some seed) w) = Ok long /\
    fst (AR1.generate self M (Some seed) w') = Ok (firstn (Z.to_nat M) long).
Proof.
  intros HMN. rewrite !AR1_generate_path by lia. cbn [default_rng fst].
  eexists. split; [reflexivity|].
  rewrite ar1_path_firstn, <- draws_prefix by lia. reflexivity.
Qed.

(** [AR1(0.5).generate(2, seed=5)] against [generate(4, seed=5)] on the
    small generator. *)
Lemma AR1_generate_prefix_two_of_four :
  0 <= 2 <= 4 /\
  exists long,
    fst (@AR1.generate Toy.numpy {| AR1.phi := 1 # 2 |} 4 (Some 5%N) 7) = Ok long /\
    fst (@AR1.generate Toy.numpy {| AR1.phi := 1 # 2 |} 2 (Some 5%N) 8)
    = Ok (firstn (Z.to_nat 2) long).
Proof.
  split; [lia|].
  exact (@AR1_generate_prefix Toy.numpy {| AR1.phi := 1 # 2 |} 2 4 5%N 7 8 ltac:(lia)).
Defined.

(** ** CycleRandomWalk: stationarity, moves, short cycles *)

Lemma before_after (n i j : nat) :
  (i < n)%nat -> (j < n)%nat -> (before n i = j <-> i = after n j).
Proof.
  intros Hi Hj. unfold before, after.
  destruct i as [|k]; destruct (Nat.eqb_spec (S j) n); lia.
Qed.

Lemma ind_before_after (n i j : nat) :
  (i < n)%nat -> (j < n)%nat -> ind j (before n i) = ind i (after n j).
Proof.
  intros Hi Hj. unfold ind. pose proof (before_after n i j Hi Hj).
  destruct (Nat.eqb_spec j (before n i)); destruct (Nat.eqb_spec i (after n j));
    reflexivity || (exfalso; lia).
Qed.

Lemma ind_after_before (n i j : nat) :
  (i < n)%nat -> (j < n)%nat -> ind j (after n i) = ind i (before n j).
Proof.
  intros Hi Hj. unfold ind. pose proof (before_after n j i Hj Hi).
  destruct (Nat.eqb_spec j (after n i)); destruct (Nat.eqb_spec i (before n j));
    reflexivity || (exfalso; lia).
Qed.

Lemma ind_sym (i j : nat) : ind j i = ind i j.
Proof. unfold ind. rewrite Nat.eqb_sym. reflexivity. Qed.

Lemma Qsum_map_ext (g h : nat -> Q) (n : nat) :
  (forall i, (i < n)%nat -> (g i == h i)%Q) ->
  (Qsum (map g (seq 0 n)) == Qsum (map h (seq 0 n)))%Q.
Proof.
  intros H. apply Qsum_pointwise.
  - now rewrite length_map, length_seq.
  - intros j Hj. rewrite nth_map_seq by assumption. now apply H.
Qed.

Lemma Qsum_scale (c : Q) (g : nat -> Q) (l : list nat) :
  (Qsum (map (fun i => c * g i) l) == c * Qsum (map g l))%Q.
Proof. induction l as [|x l IH]; cbn [map Qsum]; [ring | rewrite IH; ring]. Qed.

(** Every column of the wrapped matrix sums to [b + s + f]. *)
Lemma wrapped_col_sum (n : nat) (b s f : Q) (j : nat) :
  (3 <= n)%nat -> (j < n)%nat -> (col_sum (wrapped n b s f) j == b + s + f)%Q.
Proof.
  intros Hn Hj. unfold col_sum. rewrite wrapped_length.
  rewrite (Qsum_map_ext _
             (fun i => ind i (after n j) * b + ind i j * s + ind i (before n j) * f)%Q).
  - rewrite Qsum_three_terms, !Qsum_ind.
    pose proof (before_lt n j ltac:(lia) Hj). pose proof (after_lt n j ltac:(lia) Hj).
    destruct (Nat.ltb_spec (before n j) n); [|lia].
    destruct (Nat.ltb_spec j n); [|lia].
    destruct (Nat.ltb_spec (after n j) n); [|lia]. lra.
  - intros i Hi. rewrite wrapped_entry by assumption.
    rewrite (ind_before_after n i j), (ind_after_before n i j), (ind_sym i j)
      by assumption.
    reflexivity.
Qed.

Section Walk.

Context {NP : Numpy}.

Lemma draws_Forall {A : Type} (step : bitgen -> A * bitgen) (R : A -> Prop) :
  (forall g, R (fst (step g))) ->
  forall (n : nat) (g : bitgen), Forall R (fst (draws step n g)).
Proof.
  intros Hstep. induction n as [|n IH]; intros g; cbn [draws].
  - constructor.
  - specialize (Hstep g). destruct (step g) as [x g']. specialize (IH g').
    destruct (draws step n g') as [xs g'']. cbn [fst] in *. now constructor.
Qed.

(** The checks of [rng.choice] pass on the two calls of [generate]. *)
Lemma initial_choice_ok (vertices : Z) :
  1 <= vertices ->
  choice_check (range 0 vertices) (repeat (1 / inject_Z vertices)%Q (Z.to_nat vertices))
  = Ok tt.
Proof.
  intros Hv. apply choice_check_ok.
  - intros E. apply (f_equal (@length Z)) in E. rewrite range_length in E.
    cbn [length] in E. lia.
  - rewrite range_length, repeat_length. f_equal. lia.
  - intros x Hx. apply repeat_spec in Hx. subst x.
    apply Qle_shift_div_l.
    + change 0%Q with (inject_Z 0). rewrite <- Zlt_Qlt. lia.
    + rewrite Qmult_0_l. discriminate.
  - rewrite Qsum_repeat.
    assert (Hone : (inject_Z (Z.of_nat (Z.to_nat vertices)) * (1 / inject_Z vertices) - 1
                    == 0)%Q).
    { rewrite Z2Nat.id by lia. field.
      intros E. unfold Qeq, inject_Z in E. cbn in E. lia. }
    rewrite Hone. discriminate.
Qed.

Lemma move_choice_ok (b s f : Q) :
  (0 <= b)%Q -> (0 <= s)%Q -> (0 <= f)%Q ->
  (Qabs (b + s + f - 1) < 1 # 1000000000000)%Q ->
  choice_check [-1; 0; 1] [b; s; f] = Ok tt.
Proof.
  intros Hb Hs Hf Hsum. apply choice_check_ok.
  - discriminate.
  - reflexivity.
  - intros x [<- | [<- | [<- | []]]]; assumption.
  - cbn [Qsum].
    assert (Heq : (b + (s + (f + 0)) - 1 == b + s + f - 1)%Q) by ring.
    rewrite Heq. apply Qlt_le_weak. eapply Qlt_le_trans; [exact Hsum|].
    unfold choice_atol. discriminate.
Qed.

(** What [generate] computes on a constructed walk: the initial vertex,
    the moves, and the running sum modulo [vertices]. *)
Lemma CycleRandomWalk_generate_walk (b s f : Q) (vertices : Z)
  (self : CycleRandomWalk.t) (N : Z) (seed : py_seed) (w : world) :
  CycleRandomWalk.init b s f vertices = Ok self ->
  fst (CycleRandomWalk.generate self N seed w)
  = (let start := next_choice (range 0 vertices) (CycleRandomWalk.pi self)
                    (fst (default_rng seed w)) in
     size <- np_size (N - 1) ;;
     Ok (map (fun x => x mod vertices)
           (cumsum (fst start
                    :: fst (draws (next_choice [-1; 0; 1] [b; s; f]) size (snd start)))))).
Proof.
  intros Hinit.
  apply CycleRandomWalk_init_inv in Hinit
    as (Hb & Hs & Hf & Hsum & Hv & Eb & Es & Ef & Hvert & Hpi).
  unfold CycleRandomWalk.generate. rewrite Hvert, Eb, Es, Ef.
  destruct (default_rng seed w) as [rng w']. cbn [fst].
  unfold rng_choice1, rng_choice. rewrite Hpi at 1.
  rewrite initial_choice_ok by assumption. cbn [bind].
  destruct (next_choice _ _ rng) as [x0 g1]. cbn [fst snd].
  rewrite move_choice_ok by assumption. cbn [bind].
  destruct (np_size (N - 1)) as [size|e]; [|reflexivity]. cbn [bind].
  destruct (draws _ size g1) as [moves g2]. cbn [fst].
  replace (forallb _ _) with true; [reflexivity|].
  symmetry. apply forallb_forall. intros y Hy.
  apply in_map_iff in Hy as (z & <- & _). apply isin_range.
  apply Z.mod_pos_bound. lia.
Qed.

End Walk.

Lemma cumsum_from_step (l : list Z) :
  forall (acc : Z) (i : nat) (x y : Z),
    nth_error (cumsum_from acc l) i = Some x ->
    nth_error (cumsum_from acc l) (S i) = Some y ->
    exists m, nth_error l (S i) = Some m /\ y = x + m.
Proof.
  induction l as [|a t IH]; intros acc i x y Hx Hy; [destruct i; discriminate|].
  cbn [cumsum_from] in *. destruct i as [|i].
  - cbn [nth_error] in Hx. injection Hx as <-. cbn [nth_error] in Hy |- *.
    destruct t as [|m t']; [discriminate|]. cbn [cumsum_from nth_error] in Hy.
    injection Hy as <-. exists m. split; reflexivity.
  - cbn [nth_error] in Hx. change (nth_error (a :: t) (S (S i))) with (nth_error t (S i)).
    apply (IH (acc + a) i x y Hx). exact Hy.
Qed.

(** The walk moves to a neighbour or stays: consecutive states differ by
    -1, 0 or +1 modulo [vertices], provided [rng.choice] returns an element
    of the array it chooses from. *)
Theorem CycleRandomWalk_generate_neighbours {NP : Numpy}
  (b s f : Q) (vertices : Z) (self : CycleRandomWalk.t)
  (N : Z) (seed : py_seed) (w : world) :
  (forall a p g, a <> [] -> In (fst (next_choice a p g)) a) ->
  CycleRandomWalk.init b s f vertices = Ok self ->
  1 <= N ->
  exists states,
    fst (CycleRandomWalk.generate self N seed w) = Ok states /\
    Z.of_nat (length states) = N /\
    forall (i : nat) (x y : Z),
      nth_error states i = Some x -> nth_error states (S i) = Some y ->
      y = (x - 1) mod vertices \/ y = x \/ y = (x + 1) mod vertices.
Proof.
  intros Hmember Hinit HN.
  rewrite (CycleRandomWalk_generate_walk b s f vertices self N seed w Hinit).
  apply CycleRandomWalk_init_inv in Hinit as (_ & _ & _ & _ & Hv & _).
  cbv zeta. unfold np_size. destruct (Z.ltb_spec (N - 1) 0); [lia|]. cbn [bind].
  destruct (next_choice (range 0 vertices) _ _) as [x0 g1]. cbn [fst snd].
  pose proof (draws_length (next_choice [-1; 0; 1] [b; s; f]) (Z.to_nat (N - 1)) g1)
    as Hlen.
  pose proof (draws_Forall (next_choice [-1; 0; 1] [b; s; f])
                (fun m => In m [-1; 0; 1])
                (fun g => Hmember [-1; 0; 1] [b; s; f] g ltac:(discriminate)) (Z.to_nat (N - 1)) g1)
    as Hmoves.
  destruct (draws _ (Z.to_nat (N - 1)) g1) as [moves g2]. cbn [fst] in *.
  eexists. split; [reflexivity|]. split.
  { rewrite length_map. unfold cumsum. rewrite cumsum_from_length. cbn [length]. lia. }
  intros i x y Hx Hy. rewrite nth_error_map in Hx, Hy.
  destruct (nth_error (cumsum (x0 :: moves)) i) as [cx|] eqn:Ex; [|discriminate].
  destruct (nth_error (cumsum (x0 :: moves)) (S i)) as [cy|] eqn:Ey; [|discriminate].
  cbn [option_map] in Hx, Hy. injection Hx as <-. injection Hy as <-.
  destruct (cumsum_from_step _ _ _ _ _ Ex Ey) as (m & Hm & ->).
  cbn [nth_error] in Hm. apply nth_error_In in Hm.
  rewrite Forall_forall in Hmoves. specialize (Hmoves m Hm).
  destruct Hmoves as [<- | [<- | [<- | []]]].
  - left. unfold Z.sub. rewrite Zplus_mod_idemp_l. reflexivity.
  - right. left. rewrite Z.add_0_r. reflexivity.
  - right. right. rewrite Zplus_mod_idemp_l. reflexivity.
Qed.

Lemma toy_choice_member (a : list Z) (p : list Q) (g : Z) :
  a <> [] -> In (fst (Toy.toy_choice a p g)) a.
Proof.
  intros Ha. unfold Toy.toy_choice. cbn [fst]. apply nth_In.
  assert (0 < Z.of_nat (length a)) by (destruct a; [contradiction | cbn [length]; lia]).
  pose proof (Z.mod_pos_bound g (Z.of_nat (length a)) ltac:(lia)). lia.
Qed.

(** [CycleRandomWalk(0.25, 0.5, 0.25, 4).generate(8, seed=5)] on the small
    generator, whose [choice] picks an element of its array. *)
Lemma CycleRandomWalk_generate_neighbours_eight :
  (forall a p g, a <> [] -> In (fst (@next_choice Toy.numpy a p g)) a) /\
  exists states,
    fst (@CycleRandomWalk.generate Toy.numpy
           {| CycleRandomWalk.P := wrapped 4 (1 # 4) (1 # 2) (1 # 4);
              CycleRandomWalk.pi := repeat (1 / inject_Z 4)%Q 4;
              CycleRandomWalk.b := 1 # 4;
              CycleRandomWalk.s := 1 # 2;
              CycleRandomWalk.f := 1 # 4;
              CycleRandomWalk.vertices := 4 |} 8 (Some 5%N) 7) = Ok states /\
    Z.of_nat (length states) = 8 /\
    forall (i : nat) (x y : Z),
      nth_error states i = Some x -> nth_error states (S i) = Some y ->
      y = (x - 1) mod 4 \/ y = x \/ y = (x + 1) mod 4.
Proof.
  split; [exact toy_choice_member|].
  refine (@CycleRandomWalk_generate_neighbours Toy.numpy (1 # 4) (1 # 2) (1 # 4) 4
            _ 8 (Some 5%N) 7 toy_choice_member _ ltac:(lia)).
  apply CycleRandomWalk_init_ok; try (split; discriminate); try reflexivity; lia.
Defined.

Lemma probability_test (x : Q) : Qleb 0 x && Qleb x 1 = true <-> probability x.
Proof. unfold probability. rewrite andb_true_iff, !Qleb_true. tauto. Qed.

(** With probabilities in [0, 1] whose sum is within [1e-13] of 1 (so that
    the assertion on the sum passes in doubles as well), a cycle of no
    vertex is refused on the first wrap-around assignment ([IndexError])
    and a negative vertex count by [np.eye] ([ValueError]). *)
Theorem CycleRandomWalk_init_no_vertex (b s f : Q) (vertices : Z) :
  probability b -> probability s -> probability f ->
  (Qabs (b + s + f - 1) <= 1 # 10000000000000)%Q ->
  (vertices = 0 -> CycleRandomWalk.init b s f vertices = Raise IndexError) /\
  (vertices < 0 -> exists msg,
     CycleRandomWalk.init b s f vertices = Raise (ValueError msg)).
Proof.
  intros Hb Hs Hf Hsum. unfold CycleRandomWalk.init, CycleRandomWalk.check_probabilities, py_assert.
  apply probability_test in Hb, Hs, Hf. rewrite Hb, Hs, Hf.
  assert (Hlt : (Qabs (b + s + f - 1) < 1 # 1000000000000)%Q)
    by (eapply Qle_lt_trans; [exact Hsum | reflexivity]).
  apply Qltb_true in Hlt. rewrite Hlt. cbn [bind]. split.
  - intros ->. reflexivity.
  - intros Hv. unfold np_size. destruct (Z.ltb_spec vertices 0); [|lia].
    eexists. reflexivity.
Qed.

(** [CycleRandomWalk(0.25, 0.5, 0.25, vertices)] for [vertices = 0] and
    [vertices = -3]. *)
Lemma CycleRandomWalk_init_no_vertex_examples :
  (probability (1 # 4) /\ probability (1 # 2) /\
   (Qabs ((1 # 4) + (1 # 2) + (1 # 4) - 1) <= 1 # 10000000000000)%Q) /\
  CycleRandomWalk.init (1 # 4) (1 # 2) (1 # 4) 0 = Raise IndexError /\
  exists msg, CycleRandomWalk.init (1 # 4) (1 # 2) (1 # 4) (-3) = Raise (ValueError msg).
Proof.
  assert (Hq : probability (1 # 4)) by (split; discriminate).
  assert (Hh : probability (1 # 2)) by (split; discriminate).
  assert (Hsum : (Qabs ((1 # 4) + (1 # 2) + (1 # 4) - 1) <= 1 # 10000000000000)%Q)
    by discriminate.
  split; [exact (conj Hq (conj Hh Hsum))|]. split.
  - exact (proj1 (CycleRandomWalk_init_no_vertex _ _ _ 0 Hq Hh Hq Hsum) eq_refl).
  - exact (proj2 (CycleRandomWalk_init_no_vertex _ _ _ (-3) Hq Hh Hq Hsum) eq_refl).
Defined.



(** What a successful construction leaves in [P], for any vertex count. *)
Lemma CycleRandomWalk_init_matrix (b s f : Q) (vertices : Z) (self : CycleRandomWalk.t) :
  CycleRandomWalk.init b s f vertices = Ok self ->
  CycleRandomWalk.P self = wrapped (Z.to_nat vertices) b s f /\
  allclose (row_sums (wrapped (Z.to_nat vertices) b s f)) 1 = true.
Proof.
  intros Hinit.
  pose proof (CycleRandomWalk_init_inv _ _ _ _ _ Hinit) as (_ & _ & _ & _ & Hv & _).
  revert Hinit. unfold CycleRandomWalk.init, CycleRandomWalk.check_probabilities, py_assert.
  destruct (Qleb 0 b && Qleb b 1); [|discriminate].
  destruct (Qleb 0 s && Qleb s 1); [|discriminate].
  destruct (Qleb 0 f && Qleb f 1); [|discriminate].
  destruct (Qltb _ _); [|discriminate]. cbn [bind].
  unfold np_size. destruct (Z.ltb_spec vertices 0); [lia|]. cbn [bind].
  rewrite band_matrix.
  pose proof (wrap_assignments (Z.to_nat vertices) b s f ltac:(lia)) as Hwrap.
  destruct (setitem2 _ 0 (-1) b) as [P1|err]; cbn [bind] in Hwrap |- *;
    [|discriminate].
  rewrite Hwrap. cbn [bind].
  destruct (allclose (row_sums (wrapped (Z.to_nat vertices) b s f)) 1); [|discriminate].
  cbn [bind].
  destruct (py_div 1 (inject_Z vertices)) as [share|e]; [|discriminate]. cbn [bind].
  destruct (np_repeat share vertices) as [pi|e]; [|discriminate]. cbn [bind].
  intros [= <-]. split; reflexivity.
Qed.

(** On a constructed walk of three vertices or more, [pi] is the uniform
    distribution on the vertices, every column of [P] sums to [b + s + f],
    and [pi P] is [(b + s + f) pi]: [pi] is stationary for [P] up to the
    distance of [b + s + f] from 1, which the constructor's assertion on
    the sum keeps small. *)
Theorem CycleRandomWalk_init_uniform_stationary (b s f : Q) (vertices : Z)
  (self : CycleRandomWalk.t) :
  CycleRandomWalk.init b s f vertices = Ok self ->
  3 <= vertices ->
  let n := Z.to_nat vertices in
  let P := CycleRandomWalk.P self in
  let pi := CycleRandomWalk.pi self in
  length pi = n /\
  (forall j, (j < n)%nat -> nth j pi 0%Q = (1 / inject_Z vertices)%Q) /\
  (Qsum pi == 1)%Q /\
  (forall j, (j < n)%nat -> (col_sum P j == b + s + f)%Q) /\
  (forall j, (j < n)%nat ->
     (vec_mat pi P j == (b + s + f) * nth j pi 0)%Q /\
     (Qabs (vec_mat pi P j - nth j pi 0)
      == Qabs (b + s + f - 1) * nth j pi 0)%Q).
Proof.
  intros Hinit Hv.
  pose proof (CycleRandomWalk_init_inv _ _ _ _ _ Hinit)
    as (_ & _ & _ & _ & _ & _ & _ & _ & _ & Hpi).
  apply CycleRandomWalk_init_matrix in Hinit as [HP _].
  cbv zeta. rewrite HP, Hpi.
  set (n := Z.to_nat vertices). set (share := (1 / inject_Z vertices)%Q).
  assert (Hn : (3 <= n)%nat) by (unfold n; lia).
  assert (Hvq : ~ (inject_Z vertices == 0)%Q).
  { intros E. unfold Qeq, inject_Z in E. cbn in E. lia. }
  assert (Hnth : forall j, (j < n)%nat -> nth j (repeat share n) 0%Q = share).
  { intros j Hj. apply nth_repeat_lt. exact Hj. }
  assert (Hshare : (0 <= share)%Q).
  { unfold share. apply Qle_shift_div_l; [|rewrite Qmult_0_l; discriminate].
    change 0%Q with (inject_Z 0). rewrite <- Zlt_Qlt. lia. }
  assert (Hvec : forall j, (j < n)%nat ->
            (vec_mat (repeat share n) (wrapped n b s f) j == (b + s + f) * share)%Q).
  { intros j Hj. unfold vec_mat. rewrite repeat_length.
    rewrite (Qsum_map_ext _ (fun i => share * entry (wrapped n b s f) i j)%Q).
    - rewrite Qsum_scale.
      pose proof (wrapped_col_sum n b s f j Hn Hj) as Hcol.
      unfold col_sum in Hcol. rewrite wrapped_length in Hcol. rewrite Hcol. ring.
    - intros i Hi. rewrite Hnth by assumption. reflexivity. }
  split; [apply repeat_length|]. split; [exact Hnth|]. split.
  { rewrite Qsum_repeat. unfold n, share. rewrite Z2Nat.id by lia. field. exact Hvq. }
  split; [intros j Hj; now apply wrapped_col_sum|].
  intros j Hj. rewrite (Hnth j Hj). split; [now apply Hvec|].
  rewrite (Hvec j Hj).
  assert (Heq : ((b + s + f) * share - share == (b + s + f - 1) * share)%Q) by ring.
  rewrite Heq, Qabs_Qmult.
  rewrite (Qabs_pos share) by exact Hshare. reflexivity.
Qed.

(** [CycleRandomWalk(0.25, 0.5, 0.25, 4)]: [pi] is [[0.25] * 4] and
    [pi P = pi]. *)
Lemma CycleRandomWalk_init_uniform_stationary_four :
  exists self,
    (CycleRandomWalk.init (1 # 4) (1 # 2) (1 # 4) 4 = Ok self /\ 3 <= 4) /\
    CycleRandomWalk.pi self = [1 # 4; 1 # 4; 1 # 4; 1 # 4] /\
    length (CycleRandomWalk.pi self) = 4%nat /\
    (forall j, (j < 4)%nat -> nth j (CycleRandomWalk.pi self) 0%Q = (1 / inject_Z 4)%Q) /\
    (Qsum (CycleRandomWalk.pi self) == 1)%Q /\
    (forall j, (j < 4)%nat ->
       (col_sum (CycleRandomWalk.P self) j == (1 # 4) + (1 # 2) + (1 # 4))%Q) /\
    (forall j, (j < 4)%nat ->
       (vec_mat (CycleRandomWalk.pi self) (CycleRandomWalk.P self) j
        == ((1 # 4) + (1 # 2) + (1 # 4)) * nth j (CycleRandomWalk.pi self) 0)%Q /\
       (Qabs (vec_mat (CycleRandomWalk.pi self) (CycleRandomWalk.P self) j
              - nth j (CycleRandomWalk.pi self) 0)
        == Qabs ((1 # 4) + (1 # 2) + (1 # 4) - 1) * nth j (CycleRandomWalk.pi self) 0)%Q).
Proof.
  eexists. split; [split; [reflexivity | lia]|]. split; [reflexivity|].
  exact (CycleRandomWalk_init_uniform_stationary (1 # 4) (1 # 2) (1 # 4) 4 _
           eq_refl ltac:(lia)).
Defined.

(** For three vertices or more: probabilities in [0, 1] whose sum is
    within [1e-13] of 1 construct a walk (the margin leaves room for the
    rounding of [b + s + f] in doubles), and every constructed walk holds a
    [vertices x vertices] matrix with [b] on the sub-diagonal, [s] on the
    diagonal, [f] on the super-diagonal, [b] in the top-right cell, [f] in
    the bottom-left cell and 0 in every other cell, in which every row sums
    to [b + s + f]. *)
Theorem CycleRandomWalk_init_cycle_matrix (b s f : Q) (vertices : Z) :
  3 <= vertices ->
  ((0 <= b <= 1)%Q -> (0 <= s <= 1)%Q -> (0 <= f <= 1)%Q ->
   (Qabs (b + s + f - 1) <= 1 # 10000000000000)%Q ->
   exists self, CycleRandomWalk.init b s f vertices = Ok self) /\
  (forall self,
     CycleRandomWalk.init b s f vertices = Ok self ->
     CycleRandomWalk.vertices self = vertices /\
     let n := Z.to_nat vertices in
     let P := CycleRandomWalk.P self in
     length P = n /\
     (forall i, (i < n)%nat -> length (nth i P []) = n) /\
     (forall i, (1 <= i < n)%nat -> (entry P i (i - 1) == b)%Q) /\
     (forall i, (i < n)%nat -> (entry P i i == s)%Q) /\
     (forall i, (i + 1 < n)%nat -> (entry P i (i + 1) == f)%Q) /\
     (entry P 0 (n - 1) == b)%Q /\
     (entry P (n - 1) 0 == f)%Q /\
     (forall i j, (i < n)%nat -> (j < n)%nat ->
        j <> before n i -> j <> i -> j <> after n i -> (entry P i j == 0)%Q) /\
     (forall i, (i < n)%nat -> (Qsum (nth i P []) == b + s + f)%Q)).
Proof.
  intros Hv. split.
  { intros Hb Hs Hf Hsum. eexists.
    apply CycleRandomWalk_init_ok; try assumption.
    eapply Qle_lt_trans; [exact Hsum | reflexivity]. }
  intros self Hinit.
  pose proof (CycleRandomWalk_init_inv _ _ _ _ _ Hinit)
    as (_ & _ & _ & _ & _ & _ & _ & _ & Hvertices & _).
  apply CycleRandomWalk_init_matrix in Hinit as [HP _].
  split; [exact Hvertices|]. cbv zeta. rewrite HP.
  set (n := Z.to_nat vertices). assert (Hn : (3 <= n)%nat) by (unfold n; lia).
  split; [apply wrapped_length|].
  split; [intros i Hi; now apply wrapped_row_length|].
  split; [|split; [|split; [|split; [|split; [|split]]]]].
  - intros i Hi. rewrite wrapped_entry by lia. unfold ind, before, after.
    destruct i as [|i]; [lia|]. cbn [Nat.sub]. rewrite Nat.sub_0_r, Nat.eqb_refl.
    destruct (Nat.eqb_spec (S (S i)) n); split_tests; try lia; lra.
  - intros i Hi. rewrite wrapped_entry by lia. unfold ind, before, after.
    rewrite Nat.eqb_refl.
    destruct (Nat.eqb_spec (S i) n); destruct i; split_tests; try lia; lra.
  - intros i Hi. rewrite wrapped_entry by lia. unfold ind, before, after.
    destruct (Nat.eqb_spec (S i) n); [lia|].
    destruct i; split_tests; try lia; lra.
  - rewrite wrapped_entry by lia. unfold ind, before, after.
    destruct (Nat.eqb_spec 1 n); [lia|]. split_tests; try lia; lra.
  - rewrite wrapped_entry by lia. unfold ind, before, after.
    destruct (Nat.eqb_spec (S (n - 1)) n); [|lia].
    destruct (n - 1)%nat eqn:E; [lia|]. split_tests; try lia; lra.
  - intros i j Hi Hj Hb' Hs' Hf'. rewrite wrapped_entry by lia. unfold ind.
    destruct (Nat.eqb_spec j (before n i)); [contradiction|].
    destruct (Nat.eqb_spec j i); [contradiction|].
    destruct (Nat.eqb_spec j (after n i)); [contradiction|]. lra.
  - intros i Hi. now apply wrapped_row_sum.
Qed.

(** The construction on four vertices. *)
Lemma CycleRandomWalk_init_four_vertices :
  (3 <= 4 /\ (0 <= 1 # 4 <= 1)%Q /\ (0 <= 1 # 2 <= 1)%Q /\
   (Qabs ((1 # 4) + (1 # 2) + (1 # 4) - 1) <= 1 # 10000000000000)%Q) /\
  CycleRandomWalk.init (1 # 4) (1 # 2) (1 # 4) 4
  = Ok {| CycleRandomWalk.P :=
            [[16 # 32; 8 # 32; 0 # 32; 1 # 4];
             [8 # 32; 16 # 32; 8 # 32; 0 # 32];
             [0 # 32; 8 # 32; 16 # 32; 8 # 32];
             [1 # 4; 0 # 32; 8 # 32; 16 # 32]];
          CycleRandomWalk.pi := [1 # 4; 1 # 4; 1 # 4; 1 # 4];
          CycleRandomWalk.b := 1 # 4;
          CycleRandomWalk.s := 1 # 2;
          CycleRandomWalk.f := 1 # 4;
          CycleRandomWalk.vertices := 4 |} /\
  (exists self, CycleRandomWalk.init (1 # 4) (1 # 2) (1 # 4) 4 = Ok self) /\
  (forall self,
     CycleRandomWalk.init (1 # 4) (1 # 2) (1 # 4) 4 = Ok self ->
     CycleRandomWalk.vertices self = 4 /\
     length (CycleRandomWalk.P self) = 4%nat /\
     (forall i, (i < 4)%nat -> length (nth i (CycleRandomWalk.P self) []) = 4%nat) /\
     (forall i, (1 <= i < 4)%nat -> (entry (CycleRandomWalk.P self) i (i - 1) == 1 # 4)%Q) /\
     (forall i, (i < 4)%nat -> (entry (CycleRandomWalk.P self) i i == 1 # 2)%Q) /\
     (forall i, (i + 1 < 4)%nat -> (entry (CycleRandomWalk.P self) i (i + 1) == 1 # 4)%Q) /\
     (entry (CycleRandomWalk.P self) 0 3 == 1 # 4)%Q /\
     (entry (CycleRandomWalk.P self) 3 0 == 1 # 4)%Q /\
     (forall i j, (i < 4)%nat -> (j < 4)%nat ->
        j <> before 4 i -> j <> i -> j <> after 4 i ->
        (entry (CycleRandomWalk.P self) i j == 0)%Q) /\
     (forall i, (i < 4)%nat ->
        (Qsum (nth i (CycleRandomWalk.P self) []) == (1 # 4) + (1 # 2) + (1 # 4))%Q)).
Proof.
  assert (Hq : (0 <= 1 # 4 <= 1)%Q) by (split; discriminate).
  assert (Hh : (0 <= 1 # 2 <= 1)%Q) by (split; discriminate).
  assert (Hsum : (Qabs ((1 # 4) + (1 # 2) + (1 # 4) - 1) <= 1 # 10000000000000)%Q)
    by discriminate.
  split; [split; [lia | exact (conj Hq (conj Hh Hsum))]|].
  split; [reflexivity|].
  destruct (CycleRandomWalk_init_cycle_matrix (1 # 4) (1 # 2) (1 # 4) 4 ltac:(lia))
    as [Hbuild Hshape].
  split; [exact (Hbuild Hq Hh Hq Hsum) | exact Hshape].
Defined.



(** On a constructed walk, [generate(N)] with [N <= 0] asks [rng.choice]
    for a negative number of moves and raises [ValueError]. *)
Theorem CycleRandomWalk_generate_no_length {NP : Numpy}
  (b s f : Q) (vertices : Z) (self : CycleRandomWalk.t)
  (N : Z) (seed : py_seed) (w : world) :
  CycleRandomWalk.init b s f vertices = Ok self ->
  N <= 0 ->
  exists msg, fst (CycleRandomWalk.generate self N seed w) = Raise (ValueError msg).
Proof.
  intros Hinit HN.
  rewrite (CycleRandomWalk_generate_walk b s f vertices self N seed w Hinit).
  cbv zeta. unfold np_size. destruct (Z.ltb_spec (N - 1) 0); [|lia].
  eexists. reflexivity.
Qed.

(** [CycleRandomWalk(0.25, 0.5, 0.25, 4).generate(0, seed=5)] on the small
    generator. *)
Lemma CycleRandomWalk_generate_no_length_zero :
  0 <= 0 /\
  exists msg,
    fst (@CycleRandomWalk.generate Toy.numpy
           {| CycleRandomWalk.P := wrapped 4 (1 # 4) (1 # 2) (1 # 4);
              CycleRandomWalk.pi := repeat (1 / inject_Z 4)%Q 4;
              CycleRandomWalk.b := 1 # 4;
              CycleRandomWalk.s := 1 # 2;
              CycleRandomWalk.f := 1 # 4;
              CycleRandomWalk.vertices := 4 |} 0 (Some 5%N) 7)
    = Raise (ValueError msg).
Proof.
  split; [lia|].
  refine (@CycleRandomWalk_generate_no_length Toy.numpy (1 # 4) (1 # 2) (1 # 4) 4
            _ 0 (Some 5%N) 7 _ ltac:(lia)).
  apply CycleRandomWalk_init_ok; try (split; discriminate); try reflexivity; lia.
Defined.

(** ** Renewal: truncated gaps, empty runs, the closed-form sampler *)






(** Both renewal samplers read [uniform_sample[0]]: on [N = 0] the sample
    is empty and they raise [IndexError]; a negative [N] is refused by
    [rng.uniform]. *)
Theorem Renewal_generate_no_length
  {NP : Numpy} {SP : ScipySpecial} {NM : NumpyMath}
  (self : Renewal.t) (N : Z) (seed : py_seed) (w : world) :
  (N = 0 ->
   fst (Renewal.generate self N seed w) = Raise IndexError /\
   fst (_Renewal.generate N seed w) = Raise IndexError) /\
  (N < 0 ->
   exists msg,
     fst (Renewal.generate self N seed w) = Raise (ValueError msg) /\
     fst (_Renewal.generate N seed w) = Raise (ValueError msg)).
Proof.
  unfold Renewal.generate, _Renewal.generate, rng_uniform, np_size.
  destruct (default_rng seed w) as [rng w']. cbn [fst]. split.
  - intros ->. split; reflexivity.
  - intros HN. destruct (Z.ltb_spec N 0); [|lia]. eexists. split; reflexivity.
Qed.

(** [Renewal(3).generate(0, seed)] and [_Renewal().generate(0, seed)] on
    the small implementations. *)
Lemma Renewal_generate_no_length_zero :
  fst (@Renewal.generate Toy.numpy Toy.scipy_special
         {| Renewal.n := 3; Renewal.lim_f := 180; Renewal.lim_x_zero := 1412 |}
         0 (Some 250%N) 7) = Raise IndexError /\
  fst (@_Renewal.generate Toy.numpy Toy.numpy_math 0 (Some 250%N) 7) = Raise IndexError.
Proof.
  exact (proj1 (@Renewal_generate_no_length Toy.numpy Toy.scipy_special Toy.numpy_math
                  {| Renewal.n := 3; Renewal.lim_f := 180; Renewal.lim_x_zero := 1412 |}
                  0 (Some 250%N) 7) eq_refl).
Defined.

(** The closed-form sampler returns, for every [N >= 1] and every seed,
    [N] values that are 1 exactly at the indices that are arrival times
    and 0 elsewhere. *)
Theorem Renewal_closed_form_marks_arrivals {NP : Numpy} {NM : NumpyMath}
  (N : Z) (seed : py_seed) (w : world) :
  1 <= N ->
  exists x_cumsum out,
    _Renewal.arrival_times N seed w = Ok x_cumsum /\
    Z.of_nat (length x_cumsum) = N /\
    fst (_Renewal.generate N seed w) = Ok out /\
    Z.of_nat (length out) = N /\
    forall k : nat, Z.of_nat k < N ->
      exists v, nth_error out k = Some v /\
                (v = 1 <-> In (Z.of_nat k) x_cumsum) /\
                (v = 0 <-> ~ In (Z.of_nat k) x_cumsum).
Proof.
  intros HN. rewrite _Renewal_generate_arrivals.
  unfold _Renewal.arrival_times, rng_uniform, np_size.
  destruct (Z.ltb_spec N 0); [lia|]. cbn [bind].
  pose proof (draws_length (next_uniform 0 (999999 # 1000000)) (Z.to_nat N)
                (fst (default_rng seed w))) as Hlen.
  destruct (draws _ (Z.to_nat N) (fst (default_rng seed w))) as [us g].
  cbn [fst] in Hlen. destruct us as [|u0 us]; cbn [length] in Hlen; [lia|].
  unfold _Renewal.gaps. change (getitem (u0 :: us) 0) with (Ok u0). cbn [bind skipn].
  eexists. eexists. split; [reflexivity|]. split.
  { unfold cumsum. rewrite cumsum_from_length. cbn [length]. rewrite length_map. lia. }
  split; [reflexivity|]. split; [rewrite length_map, range_length; lia|].
  intros k Hk. rewrite nth_error_map, range_nth_error by lia. cbn [option_map Z.add].
  eexists. split; [reflexivity|].
  destruct (isin (Z.of_nat k) _) eqn:E.
  - apply isin_In in E. split; split; intros; try reflexivity; try assumption;
      try discriminate; contradiction.
  - assert (~ In (Z.of_nat k)
               (cumsum (_Renewal._inverse_cdf_x_zero u0
                        :: map _Renewal._inverse_cdf_f us)))
      by (intros Hin; apply isin_In in Hin; congruence).
    split; split; intros; try reflexivity; try assumption; try discriminate;
      contradiction.
Qed.

(** [_Renewal().generate(4, seed)] on the small implementations. *)
Lemma Renewal_closed_form_marks_arrivals_four :
  1 <= 4 /\
  exists x_cumsum out,
    @_Renewal.arrival_times Toy.numpy Toy.numpy_math 4 (Some 250%N) 7 = Ok x_cumsum /\
    fst (@_Renewal.generate Toy.numpy Toy.numpy_math 4 (Some 250%N) 7) = Ok out /\
    Z.of_nat (length out) = 4.
Proof.
  split; [lia|].
  destruct (@Renewal_closed_form_marks_arrivals Toy.numpy Toy.numpy_math
              4 (Some 250%N) 7 ltac:(lia))
    as (x_cumsum & out & Harr & _ & Hgen & Hlen & _).
  exists x_cumsum, out. exact (conj Harr (conj Hgen Hlen)).
Defined.

(** ** Renewal: which arrival times the output misses *)

Lemma increasing_from (x : list Z) :
  (forall i a b, nth_error x i = Some a -> nth_error x (S i) = Some b -> a < b) ->
  forall (d i : nat) (a b : Z),
    nth_error x i = Some a -> nth_error x (i + S d) = Some b -> a < b.
Proof.
  intros Hinc. induction d as [|d IH]; intros i a b Ha Hb.
  - replace (i + 1)%nat with (S i) in Hb by lia. exact (Hinc i a b Ha Hb).
  - replace (i + S (S d))%nat with (S (i + S d)) in Hb by lia.
    destruct (nth_error x (i + S d)) as [c|] eqn:Hc.
    + pose proof (IH i a c Ha Hc). pose proof (Hinc _ _ _ Hc Hb). lia.
    + apply nth_error_None in Hc.
      assert (nth_error x (S (i + S d)) = None) by (apply nth_error_None; lia).
      congruence.
Qed.

Lemma increasing_above_index (x : list Z) :
  (forall a, nth_error x 0 = Some a -> 0 <= a) ->
  (forall i a b, nth_error x i = Some a -> nth_error x (S i) = Some b -> a < b) ->
  forall (j : nat) (a : Z), nth_error x j = Some a -> Z.of_nat j <= a.
Proof.
  intros H0 Hinc. induction j as [|j IH]; intros a Ha.
  - cbn [Z.of_nat]. exact (H0 a Ha).
  - destruct (nth_error x j) as [c|] eqn:Hc.
    + pose proof (IH c eq_refl). pose proof (Hinc j c a Hc Ha). lia.
    + apply nth_error_None in Hc.
      assert (nth_error x (S j) = None) by (apply nth_error_None; lia).
      congruence.
Qed.

(** When the arrival times increase strictly (every gap after the first is
    at least 1), [Renewal.generate] marks an index [k] exactly when [k] is
    an arrival time other than the [k]-th one: the arrival times it misses
    are those with [x_cumsum[k] = k], the initial run 0, 1, 2, ... of
    arrivals that follow a first gap of 0 by gaps of 1. *)
Theorem Renewal_generate_misses_initial_run {NP : Numpy} {SP : ScipySpecial}
  (n : Q) (self : Renewal.t) (N : Z) (seed : py_seed) (w : world) (x_cumsum : list Z) :
  Renewal.init n = Ok self ->
  1 <= N ->
  Renewal.arrival_times self N seed w = Ok x_cumsum ->
  (forall a, nth_error x_cumsum 0 = Some a -> 0 <= a) ->
  (forall i a b, nth_error x_cumsum i = Some a -> nth_error x_cumsum (S i) = Some b ->
                 a < b) ->
  exists out,
    fst (Renewal.generate self N seed w) = Ok out /\
    Z.of_nat (length out) = N /\
    forall k : nat, Z.of_nat k < N ->
      exists v xk,
        nth_error out k = Some v /\
        nth_error x_cumsum k = Some xk /\
        (v = 1 <-> In (Z.of_nat k) x_cumsum /\ xk <> Z.of_nat k) /\
        (v = 0 <-> ~ In (Z.of_nat k) x_cumsum \/ xk = Z.of_nat k).
Proof.
  intros Hinit HN Harr H0 Hinc.
  destruct (Renewal_generate_total n self N seed w Hinit HN)
    as (xc & out & Harr' & Hlen & _ & _ & _ & _).
  rewrite Harr in Harr'. injection Harr' as <-.
  rewrite Renewal_generate_arrivals, Harr. cbn [bind].
  eexists. split; [reflexivity|]. split; [rewrite length_map, range_length; lia|].
  intros k Hk. rewrite nth_error_map, range_nth_error by lia. cbn [option_map Z.add].
  destruct (nth_error x_cumsum k) as [xk|] eqn:Hxk;
    [|apply nth_error_None in Hxk; lia].
  eexists. exists xk. split; [reflexivity|]. split; [reflexivity|].
  unfold Renewal.mark. rewrite Nat2Z.id.
  assert (Hearlier : In (Z.of_nat k) (firstn k x_cumsum)
                     <-> In (Z.of_nat k) x_cumsum /\ xk <> Z.of_nat k).
  { split.
    - intros Hin. split.
      + rewrite <- (firstn_skipn k x_cumsum). apply in_or_app. now left.
      + apply In_nth_error in Hin as (j & Hj). rewrite nth_error_firstn in Hj.
        destruct (Nat.ltb_spec j k) as [Hjk|]; [|discriminate].
        pose proof (increasing_from x_cumsum Hinc (k - j - 1) j (Z.of_nat k) xk Hj) as Hlt.
        replace (j + S (k - j - 1))%nat with k in Hlt by lia.
        specialize (Hlt Hxk). lia.
    - intros [Hin Hne]. apply In_nth_error in Hin as (j & Hj).
      pose proof (increasing_above_index x_cumsum H0 Hinc j _ Hj) as Hle.
      assert (j <> k) by (intros ->; congruence).
      apply (nth_error_In _ j). rewrite nth_error_firstn.
      destruct (Nat.ltb_spec j k); [exact Hj | lia]. }
  destruct (isin (Z.of_nat k) (firstn k x_cumsum)) eqn:E.
  - apply isin_In in E. apply Hearlier in E.
    split; split; intros; try reflexivity; try assumption; try discriminate.
    destruct H as [H | H]; tauto.
  - assert (Hno : ~ In (Z.of_nat k) (firstn k x_cumsum))
      by (intros Hin; apply isin_In in Hin; congruence).
    rewrite Hearlier in Hno.
    split; split; intros; try reflexivity; try discriminate.
    + tauto.
    + destruct (Z.eq_dec xk (Z.of_nat k)); [now right | left; tauto].
Qed.

(** [Renewal(5).generate(6, seed)] with the arrival times
    [0, 1, 2, 3, 5, 6]: the indices 0, 1, 2, 3 are arrival times and are
    not marked, the index 5 is the arrival time [x_cumsum[4]] and is
    marked. *)
Lemma Renewal_generate_misses_initial_run_six :
  (Renewal.init 5 = Ok {| Renewal.n := 5; Renewal.lim_f := 39; Renewal.lim_x_zero := 67 |}
   /\ 1 <= 6
   /\ @Renewal.arrival_times Toy.numpy Toy.scipy_special
        {| Renewal.n := 5; Renewal.lim_f := 39; Renewal.lim_x_zero := 67 |}
        6 (Some 250%N) 7 = Ok [0; 1; 2; 3; 5; 6]
   /\ (forall a, nth_error [0; 1; 2; 3; 5; 6] 0 = Some a -> 0 <= a)
   /\ (forall i a b, nth_error [0; 1; 2; 3; 5; 6] i = Some a ->
                     nth_error [0; 1; 2; 3; 5; 6] (S i) = Some b -> a < b)) /\
  fst (@Renewal.generate Toy.numpy Toy.scipy_special
         {| Renewal.n := 5; Renewal.lim_f := 39; Renewal.lim_x_zero := 67 |}
         6 (Some 250%N) 7) = Ok [0; 0; 0; 0; 0; 1] /\
  exists out,
    fst (@Renewal.generate Toy.numpy Toy.scipy_special
           {| Renewal.n := 5; Renewal.lim_f := 39; Renewal.lim_x_zero := 67 |}
           6 (Some 250%N) 7) = Ok out /\
    Z.of_nat (length out) = 6 /\
    forall k : nat, Z.of_nat k < 6 ->
      exists v xk,
        nth_error out k = Some v /\
        nth_error [0; 1; 2; 3; 5; 6] k = Some xk /\
        (v = 1 <-> In (Z.of_nat k) [0; 1; 2; 3; 5; 6] /\ xk <> Z.of_nat k) /\
        (v = 0 <-> ~ In (Z.of_nat k) [0; 1; 2; 3; 5; 6] \/ xk = Z.of_nat k).
Proof.
  assert (Harr : @Renewal.arrival_times Toy.numpy Toy.scipy_special
                   {| Renewal.n := 5; Renewal.lim_f := 39; Renewal.lim_x_zero := 67 |}
                   6 (Some 250%N) 7 = Ok [0; 1; 2; 3; 5; 6]) by (vm_compute; reflexivity).
  assert (H0 : forall a, nth_error [0; 1; 2; 3; 5; 6] 0 = Some a -> 0 <= a).
  { intros a [= <-]. lia. }
  assert (Hinc : forall i a b, nth_error [0; 1; 2; 3; 5; 6] i = Some a ->
                               nth_error [0; 1; 2; 3; 5; 6] (S i) = Some b -> a < b).
  { intros i a b Ha Hb.
    do 5 (destruct i as [|i]; [injection Ha as <-; injection Hb as <-; lia|]).
    destruct i; discriminate. }
  split; [split; [reflexivity | split; [lia | exact (conj Harr (conj H0 Hinc))]]|].
  split; [vm_compute; reflexivity|].
  exact (@Renewal_generate_misses_initial_run Toy.numpy Toy.scipy_special
           5 {| Renewal.n := 5; Renewal.lim_f := 39; Renewal.lim_x_zero := 67 |}
           6 (Some 250%N) 7 [0; 1; 2; 3; 5; 6] eq_refl ltac:(lia) Harr H0 Hinc).
Defined.

(** ** SequentialSplit: any sizes, segment lengths, the sliding window *)

Lemma split_offsets {A : Type} (sizes : list Z) (show_progress : bool) (X : list A) :
  SequentialSplit.split (SequentialSplit.init sizes show_progress) X
  = map (fun t =>
           map (fun j =>
                  py_slice (range 0 (Z.of_nat (length X)))
                    (t + Zsum (py_slice sizes 0 j))
                    (t + Zsum (py_slice sizes 0 (j + 1))))
               (range 0 (Z.of_nat (length sizes))))
        (range 0 (Z.of_nat (length X) - Zsum sizes + 1)).
Proof.
  unfold SequentialSplit.split, SequentialSplit.init.
  cbn [SequentialSplit.sizes SequentialSplit.show_progress].
  rewrite range_length.
  replace (Z.of_nat (Z.to_nat (Z.of_nat (length X) - 0))) with (Z.of_nat (length X)) by lia.
  destruct show_progress; reflexivity.
Qed.

Lemma range_empty (lo hi : Z) : hi <= lo -> range lo hi = [].
Proof. intros H. unfold range. replace (Z.to_nat (hi - lo)) with 0%nat by lia. reflexivity. Qed.

Lemma slice_incl {A : Type} (l : list A) (a b : Z) (x : A) :
  In x (py_slice l a b) -> In x l.
Proof.
  unfold py_slice. intros H.
  rewrite <- (firstn_skipn (slice_bound (length l) a) l). apply in_or_app. right.
  rewrite <- (firstn_skipn (slice_bound (length l) b - slice_bound (length l) a)
                (skipn (slice_bound (length l) a) l)).
  apply in_or_app. now left.
Qed.

(** For every tuple of sizes, negative ones included, and every input:
    [split] yields [max(0, len(X) - sum(sizes) + 1)] partitions, none when
    the sizes exceed the input; every partition has one segment per size,
    and every index it holds is a position of [X]. *)
Theorem SequentialSplit_split_any_sizes {A : Type}
  (sizes : list Z) (show_progress : bool) (X : list A) :
  let parts := SequentialSplit.split (SequentialSplit.init sizes show_progress) X in
  length parts = Z.to_nat (Z.of_nat (length X) - Zsum sizes + 1) /\
  (Z.of_nat (length X) < Zsum sizes -> parts = []) /\
  Forall (fun part =>
            length part = length sizes /\
            Forall (Forall (fun i => 0 <= i < Z.of_nat (length X))) part) parts.
Proof.
  cbv zeta. rewrite split_offsets. split; [|split].
  - rewrite length_map, range_length. f_equal. lia.
  - intros Hlt. rewrite (range_empty 0 (Z.of_nat (length X) - Zsum sizes + 1)) by lia.
    reflexivity.
  - apply Forall_forall. intros part Hpart.
    apply in_map_iff in Hpart as (t & <- & _). split.
    + rewrite length_map, range_length. lia.
    + apply Forall_forall. intros seg Hseg.
      apply in_map_iff in Hseg as (j & <- & _).
      apply Forall_forall. intros i Hi. apply slice_incl in Hi.
      apply in_range in Hi. exact Hi.
Qed.

(** Sizes [(4, 3)] on five elements, and sizes [(2, -1)] on three. *)
Lemma SequentialSplit_split_any_sizes_examples :
  SequentialSplit.split (SequentialSplit.init [4; 3] false) [10; 20; 30; 40; 50] = []
  /\ SequentialSplit.split (SequentialSplit.init [2; -1] false) [10; 20; 30]
     = [[[0; 1]; []]; [[1; 2]; []]; [[2]; []]].
Proof.
  split.
  - exact (proj1 (proj2 (SequentialSplit_split_any_sizes
                           [4; 3] false [10; 20; 30; 40; 50])) ltac:(cbn; lia)).
  - reflexivity.
Defined.

Lemma Zsum_firstn_step (l : list Z) :
  map (fun j => Zsum (firstn (S j) l) - Zsum (firstn j l)) (seq 0 (length l)) = l.
Proof.
  induction l as [|x t IH]; [reflexivity|].
  cbn [length]. rewrite <- cons_seq, <- seq_shift. cbn [map]. rewrite map_map.
  cbn [firstn Zsum]. f_equal; [lia|].
  etransitivity; [|exact IH]. apply map_ext. intros j. cbn [firstn Zsum]. lia.
Qed.

Lemma range_succ (a b : Z) : map Z.succ (range a b) = range (a + 1) (b + 1).
Proof.
  unfold range. rewrite map_map.
  replace (Z.to_nat (b + 1 - (a + 1))) with (Z.to_nat (b - a)) by lia.
  apply map_ext. intros k. lia.
Qed.

(** The segments of partition [t], for sizes that fit. *)
Lemma split_segments (sizes : list Z) (len t : Z) :
  Forall (fun s => 0 <= s) sizes ->
  0 <= t -> t + Zsum sizes <= len ->
  map (fun j =>
         py_slice (range 0 len)
           (t + Zsum (py_slice sizes 0 j))
           (t + Zsum (py_slice sizes 0 (j + 1))))
      (range 0 (Z.of_nat (length sizes)))
  = map (fun j => range (t + Zsum (firstn j sizes)) (t + Zsum (firstn (S j) sizes)))
        (seq 0 (length sizes)).
Proof.
  intros Hs Ht Hfit. unfold range at 2. rewrite map_map.
  replace (Z.to_nat (Z.of_nat (length sizes) - 0)) with (length sizes) by lia.
  apply map_ext. intros j. cbn [Z.add].
  replace (Z.of_nat j + 1) with (Z.of_nat (S j)) by lia.
  rewrite !slice_prefix.
  pose proof (Zsum_firstn_bounds sizes j Hs).
  apply slice_of_range; lia.
Qed.

(** For sizes that fit into [X], segment [j] of every partition holds
    exactly [sizes[j]] indices, and the partition at offset [t + 1] is the
    partition at offset [t] with every index increased by one. *)
Theorem SequentialSplit_split_slides {A : Type}
  (sizes : list Z) (show_progress : bool) (X : list A) (t : nat) :
  Forall (fun s => 0 <= s) sizes ->
  Z.of_nat t + Zsum sizes <= Z.of_nat (length X) ->
  let parts := SequentialSplit.split (SequentialSplit.init sizes show_progress) X in
  exists part,
    nth_error parts t = Some part /\
    map (fun seg => Z.of_nat (length seg)) part = sizes /\
    (Z.of_nat t + 1 + Zsum sizes <= Z.of_nat (length X) ->
     nth_error parts (S t) = Some (map (map Z.succ) part)).
Proof.
  intros Hs Hfit. cbv zeta. rewrite split_offsets.
  rewrite nth_error_map, range_nth_error by lia. cbn [option_map Z.add].
  rewrite split_segments by (assumption || lia).
  eexists. split; [reflexivity|]. split.
  - rewrite map_map. etransitivity; [|exact (Zsum_firstn_step sizes)].
    apply map_ext. intros j. rewrite range_length.
    pose proof (Zsum_firstn_bounds sizes j Hs). lia.
  - intros Hnext. rewrite nth_error_map, range_nth_error by lia.
    cbn [option_map Z.add].
    rewrite split_segments by (assumption || lia).
    f_equal. rewrite map_map. apply map_ext. intros j.
    rewrite range_succ. f_equal; lia.
Qed.

(** Sizes [(2, 1)] on five elements, offsets 0 and 1. *)
Lemma SequentialSplit_split_slides_two_one :
  (Forall (fun s => 0 <= s) [2; 1] /\ Z.of_nat 0 + Zsum [2; 1] <= Z.of_nat 5) /\
  exists part,
    nth_error (SequentialSplit.split (SequentialSplit.init [2; 1] true)
                 [10; 20; 30; 40; 50]) 0 = Some part /\
    map (fun seg => Z.of_nat (length seg)) part = [2; 1] /\
    (Z.of_nat 0 + 1 + Zsum [2; 1] <= Z.of_nat 5 ->
     nth_error (SequentialSplit.split (SequentialSplit.init [2; 1] true)
                  [10; 20; 30; 40; 50]) 1 = Some (map (map Z.succ) part)).
Proof.
  assert (Hs : Forall (fun s => 0 <= s) [2; 1])
    by (repeat (apply Forall_cons; [lia|]); apply Forall_nil).
  assert (Hfit : Z.of_nat 0 + Zsum [2; 1] <= Z.of_nat 5) by (cbn; lia).
  split; [exact (conj Hs Hfit)|].
  exact (SequentialSplit_split_slides [2; 1] true [10; 20; 30; 40; 50] 0 Hs Hfit).
Defined.

(** ** get_data: a missing column, complete rows, the target's alignment *)

Lemma get_column_missing (df : DataFrame.t) (name : string) :
  ~ In name (map fst (DataFrame.columns df)) ->
  DataFrame.get_column df name = Raise (KeyError name).
Proof.
  intros Hno. unfold DataFrame.get_column.
  destruct (find _ (DataFrame.columns df)) as [c|] eqn:E; [|reflexivity].
  apply find_some in E as [Hin Heq]. apply String.eqb_eq in Heq.
  exfalso. apply Hno. rewrite <- Heq. now apply in_map.
Qed.

(** The path [get_data] reads. *)
Lemma get_data_reads (read_csv : string -> string + DataFrame.t) (target : string)
  (target_gap maxlags year : Z) :
  target <> EmptyString -> 1 <= target_gap ->
  get_data read_csv target target_gap maxlags year
  = ([],
     df <- match read_csv ("data/processed/df-" ++ target ++ "-" ++ str_of_int year
                           ++ "-maxlags_" ++ str_of_int maxlags ++ ".csv")%string with
           | inl detail => Raise (ExternalError detail)
           | inr df => Ok df
           end ;;
     col <- DataFrame.get_column df target ;;
     Ok (DataFrame.dropna
           (DataFrame.set_column df "target" (DataFrame.shift (- target_gap) col)))).
Proof.
  intros Ht Hgap. unfold get_data.
  apply nonempty_true_iff in Ht. rewrite Ht.
  destruct (Z.ltb_spec target_gap 1); [lia|]. cbn [andb negb].
  f_equal. destruct (read_csv _) as [detail|df]; cbn [bind]; [reflexivity|].
  destruct (DataFrame.get_column df target); reflexivity.
Qed.

(** With a target and a gap of at least 1, a file that has no column
    named after the target makes [get_data] raise [KeyError], with no
    warning. *)
Theorem get_data_missing_column
  (read_csv : string -> string + DataFrame.t) (target : string)
  (target_gap maxlags year : Z) (df : DataFrame.t) :
  target <> EmptyString ->
  1 <= target_gap ->
  read_csv ("data/processed/df-" ++ target ++ "-" ++ str_of_int year
            ++ "-maxlags_" ++ str_of_int maxlags ++ ".csv")%string = inr df ->
  ~ In target (map fst (DataFrame.columns df)) ->
  get_data read_csv target target_gap maxlags year = ([], Raise (KeyError target)).
Proof.
  intros Ht Hgap Hread Hno. rewrite get_data_reads by assumption.
  rewrite Hread. cbn [bind]. rewrite get_column_missing by assumption. reflexivity.
Qed.

(** [get_data("z", target_gap=1, ...)] on the sample table, which has the
    columns [x] and [y]. *)
Lemma get_data_missing_column_sample :
  get_data sample_file "z" 1 3 2020 = ([], Raise (KeyError "z")).
Proof.
  apply (get_data_missing_column sample_file "z" 1 3 2020 _
           ltac:(discriminate) ltac:(lia) eq_refl).
  cbn. intros [H | [H | []]]; discriminate.
Defined.

Lemma select_defined (g : nat -> bool) (n : nat) :
  forall (start : nat) (l : list DataFrame.cell),
    (forall i, (start <= i)%nat -> g i = true ->
               DataFrame.defined (nth (i - start) l None) = true) ->
    forallb DataFrame.defined (DataFrame.select (map g (seq start n)) l) = true.
Proof.
  induction n as [|n IH]; intros start l H; [reflexivity|].
  cbn [seq map DataFrame.select]. destruct l as [|x xs]; [reflexivity|].
  assert (Hrest : forallb DataFrame.defined
                    (DataFrame.select (map g (seq (S start) n)) xs) = true).
  { apply IH. intros i Hi Hg. specialize (H i ltac:(lia) Hg).
    replace (i - start)%nat with (S (i - S start)) in H by lia. exact H. }
  destruct (g start) eqn:Hg; [|exact Hrest].
  cbn [forallb]. rewrite Hrest, andb_true_r.
  specialize (H start (Nat.le_refl _) Hg). now rewrite Nat.sub_diag in H.
Qed.

(** [dropna] leaves no undefined cell. *)
Lemma dropna_defined (df : DataFrame.t) :
  Forall (fun c => forallb DataFrame.defined (snd c) = true)
         (DataFrame.columns (DataFrame.dropna df)).
Proof.
  unfold DataFrame.dropna. cbn [DataFrame.columns].
  apply Forall_forall. intros c Hc. apply in_map_iff in Hc as (c0 & <- & Hc0).
  cbn [snd]. unfold DataFrame.complete_rows. apply select_defined.
  intros i _ Hg. rewrite Nat.sub_0_r.
  rewrite forallb_forall in Hg. exact (Hg c0 Hc0).
Qed.

(** Row selection by positions: the cells [select] keeps are those at the
    positions the mask accepts. *)
Lemma select_positions {A : Type} (d : A) (g : nat -> bool) (n : nat) :
  forall (start : nat) (l : list A),
    (n <= length l)%nat ->
    DataFrame.select (map g (seq start n)) l
    = map (fun i => nth (i - start) l d) (filter g (seq start n)).
Proof.
  induction n as [|n IH]; intros start l Hlen; [reflexivity|].
  destruct l as [|x xs]; [cbn [length] in Hlen; lia|].
  cbn [seq map DataFrame.select filter]. cbn [length] in Hlen.
  assert (Hrest : DataFrame.select (map g (seq (S start) n)) xs
                  = map (fun i => nth (i - start) (x :: xs) d)
                        (filter g (seq (S start) n))).
  { rewrite IH by lia. apply map_ext_in. intros i Hi.
    apply filter_In in Hi as [Hi _]. apply in_seq in Hi.
    replace (i - start)%nat with (S (i - S start)) by lia. reflexivity. }
  destruct (g start); [|exact Hrest].
  cbn [map]. rewrite Nat.sub_diag. cbn [nth]. now rewrite Hrest.
Qed.

Lemma assign_In (cols : list (string * list DataFrame.cell)) (name : string)
  (values : list DataFrame.cell) :
  In (name, values) (DataFrame.assign cols name values).
Proof.
  induction cols as [|c cs IH]; cbn [DataFrame.assign]; [now left|].
  destruct (String.eqb (fst c) name); [now left | now right].
Qed.

Lemma assign_find (cols : list (string * list DataFrame.cell)) (name : string)
  (values : list DataFrame.cell) :
  find (fun c => String.eqb (fst c) name) (DataFrame.assign cols name values)
  = Some (name, values).
Proof.
  induction cols as [|c cs IH]; cbn [DataFrame.assign find fst].
  - now rewrite String.eqb_refl.
  - destruct (String.eqb (fst c) name) eqn:E; cbn [find fst].
    + now rewrite String.eqb_refl.
    + now rewrite E.
Qed.

Lemma find_map_snd {A B : Type} (name : string) (h : A -> B)
  (cols : list (string * A)) :
  find (fun c => String.eqb (fst c) name) (map (fun c => (fst c, h (snd c))) cols)
  = option_map (fun c => (fst c, h (snd c)))
      (find (fun c => String.eqb (fst c) name) cols).
Proof.
  induction cols as [|c cs IH]; [reflexivity|]. cbn [map find fst].
  destruct (String.eqb (fst c) name); [reflexivity | exact IH].
Qed.

Lemma shifted_back_cell (gap : Z) (col : list DataFrame.cell) (i : nat) :
  1 <= gap -> (i < length col)%nat ->
  nth i (DataFrame.shift (- gap) col) None = nth (i + Z.to_nat gap) col None.
Proof.
  intros Hgap Hi. unfold DataFrame.shift. rewrite nth_map_seq by assumption.
  destruct (Z.ltb_spec (Z.of_nat i - - gap) 0); [lia|].
  replace (Z.to_nat (Z.of_nat i - - gap)) with (i + Z.to_nat gap)%nat by lia.
  destruct (nth_error col (i + Z.to_nat gap)) as [c|] eqn:E.
  - symmetry. now apply nth_error_nth.
  - apply nth_error_None in E. symmetry. now apply nth_overflow.
Qed.

(** With a target and a gap of at least 1, on a file whose target column
    is as long as the index: the frame returned has no undefined cell and
    holds a column [target]; its rows are rows of the file, in the file's
    order, each a row [i] with [i + target_gap] still inside the file, and
    the target of such a row is the file's value of the target column
    [target_gap] rows later.  At most [nrows - target_gap] rows are
    returned. *)
Theorem get_data_target_alignment
  (read_csv : string -> string + DataFrame.t) (target : string)
  (target_gap maxlags year : Z) (df : DataFrame.t) (col : list DataFrame.cell) :
  target <> EmptyString ->
  1 <= target_gap ->
  read_csv ("data/processed/df-" ++ target ++ "-" ++ str_of_int year
            ++ "-maxlags_" ++ str_of_int maxlags ++ ".csv")%string = inr df ->
  DataFrame.get_column df target = Ok col ->
  length col = DataFrame.nrows df ->
  exists out tcol keep,
    let rows := filter keep (seq 0 (DataFrame.nrows df)) in
    get_data read_csv target target_gap maxlags year = ([], Ok out) /\
    Forall (fun c => forallb DataFrame.defined (snd c) = true) (DataFrame.columns out) /\
    DataFrame.get_column out "target" = Ok tcol /\
    DataFrame.index out = map (fun i => nth i (DataFrame.index df) 0) rows /\
    tcol = map (fun i => nth (i + Z.to_nat target_gap) col None) rows /\
    Forall (fun i => (i + Z.to_nat target_gap < DataFrame.nrows df)%nat) rows /\
    Z.of_nat (DataFrame.nrows out) <= Z.max 0 (Z.of_nat (DataFrame.nrows df) - target_gap).
Proof.
  intros Ht Hgap Hread Hcol Hlen. rewrite get_data_reads by assumption.
  rewrite Hread. cbn [bind]. rewrite Hcol. cbn [bind].
  set (shifted := DataFrame.shift (- target_gap) col).
  set (df' := DataFrame.set_column df "target" shifted).
  set (keep := fun i => forallb (fun c => DataFrame.defined (nth i (snd c) None))
                          (DataFrame.columns df')).
  exists (DataFrame.dropna df'),
         (map (fun i => nth (i + Z.to_nat target_gap) col None)
              (filter keep (seq 0 (DataFrame.nrows df)))), keep.
  cbv zeta. set (rows := filter keep (seq 0 (DataFrame.nrows df))).
  assert (Hkeep : DataFrame.complete_rows df' = map keep (seq 0 (DataFrame.nrows df)))
    by reflexivity.
  assert (Hrows : Forall (fun i => (i + Z.to_nat target_gap < DataFrame.nrows df)%nat) rows).
  { apply Forall_forall. intros i Hi. apply filter_In in Hi as [Hi Hk].
    apply in_seq in Hi. unfold keep in Hk. rewrite forallb_forall in Hk.
    specialize (Hk ("target"%string, shifted)
                  (assign_In (DataFrame.columns df) "target" shifted)).
    cbn [snd] in Hk. unfold shifted in Hk.
    rewrite shifted_back_cell in Hk by lia.
    destruct (Nat.lt_ge_cases (i + Z.to_nat target_gap) (DataFrame.nrows df)) as [|Hge];
      [assumption|].
    rewrite nth_overflow in Hk by lia. discriminate. }
  assert (Hnodup : NoDup rows) by (apply NoDup_filter, seq_NoDup).
  split; [reflexivity|]. split; [apply dropna_defined|].
  assert (Hshift_len : length shifted = DataFrame.nrows df)
    by (unfold shifted; rewrite shift_length; exact Hlen).
  assert (Htarget : DataFrame.select (map keep (seq 0 (DataFrame.nrows df))) shifted
                    = map (fun i => nth (i + Z.to_nat target_gap) col None) rows).
  { rewrite (@select_positions DataFrame.cell None keep _ 0 shifted) by lia.
    apply map_ext_in. intros i Hi.
    apply filter_In in Hi as [Hi _]. apply in_seq in Hi.
    rewrite Nat.sub_0_r. unfold shifted. apply shifted_back_cell; lia. }
  split.
  { unfold DataFrame.get_column, DataFrame.dropna. cbn [DataFrame.columns].
    rewrite Hkeep, find_map_snd.
    unfold df', DataFrame.set_column. cbn [DataFrame.columns].
    rewrite assign_find. cbn [option_map snd fst]. now rewrite Htarget. }
  split.
  { unfold DataFrame.dropna. cbn [DataFrame.index]. rewrite Hkeep.
    unfold df', DataFrame.set_column. cbn [DataFrame.index].
    rewrite (select_positions 0) by (unfold DataFrame.nrows; lia).
    apply map_ext. intros i. now rewrite Nat.sub_0_r. }
  split; [reflexivity|]. split; [exact Hrows|].
  assert (Hnrows : DataFrame.nrows (DataFrame.dropna df') = length rows).
  { unfold DataFrame.nrows at 1, DataFrame.dropna. cbn [DataFrame.index]. rewrite Hkeep.
    unfold df', DataFrame.set_column. cbn [DataFrame.index].
    rewrite (select_positions 0) by (unfold DataFrame.nrows; lia).
    apply length_map. }
  rewrite Hnrows.
  assert (Hincl : incl rows (seq 0 (DataFrame.nrows df - Z.to_nat target_gap))).
  { intros i Hi. rewrite Forall_forall in Hrows. specialize (Hrows i Hi).
    apply in_seq. lia. }
  pose proof (NoDup_incl_length Hnodup Hincl) as Hle. rewrite length_seq in Hle. lia.
Qed.

(** [get_data("x", target_gap=1, ...)] on the sample table: only the first
    row has its features and its target. *)
Lemma get_data_target_alignment_sample :
  get_data sample_file "x" 1 3 2020
  = ([], Ok {| DataFrame.index := [10];
               DataFrame.columns := [("x"%string, [Some 1%Q]);
                                     ("y"%string, [Some 5%Q]);
                                     ("target"%string, [Some 2%Q])] |})
  /\ exists out tcol,
       get_data sample_file "x" 1 3 2020 = ([], Ok out) /\
       DataFrame.get_column out "target" = Ok tcol /\
       Z.of_nat (DataFrame.nrows out) <= Z.max 0 (4 - 1).
Proof.
  split; [reflexivity|].
  destruct (get_data_target_alignment sample_file "x" 1 3 2020 _
              [Some 1%Q; Some 2%Q; None; Some 4%Q]
              ltac:(discriminate) ltac:(lia) eq_refl eq_refl eq_refl)
    as (out & tcol & keep & Hout & _ & Htcol & _ & _ & _ & Hle).
  exists out, tcol. exact (conj Hout (conj Htcol Hle)).
Defined.

(** ** get_synthetic: how the columns relate, and the edge sizes *)

Section Synthetic_frames.

Context {NP : Numpy} {SP : ScipySpecial}.


End Synthetic_frames.











